(** * obs_base: Gen2-to-Gen3 conversion, verified fragments

    A shallow embedding of two pieces of [lsst.obs.base.gen2to3]:

    - [repoWalker/scanner.py]: [PathElementHandler] and [DirectoryScanner]
      (rank-ordered handler pools, one directory level of scanning);
    - [calibRepoConverter.py]: [CalibRepoConverter._queryGen2CalibRegistry]
      and [CalibRepoConverter._finish] (validity ranges read from the Gen2
      calibration registry, gap closing and overlap trimming, certification).

    Conventions.  Python objects are records, dictionaries are association
    lists in insertion order (Python dictionaries iterate in insertion
    order), Python sets are duplicate-free lists that are only ever read
    through [sorted], and everything the code does to the outside world
    (logging, the sqlite query, [Registry.certify]) is an event appended to
    a trace.  An uncaught Python exception is the [Raise] result.

    Times.  [astropy.time.Time] values are modelled as integers counting
    milliseconds on the TAI scale, so that [TimeDelta(1, format="jd")] is
    [86400000] and [TimeDelta(1.001, format="jd")] is [86486400]; the
    rounding of astropy's pair-of-doubles representation is outside the
    model. *)

From Stdlib Require Import ZArith List String Ascii Bool Arith Lia.
From Stdlib Require Import Permutation Sorted DecimalString.
Import ListNotations.

Set Implicit Arguments.
Open Scope Z_scope.

(* ================================================================== *)
(** * Python built-ins used by the code *)
(* ================================================================== *)

Module Py.

(** Exceptions that can leave the modelled functions. *)
Inductive Exn : Type :=
| TypeError
| IndexError
| AssertionError
| RuntimeError (msg : string).

Inductive Res (A : Type) : Type :=
| Ok (a : A)
| Raise (e : Exn).

Arguments Ok {A} a.
Arguments Raise {A} e.

(** ** [sorted]

    Python's sort is stable and only uses [<]; for a total order the stable
    sorted arrangement is unique, so a stable insertion sort computes what
    [sorted] returns.  [leb a b] stands for [not (b < a)]. *)

Section Sorted.
Variable A : Type.
Variable leb : A -> A -> bool.

Fixpoint insert_sorted (x : A) (l : list A) : list A :=
  match l with
  | [] => [x]
  | y :: l' => if leb x y then x :: l else y :: insert_sorted x l'
  end.

Fixpoint sorted (l : list A) : list A :=
  match l with
  | [] => []
  | x :: l' => insert_sorted x (sorted l')
  end.

End Sorted.

(** ** [dict]

    An insertion-ordered association list with at most one binding per
    key. *)

Section Dict.
Variables K V : Type.
Variable K_eq_dec : forall a b : K, {a = b} + {a <> b}.

Definition dict : Type := list (K * V).

Fixpoint get (d : dict) (k : K) : option V :=
  match d with
  | [] => None
  | (k', v) :: d' => if K_eq_dec k k' then Some v else get d' k
  end.

(** [d[k] = v]: overwrite in place, or append a new binding. *)
Fixpoint setitem (d : dict) (k : K) (v : V) : dict :=
  match d with
  | [] => [(k, v)]
  | (k', v') :: d' =>
      if K_eq_dec k k' then (k', v) :: d' else (k', v') :: setitem d' k v
  end.

Definition keys (d : dict) : list K := map fst d.
Definition values (d : dict) : list V := map snd d.

End Dict.

(** ** [collections.defaultdict(list)] and [d[k].append(v)] *)

Section DefaultDict.
Variables K V : Type.
Variable K_eq_dec : forall a b : K, {a = b} + {a <> b}.

Definition defaultdict : Type := list (K * list V).

Fixpoint dd_append (d : defaultdict) (k : K) (v : V) : defaultdict :=
  match d with
  | [] => [(k, [v])]
  | (k', vs) :: d' =>
      if K_eq_dec k k' then (k', vs ++ [v]) :: d'
      else (k', vs) :: dd_append d' k v
  end.

(** The [(key, element)] pairs held by the dictionary, bucket by bucket. *)
Definition dd_pairs (d : defaultdict) : list (K * V) :=
  flat_map (fun kv => map (pair (fst kv)) (snd kv)) d.

(** Storing a sequence of pairs, one [append] after the other. *)
Definition store_all (d : defaultdict) (pairs : list (K * V)) : defaultdict :=
  fold_left (fun d p => dd_append d (fst p) (snd p)) pairs d.

End DefaultDict.

(** ** [set.add] on a set kept as a duplicate-free list *)

Fixpoint set_add (s : list string) (x : string) : list string :=
  match s with
  | [] => [x]
  | y :: s' => if string_dec x y then s else y :: set_add s' x
  end.

(** [s.add(m)] for each message of a sequence. *)
Definition set_add_all (s : list string) (msgs : list string) : list string :=
  fold_left set_add msgs s.

(** ** Subscripting [tables[i]] where [tables] may be [None] *)

Definition subscript (A : Type) (l : option (list A)) (i : nat) : Res A :=
  match l with
  | None => Raise TypeError
  | Some xs =>
      match nth_error xs i with
      | Some x => Ok x
      | None => Raise IndexError
      end
  end.

(** [sep.join(parts)] *)
Fixpoint join (sep : string) (parts : list string) : string :=
  match parts with
  | [] => EmptyString
  | [p] => p
  | p :: ps => (p ++ sep ++ join sep ps)%string
  end.

End Py.

(* ================================================================== *)
(** * repoWalker/scanner.py *)
(* ================================================================== *)

Module Scanner.

(** An [os.DirEntry]: what [scan] reads from it. *)
Record DirEntry : Type := {
  entry_name : string;
  entry_path : string;
  is_file : bool;
  is_dir : bool
}.

Section Handlers.

(** The [datasets] accumulator and the [predicate] the handlers are given. *)
Variables Datasets Predicate : Type.

(** [PathElementHandler]: the abstract methods.  [call] is [__call__]; it
    returns [matched] and the accumulator as the handler left it. *)
Record PathElementHandler : Type := {
  isForFiles : bool;
  rank : Z;
  call : string -> string -> Datasets -> Predicate -> bool * Datasets
}.

(** [PathElementHandler.__lt__] *)
Definition handler_lt (self other : PathElementHandler) : bool :=
  rank self <? rank other.

(** [bisect.bisect_right(a, x)]: the binary search of the standard
    library, [lo] and [hi] as there.  The interval halves at every turn,
    so [List.length a] turns are enough. *)
Fixpoint bisect_right_loop (fuel : nat) (a : list PathElementHandler)
    (x : PathElementHandler) (lo hi : nat) : nat :=
  match fuel with
  | O => lo
  | S fuel' =>
      if (lo <? hi)%nat then
        let mid := ((lo + hi) / 2)%nat in
        match nth_error a mid with
        | Some a_mid =>
            if handler_lt x a_mid
            then bisect_right_loop fuel' a x lo mid
            else bisect_right_loop fuel' a x (mid + 1)%nat hi
        | None => lo
        end
      else lo
  end.

Definition bisect_right (a : list PathElementHandler) (x : PathElementHandler)
    : nat :=
  bisect_right_loop (List.length a) a x 0%nat (List.length a).

(** [bisect.insort(a, x)]: [a.insert(bisect_right(a, x), x)] *)
Definition insort (a : list PathElementHandler) (x : PathElementHandler)
    : list PathElementHandler :=
  let lo := bisect_right a x in
  firstn lo a ++ x :: skipn lo a.

(** [DirectoryScanner]: the two pools. *)
Record DirectoryScanner : Type := {
  _files : list PathElementHandler;
  _subdirectories : list PathElementHandler
}.

(** [DirectoryScanner.__init__] *)
Definition new_scanner : DirectoryScanner :=
  {| _files := []; _subdirectories := [] |}.

(** [DirectoryScanner.add] *)
Definition add (self : DirectoryScanner) (handler : PathElementHandler)
    : DirectoryScanner :=
  if isForFiles handler
  then {| _files := insort (_files self) handler;
          _subdirectories := _subdirectories self |}
  else {| _files := _files self;
          _subdirectories := insort (_subdirectories self) handler |}.

(** Adding a sequence of handlers, first to last. *)
Definition add_all (self : DirectoryScanner) (hs : list PathElementHandler)
    : DirectoryScanner :=
  fold_left add hs self.

(** [DirectoryScanner.__iter__] *)
Definition iter (self : DirectoryScanner) : list PathElementHandler :=
  _files self ++ _subdirectories self.

(** One handler invocation and what it returned. *)
Definition Attempt : Type := (PathElementHandler * bool)%type.

(** The inner [for handler in handlers: ... break ... else: ...] of [scan]:
    whether some handler matched, the accumulator afterwards, and the
    invocations made, in order. *)
Fixpoint try_handlers (handlers : list PathElementHandler) (entry : DirEntry)
    (datasets : Datasets) (predicate : Predicate)
    : bool * Datasets * list Attempt :=
  match handlers with
  | [] => (false, datasets, [])
  | handler :: rest =>
      let (matched, datasets') :=
        call handler (entry_path entry) (entry_name entry) datasets predicate in
      if matched then (true, datasets', [(handler, true)])
      else
        let '(found, datasets'', attempts) :=
          try_handlers rest entry datasets' predicate in
        (found, datasets'', (handler, false) :: attempts)
  end.

(** The pool [scan] selects for an entry; [None] is the [continue]. *)
Definition select_pool (self : DirectoryScanner) (entry : DirEntry)
    : option (list PathElementHandler) :=
  if is_file entry then Some (_files self)
  else if is_dir entry then Some (_subdirectories self)
  else None.

(** What a scan leaves behind. *)
Record ScanState : Type := {
  datasets_of : Datasets;
  unrecognized : list string;
  calls : list (DirEntry * list Attempt)
}.

(** The body of [for entry in os.scandir(path)]. *)
Definition scan_entry (self : DirectoryScanner) (predicate : Predicate)
    (st : ScanState) (entry : DirEntry) : ScanState :=
  match select_pool self entry with
  | None => st
  | Some handlers =>
      let '(found, datasets', attempts) :=
        try_handlers handlers entry (datasets_of st) predicate in
      {| datasets_of := datasets';
         unrecognized :=
           if found then unrecognized st
           else unrecognized st ++ [entry_name entry];
         calls := calls st ++ [(entry, attempts)] |}
  end.

(** The one message [scan] can log:
    [log.warn("Skipped unrecognized entries in %s: %s", path, unrecognized)] *)
Inductive ScanLog : Type :=
| SkippedUnrecognized (path : string) (names : list string).

(** [DirectoryScanner.scan]; [entries] is what [os.scandir(path)] yields. *)
Definition scan (self : DirectoryScanner) (path : string)
    (entries : list DirEntry) (datasets : Datasets) (predicate : Predicate)
    : ScanState * list ScanLog :=
  let st :=
    fold_left (scan_entry self predicate) entries
      {| datasets_of := datasets; unrecognized := []; calls := [] |} in
  (st,
   match unrecognized st with
   | [] => []
   | _ :: _ => [SkippedUnrecognized path (unrecognized st)]
   end).

(** ** Vocabulary for the properties of a scan *)

(** Pools are kept in non-decreasing rank order; with pairwise distinct
    ranks the order is strict. *)
Definition rank_le (u v : PathElementHandler) : Prop := rank u <= rank v.
Definition rank_lt (u v : PathElementHandler) : Prop := rank u < rank v.

(** The outcome of the handler loop on one entry: the handlers of the pool
    were invoked in pool order, every one before the last returned false,
    and the loop stopped at the first that returned true, if any. *)
Definition stops_at_first_match (pool : list PathElementHandler)
    (attempts : list Attempt) : Prop :=
  (exists pre h rest,
      pool = pre ++ h :: rest /\
      attempts = map (fun h' => (h', false)) pre ++ [(h, true)])
  \/ attempts = map (fun h' => (h', false)) pool.

(** The recorded results are what the handlers returned: each handler was
    invoked on the accumulator its predecessor left, starting from
    [before], and [after] is what the last one left. *)
Fixpoint invoked_in_turn (attempts : list Attempt) (entry : DirEntry)
    (predicate : Predicate) (before after : Datasets) : Prop :=
  match attempts with
  | [] => after = before
  | a :: rest =>
      fst (call (fst a) (entry_path entry) (entry_name entry) before predicate)
        = snd a /\
      invoked_in_turn rest entry predicate
        (snd (call (fst a) (entry_path entry) (entry_name entry) before
                   predicate))
        after
  end.

(** Entries [scan] looks at: files and directories. *)
Definition file_or_dir (e : DirEntry) : bool := is_file e || is_dir e.

(** Every invocation made for the entry returned false. *)
Definition unmatched (c : DirEntry * list Attempt) : bool :=
  forallb (fun a => negb (snd a)) (snd c).

(** The handlers of one rank. *)
Definition has_rank (r : Z) (h : PathElementHandler) : bool := rank h =? r.

(** A handler that adds to [datasets] only when it matches: when it
    returns false the accumulator is as it found it. *)
Definition well_behaved (h : PathElementHandler) : Prop :=
  forall path name datasets predicate,
    fst (call h path name datasets predicate) = false ->
    snd (call h path name datasets predicate) = datasets.

End Handlers.

Arguments rank_le {Datasets Predicate} u v.
Arguments rank_lt {Datasets Predicate} u v.
Arguments unmatched {Datasets Predicate} c.
Arguments has_rank {Datasets Predicate} r h.
Arguments well_behaved {Datasets Predicate} h.

End Scanner.

(* ================================================================== *)
(** * calibRepoConverter.py *)
(* ================================================================== *)

Module Calib.
Import Py.

(** ** Data *)

(** [astropy.time.Time] and [TimeDelta], in milliseconds (TAI). *)
Definition Time : Type := Z.

(** [astropy.time.TimeDelta(1, format="jd", scale="tai")] *)
Definition day : Z := 86400000.

(** [astropy.time.TimeDelta(1.001, format="jd", scale="tai")]:
    "a day with a bit of fuzz for comparison". *)
Definition fuzzy_day : Z := 86486400.

(** [lsst.daf.butler.Timespan]: a named tuple [(begin, end)]. *)
Record Timespan : Type := { begin : Time; end_ : Time }.

Definition Timespan_eq_dec (a b : Timespan) : {a = b} + {a <> b}.
Proof. decide equality; apply Z.eq_dec. Defined.

(** Tuple comparison [a < b] on [(begin, end)]. *)
Definition timespan_lt (a b : Timespan) : bool :=
  (begin a <? begin b) || ((begin a =? begin b) && (end_ a <? end_ b)).

(** [not (b < a)], the order [sorted] arranges timespans in. *)
Definition timespan_leb (a b : Timespan) : bool := negb (timespan_lt b a).

(** A Gen3 data ID ([DataCoordinate]) of a calibration dataset. *)
Record DataCoordinate : Type := {
  instrument : string;
  detector : option Z;
  physical_filter : option string
}.

Definition DataCoordinate_eq_dec (a b : DataCoordinate) : {a = b} + {a <> b}.
Proof.
  decide equality.
  - decide equality. apply string_dec.
  - decide equality. apply Z.eq_dec.
  - apply string_dec.
Defined.

Record DatasetType : Type := {
  name : string;
  dimensions : list string;
  isCalibration : bool
}.

(** ["d" in datasetType.dimensions.names] *)
Definition has_dimension (d : string) (datasetType : DatasetType) : bool :=
  existsb (String.eqb d) (dimensions datasetType).

Record DatasetRef : Type := {
  dataId : DataCoordinate;
  datasetType : DatasetType;
  run : string
}.

Record FileDataset : Type := {
  refs : list DatasetRef;
  path : string
}.

(** A row of the Gen2 calibration registry as the query selects it; a
    [NULL] column is [None]. *)
Record Row : Type := {
  validStart : Time;
  validEnd : Time;
  row_ccd : option Z;
  row_filter : option string
}.

(** The Gen2 data ID [_finish] builds from a row: a key is present only
    when the dataset type has the matching dimension. *)
Record Gen2Id : Type := {
  gen2_ccd : option (option Z);
  gen2_filter : option (option string)
}.

(** The key [_finish] groups validity ranges by:
    [(r.dataId, r.datasetType.name)]. *)
Definition GroupKey : Type := (DataCoordinate * string)%type.

Definition GroupKey_eq_dec (a b : GroupKey) : {a = b} + {a <> b}.
Proof. decide equality; [apply string_dec | apply DataCoordinate_eq_dec]. Defined.

(** ** The outside world *)

Inductive Level : Type := DEBUG | INFO | WARN.

Inductive Event : Type :=
| Log (level : Level) (text : string)
| Execute (query : string) (calibDate : string)
| Certify (collection : string) (refs : list DatasetRef) (timespan : Timespan).

(** [str()] of the astropy and butler values that end up in messages. *)
Class Formatting : Type := {
  time_str : Time -> string;
  quantity_str : Z -> string;
  dataId_str : DataCoordinate -> string
}.

(** What [_finish] reads from its environment: [os.path.exists] and the
    sqlite file, one answer per query and bound parameter
    ([inl] is a [sqlite3.OperationalError] with its [repr]).
    [sqlite3.connect] is taken to succeed on a file that exists, and
    [db.execute] to raise nothing but [OperationalError], the one
    exception the code catches. *)
Record World : Type := {
  path_exists : string -> bool;
  db_execute : string -> string -> string + list Row
}.

(** [self]: the converter and what it reaches through [self.task],
    [self.mapper] and [self.instrument].  [translate] is the translator
    made by [makeMatching] followed by [DataCoordinate.standardize], taken
    not to raise.  [mapper_tables] is [self.mapper.mappings[name].tables]
    for a mapper that has a mapping for every name it is asked about. *)
Record CalibRepoConverter : Type := {
  root : string;
  collection : string;
  ccdKey : string;
  mapper_tables : string -> option (list string);
  translate : DatasetType -> Gen2Id -> DataCoordinate
}.

(** ** Effects: a trace of events, and exceptions *)

Definition M (A : Type) : Type := list Event -> Res A * list Event.

Definition ret (A : Type) (a : A) : M A := fun tr => (Ok a, tr).

Definition raise (A : Type) (e : Exn) : M A := fun tr => (Raise e, tr).

Arguments raise {A} e.

Definition bind (A B : Type) (c : M A) (k : A -> M B) : M B :=
  fun tr =>
    match c tr with
    | (Ok a, tr') => k a tr'
    | (Raise e, tr') => (Raise e, tr')
    end.

Definition emit (ev : Event) : M unit := fun tr => (Ok tt, tr ++ [ev]).

Definition lift (A : Type) (r : Res A) : M A := fun tr => (r, tr).

Notation "x <- c ;; k" := (bind c (fun x => k))
  (at level 61, c at next level, right associativity).
Notation "c ;;; k" := (bind c (fun _ => k))
  (at level 61, right associativity).

(** [for x in xs: body], threading an accumulator. *)
Fixpoint for_each (A S : Type) (body : S -> A -> M S) (xs : list A) (s : S)
    : M S :=
  match xs with
  | [] => ret s
  | x :: xs' => s' <- body s x ;; for_each body xs' s'
  end.

(** ** [_queryGen2CalibRegistry] *)

Section Converter.
Context {fmt : Formatting}.
Variable self : CalibRepoConverter.
Variable world : World.

Definition no_tables (tables : option (list string)) : bool :=
  match tables with
  | None => true
  | Some ts => (List.length ts =? 0)%nat
  end.

(** The generator, run to exhaustion: the rows it yields. *)
Definition _queryGen2CalibRegistry (datasetType : DatasetType)
    (calibDate : string) : M (list Row) :=
  let fields := ["validStart"; "validEnd"]%string in
  let fields :=
    if has_dimension "detector" datasetType
    then fields ++ [ccdKey self]
    else fields ++ [("NULL AS " ++ ccdKey self)%string] in
  fields <-
    (if has_dimension "physical_filter" datasetType
     then ret (fields ++ ["filter"%string])
     else if has_dimension "band" datasetType
          then raise AssertionError
          else ret (fields ++ ["NULL AS filter"%string])) ;;
  let tables := mapper_tables self (name datasetType) in
  if no_tables tables then
    (* the arguments of [log.warn], [tables[0]] among them, come first *)
    _ <- lift (subscript tables 0) ;;
    emit (Log WARN ("Could not extract calibration ranges for "
                    ++ name datasetType ++ " in " ++ root self
                    ++ "; no tables in Gen2 mapper.")%string) ;;;
    ret []
  else
    table <- lift (subscript tables 0) ;;
    let query := ("SELECT DISTINCT " ++ join ", " fields ++ " FROM " ++ table
                  ++ " WHERE calibDate = ?;")%string in
    emit (Execute query calibDate) ;;;
    match db_execute world query calibDate with
    | inl e =>
        emit (Log WARN ("Could not extract calibration ranges for "
                        ++ name datasetType ++ " in " ++ root self
                        ++ " from table " ++ table ++ ": " ++ e)%string) ;;;
        ret []
    | inr results => ret results
    end.

(** ** [_finish]: reading the Gen2 registry *)

(** [os.path.join(a, b)] for a relative [b] (posixpath). *)
Fixpoint ends_with_slash (s : string) : bool :=
  match s with
  | EmptyString => false
  | String c EmptyString => Ascii.eqb c "/"
  | String _ s' => ends_with_slash s'
  end.

Definition path_join (a b : string) : string :=
  match a with
  | EmptyString => b
  | _ => if ends_with_slash a then (a ++ b)%string else (a ++ "/" ++ b)%string
  end.

(** [refsByDataId]: [update((ref.dataId, ref) for ref in dataset.refs)]
    over the datasets of one calibDate. *)
Definition index_refs (datasetsForCalibDate : list FileDataset)
    : dict DataCoordinate DatasetRef :=
  fold_left
    (fun d dataset =>
       fold_left (fun d ref => setitem DataCoordinate_eq_dec d (dataId ref) ref)
                 (refs dataset) d)
    datasetsForCalibDate [].

(** The body of [for row in self._queryGen2CalibRegistry(...)]. *)
Definition join_row (datasetType : DatasetType) (calibDate : string)
    (refsByDataId : dict DataCoordinate DatasetRef)
    (refsByTimespan : defaultdict Timespan DatasetRef) (row : Row)
    : M (defaultdict Timespan DatasetRef) :=
  let timespan := {| begin := validStart row; end_ := validEnd row + day |} in
  let gen2id :=
    {| gen2_ccd :=
         if has_dimension "detector" datasetType
         then Some (row_ccd row) else None;
       gen2_filter :=
         if has_dimension "physical_filter" datasetType
         then Some (row_filter row) else None |} in
  let dataId := translate self datasetType gen2id in
  match get DataCoordinate_eq_dec refsByDataId dataId with
  | Some ref => ret (dd_append Timespan_eq_dec refsByTimespan timespan ref)
  | None =>
      emit (Log DEBUG ("Gen2 calibration registry entry has no dataset: "
                       ++ name datasetType ++ " for calibDate=" ++ calibDate
                       ++ ", " ++ dataId_str dataId ++ ".")%string) ;;;
      ret refsByTimespan
  end.

(** The body of [for calibDate, datasetsForCalibDate in ...items()]. *)
Definition join_calibDate (datasetType : DatasetType)
    (refsByTimespan : defaultdict Timespan DatasetRef)
    (item : option string * list FileDataset)
    : M (defaultdict Timespan DatasetRef) :=
  match fst item with
  | None => raise AssertionError
  | Some calibDate =>
      let refsByDataId := index_refs (snd item) in
      rows <- _queryGen2CalibRegistry datasetType calibDate ;;
      for_each (join_row datasetType calibDate refsByDataId) rows refsByTimespan
  end.

(** The body of [for datasetType, datasetsByCalibDate in datasets.items()]. *)
Definition join_datasetType
    (refsByTimespan : defaultdict Timespan DatasetRef)
    (item : DatasetType * list (option string * list FileDataset))
    : M (defaultdict Timespan DatasetRef) :=
  if negb (isCalibration (fst item)) then ret refsByTimespan
  else for_each (join_calibDate (fst item)) (snd item) refsByTimespan.

(** ** [_finish]: grouping by data ID *)

(** [refsByTimespan[timespan]] *)
Definition dd_get (K V : Type) (K_eq_dec : forall a b : K, {a = b} + {a <> b})
    (d : defaultdict K V) (k : K) : list V :=
  match get K_eq_dec d k with
  | Some vs => vs
  | None => []
  end.

(** [timespansByDataId], filled while walking [sorted(refsByTimespan)]. *)
Definition group_timespans (refsByTimespan : defaultdict Timespan DatasetRef)
    : defaultdict GroupKey (Timespan * DatasetRef) :=
  fold_left
    (fun acc timespan =>
       fold_left
         (fun acc r =>
            dd_append GroupKey_eq_dec acc
              (dataId r, name (datasetType r)) (timespan, r))
         (dd_get Timespan_eq_dec refsByTimespan timespan) acc)
    (sorted timespan_leb (keys refsByTimespan)) [].

(** ** [_finish]: plugging gaps and trimming overlaps *)

(** The three containers the correction loop fills. *)
Record Correction : Type := {
  correctedRefsByTimespan : defaultdict Timespan DatasetRef;
  info_messages : list string;
  warn_messages : list string
}.

Definition no_correction : Correction :=
  {| correctedRefsByTimespan := []; info_messages := []; warn_messages := [] |}.

Definition gap_message (timespan_prev timespan : Timespan) : string :=
  ("Calibration validity gap closed for " ++ time_str (end_ timespan_prev)
   ++ " to " ++ time_str (begin timespan))%string.

Definition overlap_message (delta : Z) (timespan_prev timespan : Timespan)
    : string :=
  ("Calibration validity overlap of " ++ quantity_str (Z.abs delta)
   ++ " removed for period " ++ time_str (begin timespan) ++ " to "
   ++ time_str (end_ timespan_prev))%string.

(** The body of [for timespan, ref in sorted_timespans]: the containers
    afterwards and the new [timespan_prev, ref_prev]. *)
Definition correct_iteration (st : Correction)
    (prev : Timespan * DatasetRef) (cur : Timespan * DatasetRef)
    : Correction * (Timespan * DatasetRef) :=
  let (timespan_prev, ref_prev) := prev in
  let (timespan, ref) := cur in
  let delta := begin timespan - end_ timespan_prev in
  let '(infos, warns, timespan_prev) :=
    if Z.abs delta <? fuzzy_day then
      let adjusted :=
        {| begin := begin timespan_prev; end_ := begin timespan |} in
      if delta >? 0
      then (set_add (info_messages st) (gap_message timespan_prev timespan),
            warn_messages st, adjusted)
      else (info_messages st,
            set_add (warn_messages st)
                    (overlap_message delta timespan_prev timespan),
            adjusted)
    else (info_messages st, warn_messages st, timespan_prev) in
  ({| correctedRefsByTimespan :=
        dd_append Timespan_eq_dec (correctedRefsByTimespan st)
                  timespan_prev ref_prev;
      info_messages := infos;
      warn_messages := warns |},
   (timespan, ref)).

Fixpoint correct_loop (st : Correction) (prev : Timespan * DatasetRef)
    (rest : list (Timespan * DatasetRef))
    : Correction * (Timespan * DatasetRef) :=
  match rest with
  | [] => (st, prev)
  | cur :: rest' =>
      let (st', prev') := correct_iteration st prev cur in
      correct_loop st' prev' rest'
  end.

(** [sorted(timespans, key=lambda x: x[0])] *)
Definition sort_by_timespan (timespans : list (Timespan * DatasetRef))
    : list (Timespan * DatasetRef) :=
  sorted (fun a b => timespan_leb (fst a) (fst b)) timespans.

(** The body of [for timespans in timespansByDataId.values()].
    [pop(0)] on an empty list raises [IndexError]. *)
Definition correct_group (st : Correction)
    (timespans : list (Timespan * DatasetRef)) : Res Correction :=
  match sort_by_timespan timespans with
  | [] => Raise IndexError
  | first :: sorted_timespans =>
      let (st', last) := correct_loop st first sorted_timespans in
      Ok {| correctedRefsByTimespan :=
              dd_append Timespan_eq_dec (correctedRefsByTimespan st')
                        (fst last) (snd last);
            info_messages := info_messages st';
            warn_messages := warn_messages st' |}
  end.

Fixpoint correct_groups (st : Correction)
    (groups : list (list (Timespan * DatasetRef))) : Res Correction :=
  match groups with
  | [] => Ok st
  | timespans :: groups' =>
      match correct_group st timespans with
      | Ok st' => correct_groups st' groups'
      | Raise e => Raise e
      end
  end.

(** ** [_finish]: reporting and certifying *)

Definition report (st : Correction) : M unit :=
  for_each (fun _ msg => emit (Log INFO msg))
           (sorted String.leb (info_messages st)) tt ;;;
  for_each (fun _ msg => emit (Log WARN msg))
           (sorted String.leb (warn_messages st)) tt.

(** The calls of [registry.certify], which is taken to return: what an
    exception of the registry would leave behind is not modelled. *)
Definition certify_all (corrected : defaultdict Timespan DatasetRef) : M unit :=
  for_each (fun _ item => emit (Certify (collection self) (snd item) (fst item)))
           corrected tt.

(** The event [certify_all] emits for one item of the dictionary. *)
Definition certify_event (item : Timespan * list DatasetRef) : Event :=
  Certify (collection self) (snd item) (fst item).

(** Everything [_finish] does once [refsByTimespan] is filled. *)
Definition finish_timespans (refsByTimespan : defaultdict Timespan DatasetRef)
    : M unit :=
  let timespansByDataId := group_timespans refsByTimespan in
  st <- lift (correct_groups no_correction (values timespansByDataId)) ;;
  report st ;;;
  certify_all (correctedRefsByTimespan st).

(** [CalibRepoConverter._finish].  The [print] calls write to standard
    output only and are left out of the trace. *)
Definition _finish
    (datasets : list (DatasetType * list (option string * list FileDataset)))
    : M unit :=
  let calibFile := path_join (root self) "calibRegistry.sqlite3" in
  if negb (path_exists world calibFile) then
    raise (RuntimeError
             ("Attempting to convert calibrations but no registry database"
              ++ " found in " ++ root self)%string)
  else
    refsByTimespan <- for_each join_datasetType datasets [] ;;
    finish_timespans refsByTimespan.

End Converter.

(** ** The correction loop without its containers

    The same loop read as a function from the sorted group to the sequence
    of [(timespan, ref)] pairs it stores and the messages it records; the
    theorems below tie [correct_group] to it. *)

(** What an iteration makes of [timespan_prev], given the next timespan. *)
Definition adjust (timespan_prev timespan : Timespan) : Timespan :=
  if Z.abs (begin timespan - end_ timespan_prev) <? fuzzy_day
  then {| begin := begin timespan_prev; end_ := begin timespan |}
  else timespan_prev.

(** The pairs stored into [correctedRefsByTimespan], in the order they are
    stored, for a group whose first pair is [prev]. *)
Fixpoint corrected_from (prev : Timespan * DatasetRef)
    (rest : list (Timespan * DatasetRef)) : list (Timespan * DatasetRef) :=
  match rest with
  | [] => [prev]
  | cur :: rest' => (adjust (fst prev) (fst cur), snd prev) :: corrected_from cur rest'
  end.

Definition corrected_pairs (sorted_timespans : list (Timespan * DatasetRef))
    : list (Timespan * DatasetRef) :=
  match sorted_timespans with
  | [] => []
  | first :: rest => corrected_from first rest
  end.

(** The messages a group gives rise to, in the order they are added. *)
Fixpoint messages_from {fmt : Formatting} (prev : Timespan)
    (rest : list Timespan) : list (Level * string) :=
  match rest with
  | [] => []
  | cur :: rest' =>
      let delta := begin cur - end_ prev in
      (if Z.abs delta <? fuzzy_day then
         if delta >? 0 then [(INFO, gap_message prev cur)]
         else [(WARN, overlap_message delta prev cur)]
       else [])
      ++ messages_from cur rest'
  end.

Definition group_messages {fmt : Formatting}
    (timespans : list (Timespan * DatasetRef)) : list (Level * string) :=
  match map fst (sort_by_timespan timespans) with
  | [] => []
  | first :: rest => messages_from first rest
  end.

(** ** Vocabulary for the properties of the correction *)

Definition level_eqb (a b : Level) : bool :=
  match a, b with
  | DEBUG, DEBUG | INFO, INFO | WARN, WARN => true
  | _, _ => false
  end.

(** The texts of the messages of one level. *)
Definition select_level (lvl : Level) (msgs : list (Level * string))
    : list string :=
  map snd (filter (fun m => level_eqb (fst m) lvl) msgs).

(** What [correct_group] makes of the three containers. *)
Definition after_group {fmt : Formatting} (st : Correction)
    (timespans : list (Timespan * DatasetRef)) : Correction :=
  {| correctedRefsByTimespan :=
       store_all Timespan_eq_dec (correctedRefsByTimespan st)
                 (corrected_pairs (sort_by_timespan timespans));
     info_messages :=
       set_add_all (info_messages st)
                   (select_level INFO (group_messages timespans));
     warn_messages :=
       set_add_all (warn_messages st)
                   (select_level WARN (group_messages timespans)) |}.

(** What [correct_groups] makes of them. *)
Definition after_groups {fmt : Formatting} (st : Correction)
    (groups : list (list (Timespan * DatasetRef))) : Correction :=
  {| correctedRefsByTimespan :=
       store_all Timespan_eq_dec (correctedRefsByTimespan st)
         (flat_map (fun g => corrected_pairs (sort_by_timespan g)) groups);
     info_messages :=
       set_add_all (info_messages st)
                   (select_level INFO (flat_map group_messages groups));
     warn_messages :=
       set_add_all (warn_messages st)
                   (select_level WARN (flat_map group_messages groups)) |}.

(** What is stored for a pair depends on that pair and on the next one. *)
Definition stored_for (a : Timespan * DatasetRef)
    (post : list (Timespan * DatasetRef)) : Timespan * DatasetRef :=
  match post with
  | [] => a
  | b :: _ => (adjust (fst a) (fst b), snd a)
  end.

(** [(r.dataId, r.datasetType.name)] *)
Definition group_key (r : DatasetRef) : GroupKey :=
  (dataId r, name (datasetType r)).

(** The pairs of [refsByTimespan] in the order the grouping loop meets
    them. *)
Definition pairs_in_order (d : defaultdict Timespan DatasetRef)
    : list (Timespan * DatasetRef) :=
  flat_map (fun t => map (pair t) (dd_get Timespan_eq_dec d t))
           (sorted timespan_leb (keys d)).

(** A validity range with [begin <= end]. *)
Definition well_formed (t : Timespan) : Prop := begin t <= end_ t.

(** Two validity ranges that do not overlap. *)
Definition disjoint (a b : Timespan) : Prop :=
  end_ a <= begin b \/ end_ b <= begin a.

(** [a] comes before [b]: when they are less than the threshold apart,
    [b] begins where [a] ends. *)
Definition contiguous_if_adjacent (a b : Timespan) : Prop :=
  0 <= begin b - end_ a < fuzzy_day -> begin b = end_ a.

(** The timespans of a group, in time order, are pairwise disjoint and,
    where two neighbours are adjacent, contiguous. *)
Definition already_corrected (g : list (Timespan * DatasetRef)) : Prop :=
  Forall well_formed (map fst (sort_by_timespan g)) /\
  ForallOrdPairs disjoint (map fst (sort_by_timespan g)) /\
  Sorted contiguous_if_adjacent (map fst (sort_by_timespan g)).

(** ** Vocabulary for further properties of the conversion *)

(** The columns [_queryGen2CalibRegistry] selects, and the query it
    sends for a table. *)
Definition query_fields (self : CalibRepoConverter) (datasetType : DatasetType)
    : list string :=
  ["validStart"%string; "validEnd"%string;
   if has_dimension "detector" datasetType
   then ccdKey self else ("NULL AS " ++ ccdKey self)%string;
   if has_dimension "physical_filter" datasetType
   then "filter"%string else "NULL AS filter"%string].

Definition query_text (self : CalibRepoConverter) (datasetType : DatasetType)
    (table : string) : string :=
  ("SELECT DISTINCT " ++ join ", " (query_fields self datasetType)
   ++ " FROM " ++ table ++ " WHERE calibDate = ?;")%string.

(** The Gen2 data ID [_finish] makes from a row. *)
Definition gen2id_of (datasetType : DatasetType) (row : Row) : Gen2Id :=
  {| gen2_ccd :=
       if has_dimension "detector" datasetType
       then Some (row_ccd row) else None;
     gen2_filter :=
       if has_dimension "physical_filter" datasetType
       then Some (row_filter row) else None |}.

(** The validity range [_finish] makes from a row: the registry's end date
    is inclusive. *)
Definition timespan_of (row : Row) : Timespan :=
  {| begin := validStart row; end_ := validEnd row + day |}.

(** A [(timespan, ref)] pair that comes from a row of the registry and a
    dataset that was found: the dataset belongs to a calibration dataset
    type and a calibDate of [datasets], the row is one the registry gave
    for that type's table and that calibDate, and the row's data ID,
    translated, is the data ID of the dataset. *)
Definition joined_from (self : CalibRepoConverter) (world : World)
    (datasets : list (DatasetType * list (option string * list FileDataset)))
    (pair : Timespan * DatasetRef) : Prop :=
  exists datasetType byCalibDate calibDate files dataset table more rows row,
    In (datasetType, byCalibDate) datasets /\
    isCalibration datasetType = true /\
    In (Some calibDate, files) byCalibDate /\
    In dataset files /\
    In (snd pair) (refs dataset) /\
    mapper_tables self (name datasetType) = Some (table :: more) /\
    db_execute world (query_text self datasetType table) calibDate = inr rows /\
    In row rows /\
    fst pair = timespan_of row /\
    dataId (snd pair) = translate self datasetType (gen2id_of datasetType row).

(** What [_finish] needs of a dataset type to get through it: nothing of a
    type that is not a calibration; of a calibration, for each of its
    entries, a calibDate, a table in the mapper, and no [band] dimension
    without [physical_filter]. *)
Definition convertible (self : CalibRepoConverter)
    (item : DatasetType * list (option string * list FileDataset)) : Prop :=
  isCalibration (fst item) = true ->
  forall entry, In entry (snd item) ->
    fst entry <> None /\
    no_tables (mapper_tables self (name (fst item))) = false /\
    (has_dimension "physical_filter" (fst item) = true
     \/ has_dimension "band" (fst item) = false).

Definition is_certify (ev : Event) : bool :=
  match ev with
  | Certify _ _ _ => true
  | _ => false
  end.

(** A computation that certifies nothing: it only adds events to the
    trace, none of them a [Certify]. *)
Definition quiet (A : Type) (c : M A) : Prop :=
  forall tr, exists evs,
    snd (c tr) = tr ++ evs /\ Forall (fun ev => is_certify ev = false) evs.

(** Two neighbouring validity ranges the correction has nothing to do
    with: they are exactly contiguous, or at least the threshold apart. *)
Definition settled (a b : Timespan) : Prop :=
  begin b = end_ a \/ fuzzy_day <= Z.abs (begin b - end_ a).

End Calib.

(* ================================================================== *)
(** * A small repository, to run the definitions on *)
(* ================================================================== *)

Module Sample.
Import Py Scanner Calib.

(** ** A scanner over an accumulator that lists the matched names *)

(** A handler for one constant name: rank 0. *)
Definition literal (for_files : bool) (text : string)
    : PathElementHandler (list string) unit :=
  {| isForFiles := for_files;
     rank := 0;
     call := fun _ name datasets _ =>
               if String.eqb name text then (true, datasets ++ [name])
               else (false, datasets) |}.

(** A handler that takes any name. *)
Definition wildcard (for_files : bool) (r : Z)
    : PathElementHandler (list string) unit :=
  {| isForFiles := for_files;
     rank := r;
     call := fun _ name datasets _ => (true, datasets ++ [name]) |}.

Definition handlers : list (PathElementHandler (list string) unit) :=
  [wildcard true 2; literal true "registry.sqlite3"; wildcard false 1].

(** ** A calibration repository *)

Definition flat : DatasetType :=
  {| name := "flat";
     dimensions := ["instrument"; "detector"; "physical_filter"]%string;
     isCalibration := true |}.

Definition bias : DatasetType :=
  {| name := "bias";
     dimensions := ["instrument"; "detector"]%string;
     isCalibration := true |}.

Definition raw : DatasetType :=
  {| name := "raw";
     dimensions := ["instrument"; "detector"; "exposure"]%string;
     isCalibration := false |}.

Definition detector1 (dims_filter : option string) : DataCoordinate :=
  {| instrument := "Cam"; detector := Some 1; physical_filter := dims_filter |}.

Definition flat_jan01 : DatasetRef :=
  {| dataId := detector1 (Some "r"%string); datasetType := flat;
     run := "Cam/calib/gen2/2020-01-01" |}.

Definition flat_jan03 : DatasetRef :=
  {| dataId := detector1 (Some "r"%string); datasetType := flat;
     run := "Cam/calib/gen2/2020-01-03" |}.

Definition flat_jan20 : DatasetRef :=
  {| dataId := detector1 (Some "r"%string); datasetType := flat;
     run := "Cam/calib/gen2/2020-01-20" |}.

Definition bias_feb01 : DatasetRef :=
  {| dataId := detector1 None; datasetType := bias;
     run := "Cam/calib/gen2/2020-02-01" |}.

Definition raw_1 : DatasetRef :=
  {| dataId := detector1 None; datasetType := raw; run := "Cam/raw/all" |}.

Definition datasets
    : list (DatasetType * list (option string * list FileDataset)) :=
  [(flat,
    [(Some "2020-01-01"%string,
      [{| refs := [flat_jan01]; path := "FLAT/2020-01-01/r/FLAT-01.fits" |}]);
     (Some "2020-01-03"%string,
      [{| refs := [flat_jan03]; path := "FLAT/2020-01-03/r/FLAT-01.fits" |}])]);
   (bias,
    [(Some "2020-02-01"%string,
      [{| refs := [bias_feb01]; path := "BIAS/2020-02-01/BIAS-01.fits" |}])]);
   (raw,
    [(None, [{| refs := [raw_1]; path := "raw/1.fits" |}])])].

(** Times count milliseconds from 2020-01-01T00:00:00 TAI. *)
Definition days (n : Z) : Time := n * day.

(** The registry: flats valid on 2020-01-01 only and from 2020-01-03 to
    2020-01-05 (a second detector was not ingested); no [bias] table. *)
Definition registry (query calibDate : string) : string + list Row :=
  if String.eqb calibDate "2020-01-01" then
    inr [{| validStart := days 0; validEnd := days 0;
            row_ccd := Some 1; row_filter := Some "r"%string |}]
  else if String.eqb calibDate "2020-01-03" then
    inr [{| validStart := days 2; validEnd := days 4;
            row_ccd := Some 1; row_filter := Some "r"%string |};
         {| validStart := days 2; validEnd := days 4;
            row_ccd := Some 2; row_filter := Some "r"%string |}]
  else inl "OperationalError('no such table: bias')"%string.

Definition world : World :=
  {| path_exists := fun p => String.eqb p "repo/calibRegistry.sqlite3";
     db_execute := registry |}.

Definition empty_root : World :=
  {| path_exists := fun _ => false; db_execute := registry |}.

Definition converter : CalibRepoConverter :=
  {| root := "repo";
     collection := "Cam/calib";
     ccdKey := "ccd";
     mapper_tables := fun n => Some [n];
     translate := fun _ gen2id =>
       {| instrument := "Cam";
          detector := match gen2_ccd gen2id with Some v => v | None => None end;
          physical_filter :=
            match gen2_filter gen2id with Some v => v | None => None end |} |}.

(** The same converter with a mapper that names no table. *)
Definition converter_without_tables : CalibRepoConverter :=
  {| root := "repo";
     collection := "Cam/calib";
     ccdKey := "ccd";
     mapper_tables := fun _ => None;
     translate := translate converter |}.

#[export] Instance formatting : Formatting :=
  {| time_str := fun t => NilZero.string_of_int (Z.to_int t);
     quantity_str := fun ms => (NilZero.string_of_int (Z.to_int (ms / 1000)) ++ " s")%string;
     dataId_str := fun id =>
       (instrument id ++ "/"
        ++ match detector id with
           | Some n => NilZero.string_of_int (Z.to_int n)
           | None => "-"
           end)%string |}.

(** Validity ranges of one data ID: a one-day gap, then a jump of weeks. *)
Definition jan01 : Timespan := {| begin := days 0; end_ := days 1 |}.
Definition jan03_05 : Timespan := {| begin := days 2; end_ := days 5 |}.
Definition jan20_25 : Timespan := {| begin := days 19; end_ := days 25 |}.

(** An overlap of half a day. *)
Definition jan01_03 : Timespan := {| begin := days 0; end_ := days 3 |}.
Definition jan03_noon : Timespan :=
  {| begin := days 2 + 43200000; end_ := days 6 |}.

(** A range an hour after [jan20_25]. *)
Definition jan26_1am : Timespan :=
  {| begin := days 25 + 3600000; end_ := days 30 |}.

(** A range that begins an hour after [jan03_05] ends. *)
Definition jan06_1am : Timespan :=
  {| begin := days 5 + 3600000; end_ := days 8 |}.

(** A range that begins an hour after [jan01] ends, and one that begins an
    hour after that one ends. *)
Definition jan02_1am : Timespan :=
  {| begin := days 1 + 3600000; end_ := days 3 |}.
Definition jan04_1am : Timespan :=
  {| begin := days 3 + 3600000; end_ := days 5 |}.

(** A range that begins an hour after [jan03_noon] ends. *)
Definition jan07_1am : Timespan :=
  {| begin := days 6 + 3600000; end_ := days 9 |}.

(** A registry that gives the flat of 2020-01-01 two validity ranges:
    that day, and 2020-01-31 to 2020-02-10. *)
Definition registry_two_rows (query calibDate : string) : string + list Row :=
  inr [{| validStart := days 0; validEnd := days 0;
          row_ccd := Some 1; row_filter := Some "r"%string |};
       {| validStart := days 30; validEnd := days 40;
          row_ccd := Some 1; row_filter := Some "r"%string |}].

Definition world_two_rows : World :=
  {| path_exists := fun p => String.eqb p "repo/calibRegistry.sqlite3";
     db_execute := registry_two_rows |}.

Definition flat_of_jan01
    : list (DatasetType * list (option string * list FileDataset)) :=
  [(flat,
    [(Some "2020-01-01"%string,
      [{| refs := [flat_jan01]; path := "FLAT/2020-01-01/r/FLAT-01.fits" |}])])].

Definition jan31_feb10 : Timespan := {| begin := days 30; end_ := days 41 |}.

(** What reading the registry leaves for [datasets]: the dictionary of
    joined pairs and the trace. *)
Definition joined : defaultdict Timespan DatasetRef :=
  [(jan01, [flat_jan01]); (jan03_05, [flat_jan03])].

Definition join_trace : list Event :=
  [Execute
     "SELECT DISTINCT validStart, validEnd, ccd, filter FROM flat WHERE calibDate = ?;"
     "2020-01-01";
   Execute
     "SELECT DISTINCT validStart, validEnd, ccd, filter FROM flat WHERE calibDate = ?;"
     "2020-01-03";
   Log DEBUG
     "Gen2 calibration registry entry has no dataset: flat for calibDate=2020-01-03, Cam/2.";
   Execute
     "SELECT DISTINCT validStart, validEnd, ccd, NULL AS filter FROM bias WHERE calibDate = ?;"
     "2020-02-01";
   Log WARN
     "Could not extract calibration ranges for bias in repo from table bias: OperationalError('no such table: bias')"].

(** Validity ranges that need no correction: contiguous, then far apart. *)
Definition corrected_ranges : defaultdict Timespan DatasetRef :=
  [({| begin := days 0; end_ := days 2 |}, [flat_jan01]);
   (jan03_05, [flat_jan03]);
   (jan20_25, [flat_jan20])].

End Sample.

(* ================================================================== *)
(** * Facts about the Python built-ins *)
(* ================================================================== *)

Section SortedFacts.
Import Py.
Variable A : Type.
Variable leb : A -> A -> bool.

Lemma insert_sorted_perm (x : A) (l : list A) :
  Permutation (insert_sorted leb x l) (x :: l).
Proof.
  induction l as [|y l IH]; simpl.
  - apply Permutation_refl.
  - destruct (leb x y).
    + apply Permutation_refl.
    + apply Permutation_trans with (y :: x :: l).
      * apply perm_skip, IH.
      * apply perm_swap.
Qed.

Lemma sorted_perm (l : list A) : Permutation (sorted leb l) l.
Proof.
  induction l as [|x l IH]; simpl.
  - apply perm_nil.
  - apply Permutation_trans with (x :: sorted leb l).
    + apply insert_sorted_perm.
    + apply perm_skip, IH.
Qed.

Lemma sorted_length (l : list A) : List.length (sorted leb l) = List.length l.
Proof. apply Permutation_length, sorted_perm. Qed.

Lemma sorted_nil_inv (l : list A) : sorted leb l = [] -> l = [].
Proof.
  intro H. apply Permutation_nil. rewrite <- H. apply sorted_perm.
Qed.

(** An arrangement that is already in order is left as it is. *)
Lemma sorted_of_Sorted (l : list A) :
  Sorted (fun a b => leb a b = true) l -> sorted leb l = l.
Proof.
  induction 1 as [|x l Hs IH Hd]; simpl.
  - reflexivity.
  - rewrite IH. destruct Hd as [|y l' Hxy]; simpl.
    + reflexivity.
    + now rewrite Hxy.
Qed.

Hypothesis leb_total : forall a b, leb a b = false -> leb b a = true.

Lemma insert_sorted_Sorted (x : A) (l : list A) :
  Sorted (fun a b => leb a b = true) l ->
  Sorted (fun a b => leb a b = true) (insert_sorted leb x l).
Proof.
  induction 1 as [|y l Hs IH Hd]; simpl.
  - repeat constructor.
  - destruct (leb x y) eqn:Hxy.
    + constructor; [constructor; assumption | constructor; assumption].
    + constructor; [exact IH|].
      destruct Hd as [|z l' Hyz]; simpl.
      * constructor. now apply leb_total.
      * destruct (leb x z); constructor; [now apply leb_total | assumption].
Qed.

Lemma sorted_Sorted (l : list A) :
  Sorted (fun a b => leb a b = true) (sorted leb l).
Proof.
  induction l as [|x l IH]; simpl.
  - constructor.
  - now apply insert_sorted_Sorted.
Qed.

End SortedFacts.

(** Two neighbours of an arrangement in order are in order. *)
Lemma Sorted_middle (A : Type) (R : A -> A -> Prop) (pre post : list A) (a b : A) :
  Sorted R (pre ++ a :: b :: post) -> R a b.
Proof.
  induction pre as [|x pre IH]; simpl; intro H.
  - apply Sorted_inv in H. destruct H as [_ Hd]. now inversion Hd.
  - apply Sorted_inv in H. now apply IH.
Qed.

Lemma StronglySorted_insert (A : Type) (R : A -> A -> Prop) (x : A) (l1 l2 : list A) :
  StronglySorted R (l1 ++ l2) ->
  Forall (fun u => R u x) l1 ->
  Forall (R x) l2 ->
  StronglySorted R (l1 ++ x :: l2).
Proof.
  induction l1 as [|y l1 IH]; simpl; intros Hs H1 H2.
  - now constructor.
  - apply StronglySorted_inv in Hs. destruct Hs as [Hs Hy].
    inversion H1; subst. constructor.
    + now apply IH.
    + apply Forall_app in Hy. destruct Hy as [Hy1 Hy2].
      apply Forall_app. split; [assumption|]. now constructor.
Qed.

Lemma StronglySorted_nth (A : Type) (R : A -> A -> Prop) (l : list A) :
  StronglySorted R l ->
  forall i j u v, (i < j)%nat ->
    nth_error l i = Some u -> nth_error l j = Some v -> R u v.
Proof.
  induction 1 as [|a l Hs IH Ha]; intros i j u v Hij Hi Hj.
  - destruct i; discriminate.
  - destruct j as [|j]; [lia|]. simpl in Hj.
    destruct i as [|i]; simpl in Hi.
    + inversion Hi; subst. rewrite Forall_forall in Ha.
      apply Ha. eapply nth_error_In; eassumption.
    + apply (IH i j); [lia | assumption | assumption].
Qed.

(** An injective key: equal keys inside a list mean equal elements. *)
Lemma NoDup_map_inj (A B : Type) (f : A -> B) (l : list A) (a b : A) :
  NoDup (map f l) -> In a l -> In b l -> f a = f b -> a = b.
Proof.
  induction l as [|x l IH]; simpl; intros Hnd Ha Hb Hf; [contradiction|].
  inversion Hnd as [|? ? Hnin Hnd']; subst.
  destruct Ha as [Ha|Ha], Hb as [Hb|Hb]; subst.
  - reflexivity.
  - exfalso. apply Hnin. rewrite Hf. now apply in_map.
  - exfalso. apply Hnin. rewrite <- Hf. now apply in_map.
  - now apply IH.
Qed.

(* ================================================================== *)
(** * The scanner: rank order and unrecognized entries *)
(* ================================================================== *)

Section ScannerFacts.
Import Scanner.
Variables Datasets Predicate : Type.

Local Abbreviation Handler := (PathElementHandler Datasets Predicate).

Lemma bisect_right_loop_spec (a : list Handler) (x : Handler) :
  StronglySorted rank_le a ->
  forall fuel lo hi,
    (lo <= hi)%nat -> (hi <= List.length a)%nat -> (hi - lo <= fuel)%nat ->
    (forall i u, (i < lo)%nat -> nth_error a i = Some u -> rank u <= rank x) ->
    (forall i u, (hi <= i)%nat -> nth_error a i = Some u -> rank x < rank u) ->
    let p := bisect_right_loop fuel a x lo hi in
    (p <= List.length a)%nat /\
    (forall i u, (i < p)%nat -> nth_error a i = Some u -> rank u <= rank x) /\
    (forall i u, (p <= i)%nat -> nth_error a i = Some u -> rank x < rank u).
Proof.
  intros Hs fuel.
  induction fuel as [|fuel IH]; intros lo hi Hlh Hhi Hfuel Hlo Hup;
    cbn [bisect_right_loop].
  - assert (lo = hi) by lia. subst hi.
    repeat split; [lia | exact Hlo | exact Hup].
  - destruct (lo <? hi)%nat eqn:Hlt.
    + apply Nat.ltb_lt in Hlt.
      assert (Hmid : (lo <= (lo + hi) / 2 < hi)%nat).
      { split.
        - apply Nat.div_le_lower_bound; lia.
        - apply Nat.Div0.div_lt_upper_bound; lia. }
      set (mid := ((lo + hi) / 2)%nat) in *.
      destruct (nth_error a mid) as [a_mid|] eqn:Hnth.
      * unfold handler_lt. destruct (rank x <? rank a_mid) eqn:Hcmp.
        -- apply Z.ltb_lt in Hcmp.
           apply IH; try lia; [exact Hlo|].
           intros i u Hi Hu.
           destruct (Nat.eq_dec i mid) as [->|Hne].
           ++ rewrite Hnth in Hu. inversion Hu; subst. exact Hcmp.
           ++ assert (rank a_mid <= rank u).
              { apply (StronglySorted_nth Hs (i := mid) (j := i));
                  [lia | assumption | assumption]. }
              lia.
        -- apply Z.ltb_ge in Hcmp.
           apply IH; try lia; [|exact Hup].
           intros i u Hi Hu.
           destruct (Nat.eq_dec i mid) as [->|Hne].
           ++ rewrite Hnth in Hu. inversion Hu; subst. exact Hcmp.
           ++ assert (rank u <= rank a_mid).
              { apply (StronglySorted_nth Hs (i := i) (j := mid));
                  [lia | assumption | assumption]. }
              lia.
      * exfalso. apply nth_error_None in Hnth. lia.
    + apply Nat.ltb_ge in Hlt. assert (lo = hi) by lia. subst hi.
      repeat split; [lia | exact Hlo | exact Hup].
Qed.

(** [bisect_right] finds the place after every handler whose rank is not
    greater than that of [x]. *)
Lemma bisect_right_spec (a : list Handler) (x : Handler) :
  StronglySorted rank_le a ->
  Forall (fun u => rank u <= rank x) (firstn (bisect_right a x) a) /\
  Forall (fun u => rank x < rank u) (skipn (bisect_right a x) a).
Proof.
  intro Hs. unfold bisect_right.
  assert (H0 : forall i u, (i < 0)%nat -> nth_error a i = Some u -> rank u <= rank x)
    by (intros i u Hi; lia).
  assert (Hn : forall i u, (List.length a <= i)%nat ->
                           nth_error a i = Some u -> rank x < rank u).
  { intros i u Hi Hu. exfalso.
    assert (Hne : nth_error a i <> None) by congruence.
    apply nth_error_Some in Hne. lia. }
  destruct (@bisect_right_loop_spec a x Hs (List.length a) 0%nat (List.length a)
              (Nat.le_0_l _) (Nat.le_refl _) (Nat.le_sub_l _ _) H0 Hn)
    as (Hp & Hlow & Hupp).
  set (p := bisect_right_loop (List.length a) a x 0 (List.length a)) in *.
    split; apply Forall_forall; intros u Hin;
      apply In_nth_error in Hin; destruct Hin as [i Hi].
    + rewrite nth_error_firstn in Hi.
      destruct (i <? p)%nat eqn:Hip; [|discriminate].
      apply Nat.ltb_lt in Hip. now apply (Hlow i).
    + rewrite nth_error_skipn in Hi. apply (Hupp (p + i)%nat); [lia | assumption].
Qed.

Lemma insort_perm (a : list Handler) (x : Handler) :
  Permutation (insort a x) (x :: a).
Proof.
  unfold insort.
  apply Permutation_sym, Permutation_trans
    with (x :: firstn (bisect_right a x) a ++ skipn (bisect_right a x) a).
  - now rewrite firstn_skipn.
  - apply Permutation_middle.
Qed.

Lemma insort_sorted (a : list Handler) (x : Handler) :
  StronglySorted rank_le a -> StronglySorted rank_le (insort a x).
Proof.
  intro Hs. destruct (bisect_right_spec x Hs) as [Hlow Hupp].
  unfold insort. apply StronglySorted_insert.
  - now rewrite firstn_skipn.
  - exact Hlow.
  - eapply Forall_impl; [|exact Hupp]. unfold rank_le. intros; lia.
Qed.

(** The invariant of a scanner built by [add]. *)
Lemma add_all_pools (hs : list Handler) (sc : DirectoryScanner Datasets Predicate) :
  StronglySorted rank_le (_files sc) ->
  StronglySorted rank_le (_subdirectories sc) ->
  let sc' := add_all sc hs in
  StronglySorted rank_le (_files sc') /\
  StronglySorted rank_le (_subdirectories sc') /\
  Permutation (_files sc')
              (_files sc ++ filter (fun h => isForFiles h) hs) /\
  Permutation (_subdirectories sc')
              (_subdirectories sc ++ filter (fun h => negb (isForFiles h)) hs).
Proof.
  revert sc. induction hs as [|h hs IH]; intros sc Hf Hd; simpl.
  - rewrite !app_nil_r. repeat split; auto.
  - unfold add_all in *. simpl.
    destruct (isForFiles h) eqn:Hk.
    + assert (Hadd : add sc h = {| _files := insort (_files sc) h;
                                   _subdirectories := _subdirectories sc |})
        by (unfold add; now rewrite Hk).
      rewrite Hadd.
      destruct (IH {| _files := insort (_files sc) h;
                      _subdirectories := _subdirectories sc |})
        as (H1 & H2 & H3 & H4); simpl; auto using insort_sorted.
      simpl in H3, H4. repeat split; auto.
      eapply Permutation_trans; [exact H3|].
      apply Permutation_trans
        with ((h :: _files sc) ++ filter (fun h => isForFiles h) hs).
      * apply Permutation_app_tail, insort_perm.
      * simpl. apply Permutation_middle.
    + assert (Hadd : add sc h = {| _files := _files sc;
                                   _subdirectories := insort (_subdirectories sc) h |})
        by (unfold add; now rewrite Hk).
      rewrite Hadd.
      destruct (IH {| _files := _files sc;
                      _subdirectories := insort (_subdirectories sc) h |})
        as (H1 & H2 & H3 & H4); simpl; auto using insort_sorted.
      simpl in H3, H4. repeat split; auto.
      eapply Permutation_trans; [exact H4|].
      apply Permutation_trans
        with ((h :: _subdirectories sc)
                ++ filter (fun h => negb (isForFiles h)) hs).
      * apply Permutation_app_tail, insort_perm.
      * simpl. apply Permutation_middle.
Qed.

Lemma rank_le_NoDup_lt (l : list Handler) :
  StronglySorted rank_le l -> NoDup (map (fun h => rank h) l) ->
  StronglySorted rank_lt l.
Proof.
  induction 1 as [|a l Hs IH Ha]; intro Hnd; constructor.
  - apply IH. now inversion Hnd.
  - inversion Hnd as [|? ? Hnin _]; subst.
    rewrite Forall_forall in *. intros u Hu.
    specialize (Ha u Hu). unfold rank_le, rank_lt in *.
    assert (rank a <> rank u).
    { intro Heq. apply Hnin. rewrite Heq.
      now apply (in_map (fun h => rank h)). }
    lia.
Qed.

Lemma NoDup_map_filter (A B : Type) (f : A -> B) (g : A -> bool) (l : list A) :
  NoDup (map f l) -> NoDup (map f (filter g l)).
Proof.
  induction l as [|x l IH]; simpl; intro Hnd; [constructor|].
  inversion Hnd as [|? ? Hnin Hnd']; subst.
  destruct (g x); simpl; [constructor|]; auto.
  intro Hin. apply Hnin. apply in_map_iff in Hin.
  destruct Hin as (y & Hy & Hin). apply filter_In in Hin.
  apply in_map_iff. exists y. tauto.
Qed.

(** A strictly rank-ordered arrangement of given handlers is unique. *)
Lemma rank_lt_unique (l1 l2 : list Handler) :
  StronglySorted rank_lt l1 -> StronglySorted rank_lt l2 ->
  Permutation l1 l2 -> l1 = l2.
Proof.
  intro H1. revert l2.
  induction H1 as [|a l1 Hs1 IH Ha]; intros l2 H2 Hp.
  - apply Permutation_nil in Hp. now subst.
  - destruct l2 as [|b l2].
    + apply Permutation_sym, Permutation_nil in Hp. discriminate.
    + apply StronglySorted_inv in H2. destruct H2 as [Hs2 Hb].
      rewrite Forall_forall in Ha, Hb.
      assert (Hab : a = b).
      { assert (Hina : In a (b :: l2))
          by (eapply Permutation_in; [exact Hp | now left]).
        assert (Hinb : In b (a :: l1))
          by (eapply Permutation_in;
              [apply Permutation_sym; exact Hp | now left]).
        destruct Hina as [->|Hina]; [reflexivity|].
        destruct Hinb as [->|Hinb]; [reflexivity|].
        specialize (Ha b Hinb). specialize (Hb a Hina).
        unfold rank_lt in *. lia. }
      subst b. f_equal. apply IH; [assumption|].
      eapply Permutation_cons_inv; exact Hp.
Qed.

(** The handler loop stops at the first handler that returns true. *)
Lemma try_handlers_spec (pool : list Handler) (e : DirEntry)
    (ds : Datasets) (p : Predicate) :
  (fst (fst (try_handlers pool e ds p)) = true /\
   exists pre h rest,
     pool = pre ++ h :: rest /\
     snd (try_handlers pool e ds p)
       = map (fun h' => (h', false)) pre ++ [(h, true)])
  \/ (fst (fst (try_handlers pool e ds p)) = false /\
      snd (try_handlers pool e ds p) = map (fun h' => (h', false)) pool).
Proof.
  revert ds. induction pool as [|h pool IH]; intro ds; simpl.
  - right. split; reflexivity.
  - destruct (call h (entry_path e) (entry_name e) ds p) as [m ds'] eqn:Hc.
    destruct m; simpl.
    + left. split; [reflexivity|]. exists [], h, pool. split; reflexivity.
    + specialize (IH ds').
      destruct (try_handlers pool e ds' p) as [[found ds''] att]. simpl in *.
      destruct IH as [(Hf & pre & h' & rest & Hpool & Hatt)
                     |(Hf & Hatt)].
      * left. split; [assumption|].
        exists (h :: pre), h', rest. subst. split; reflexivity.
      * right. subst. split; reflexivity.
Qed.

(** A handler of the pool that matches the entry whatever the accumulator
    holds ends the loop at itself or before. *)
Lemma try_handlers_reaches (pool : list Handler) (e : DirEntry)
    (ds : Datasets) (p : Predicate) (h0 : Handler) :
  In h0 pool ->
  (forall ds', fst (call h0 (entry_path e) (entry_name e) ds' p) = true) ->
  exists pre h rest,
    pool = pre ++ h :: rest /\
    snd (try_handlers pool e ds p)
      = map (fun h' => (h', false)) pre ++ [(h, true)] /\
    (h = h0 \/ In h0 rest).
Proof.
  intros Hin Hm. revert ds.
  induction pool as [|h pool IH]; intro ds; simpl; [contradiction|].
  destruct (call h (entry_path e) (entry_name e) ds p) as [m ds'] eqn:Hc.
  destruct m; simpl.
  - exists [], h, pool. repeat split. destruct Hin; auto.
  - destruct Hin as [->|Hin].
    + specialize (Hm ds). rewrite Hc in Hm. discriminate.
    + destruct (IH Hin ds') as (pre & h' & rest & Hpool & Hatt & Hh0).
      destruct (try_handlers pool e ds' p) as [[found ds''] att]. simpl in *.
      exists (h :: pre), h', rest. subst. repeat split. assumption.
Qed.

Lemma select_pool_None (sc : DirectoryScanner Datasets Predicate) (e : DirEntry) :
  select_pool sc e = None <-> file_or_dir e = false.
Proof.
  unfold select_pool, file_or_dir.
  destruct (is_file e), (is_dir e); simpl; split; intro H;
    try reflexivity; discriminate.
Qed.

Lemma forallb_all_false (pool : list Handler) :
  forallb (fun a : Attempt Datasets Predicate => negb (snd a))
          (map (fun h' => (h', false)) pool) = true.
Proof. induction pool; simpl; auto. Qed.

Lemma forallb_last_true (pre : list Handler) (h : Handler) :
  forallb (fun a : Attempt Datasets Predicate => negb (snd a))
          (map (fun h' => (h', false)) pre ++ [(h, true)]) = false.
Proof. induction pre; simpl; auto. Qed.

Lemma try_handlers_unmatched (pool : list Handler) (e : DirEntry)
    (ds : Datasets) (p : Predicate) :
  unmatched (e, snd (try_handlers pool e ds p))
  = negb (fst (fst (try_handlers pool e ds p))).
Proof.
  unfold unmatched. simpl.
  destruct (try_handlers_spec pool e ds p)
    as [(Hf & pre & h & rest & _ & Hatt) | (Hf & Hatt)];
    rewrite Hf, Hatt; simpl.
  - apply forallb_last_true.
  - apply forallb_all_false.
Qed.

Lemma scan_fold_spec (sc : DirectoryScanner Datasets Predicate) (p : Predicate)
    (entries : list DirEntry) (st0 : ScanState Datasets Predicate) :
  exists new,
    calls (fold_left (scan_entry sc p) entries st0) = calls st0 ++ new /\
    map fst new = filter file_or_dir entries /\
    unrecognized (fold_left (scan_entry sc p) entries st0)
      = unrecognized st0
        ++ map (fun c => entry_name (fst c)) (filter unmatched new) /\
    Forall (fun c => exists pool ds,
                select_pool sc (fst c) = Some pool /\
                snd c = snd (try_handlers pool (fst c) ds p)) new.
Proof.
  revert st0. induction entries as [|e entries IH]; intro st0; simpl.
  - exists []. simpl. rewrite !app_nil_r. repeat split. constructor.
  - unfold scan_entry at 2 4.
    destruct (select_pool sc e) as [pool|] eqn:Hsel.
    + assert (Hfd : file_or_dir e = true).
      { destruct (file_or_dir e) eqn:H; [reflexivity|].
        apply select_pool_None with (sc := sc) in H. congruence. }
      rewrite Hfd.
      pose proof (try_handlers_unmatched pool e (datasets_of st0) p) as Hum.
      destruct (try_handlers pool e (datasets_of st0) p)
        as [[found ds'] att] eqn:Htry.
      simpl in Hum.
      match goal with
      | |- context [fold_left _ entries ?s] => destruct (IH s) as (new & H1 & H2 & H3 & H4)
      end.
      simpl in H1, H3.
      exists ((e, att) :: new). repeat split.
      * rewrite H1, <- app_assoc. reflexivity.
      * simpl. now rewrite H2.
      * rewrite H3. simpl. rewrite Hum.
        destruct found; simpl; [reflexivity|].
        now rewrite <- app_assoc.
      * constructor; [|exact H4]. exists pool, (datasets_of st0).
        simpl. rewrite Htry. split; [assumption | reflexivity].
    + apply select_pool_None in Hsel. rewrite Hsel. apply IH.
Qed.

Lemma scan_skips (sc : DirectoryScanner Datasets Predicate) (p : Predicate)
    (entries : list DirEntry) (st0 : ScanState Datasets Predicate) :
  fold_left (scan_entry sc p) (filter file_or_dir entries) st0
  = fold_left (scan_entry sc p) entries st0.
Proof.
  revert st0. induction entries as [|e entries IH]; intro st0; simpl.
  - reflexivity.
  - destruct (file_or_dir e) eqn:Hfd; simpl.
    + apply IH.
    + rewrite IH. f_equal. unfold scan_entry.
      apply (select_pool_None sc) in Hfd. now rewrite Hfd.
Qed.

(** Every recorded invocation list is that of the handler loop run on the
    entry's pool. *)
Lemma scan_calls_spec (sc : DirectoryScanner Datasets Predicate)
    (path : string) (entries : list DirEntry) (ds : Datasets) (p : Predicate)
    (e : DirEntry) (att : list (Attempt Datasets Predicate)) :
  In (e, att) (calls (fst (scan sc path entries ds p))) ->
  exists pool ds',
    select_pool sc e = Some pool /\
    att = snd (try_handlers pool e ds' p).
Proof.
  unfold scan. simpl. intro Hin.
  destruct (scan_fold_spec sc p entries
              {| datasets_of := ds; unrecognized := []; calls := [] |})
    as (new & Hcalls & _ & _ & Hall).
  simpl in Hcalls. rewrite Hcalls in Hin.
  rewrite Forall_forall in Hall. apply (Hall _ Hin).
Qed.


Lemma scanner_eq (s1 s2 : DirectoryScanner Datasets Predicate) :
  _files s1 = _files s2 -> _subdirectories s1 = _subdirectories s2 -> s1 = s2.
Proof. destruct s1, s2; simpl; intros; subst; reflexivity. Qed.

(** The pools of a scanner built from handlers of pairwise distinct ranks. *)
Lemma add_all_strict (hs : list Handler) :
  NoDup (map (fun h => rank h) hs) ->
  let sc := add_all (new_scanner Datasets Predicate) hs in
  StronglySorted rank_lt (_files sc) /\
  StronglySorted rank_lt (_subdirectories sc) /\
  Permutation (_files sc) (filter (fun h => isForFiles h) hs) /\
  Permutation (_subdirectories sc) (filter (fun h => negb (isForFiles h)) hs).
Proof.
  intros Hnd sc.
  assert (Hnil : StronglySorted rank_le (@nil Handler)) by constructor.
  destruct (@add_all_pools hs (new_scanner Datasets Predicate) Hnil Hnil)
    as (H1 & H2 & H3 & H4).
  fold sc in H1, H2, H3, H4. simpl in H3, H4.
  split; [|split; [|split; assumption]].
  - apply rank_le_NoDup_lt; [assumption|].
    eapply Permutation_NoDup;
      [apply Permutation_map, Permutation_sym; exact H3|].
    now apply NoDup_map_filter.
  - apply rank_le_NoDup_lt; [assumption|].
    eapply Permutation_NoDup;
      [apply Permutation_map, Permutation_sym; exact H4|].
    now apply NoDup_map_filter.
Qed.

Lemma select_pool_cases (sc : DirectoryScanner Datasets Predicate)
    (e : DirEntry) (pool : list Handler) :
  select_pool sc e = Some pool ->
  pool = _files sc \/ pool = _subdirectories sc.
Proof.
  unfold select_pool. destruct (is_file e); [|destruct (is_dir e)];
    intro H; inversion H; auto.
Qed.

Lemma StronglySorted_app_l (A : Type) (R : A -> A -> Prop) (l1 l2 : list A) :
  StronglySorted R (l1 ++ l2) -> StronglySorted R l1.
Proof.
  induction l1 as [|x l1 IH]; simpl; intro H; [constructor|].
  apply StronglySorted_inv in H. destruct H as [Hs Hx].
  constructor; [now apply IH|].
  apply Forall_app in Hx. tauto.
Qed.

(** What the handler loop records is what the handlers returned, each
    invoked on the accumulator its predecessor left. *)
Lemma try_handlers_invoked (pool : list Handler) (e : DirEntry)
    (ds : Datasets) (p : Predicate) :
  invoked_in_turn (snd (try_handlers pool e ds p)) e p ds
                  (snd (fst (try_handlers pool e ds p))).
Proof.
  revert ds. induction pool as [|h pool IH]; intro ds; [reflexivity|].
  cbn [try_handlers].
  destruct (call h (entry_path e) (entry_name e) ds p) as [m ds'] eqn:Hc.
  destruct m.
  - cbn [snd fst invoked_in_turn]. rewrite Hc. split; reflexivity.
  - specialize (IH ds').
    destruct (try_handlers pool e ds' p) as [[found ds''] att].
    cbn [snd fst invoked_in_turn] in *. rewrite Hc.
    split; [reflexivity | exact IH].
Qed.

(** Every file or directory of the listing gets its record, at the place
    its position among the files and directories gives it. *)
Lemma scan_entry_record (sc : DirectoryScanner Datasets Predicate)
    (p : Predicate) (before : list DirEntry) (e : DirEntry)
    (after : list DirEntry) (st0 : ScanState Datasets Predicate) :
  file_or_dir e = true ->
  exists att,
    nth_error (calls (fold_left (scan_entry sc p) (before ++ e :: after) st0))
              (List.length (calls st0)
               + List.length (filter file_or_dir before))
      = Some (e, att) /\
    invoked_in_turn att e p
      (datasets_of (fold_left (scan_entry sc p) before st0))
      (datasets_of (fold_left (scan_entry sc p) (before ++ [e]) st0)).
Proof.
  intro Hfd. rewrite !fold_left_app. cbn [fold_left].
  set (sb := fold_left (scan_entry sc p) before st0).
  destruct (select_pool sc e) as [pool|] eqn:Hsel;
    [|apply select_pool_None in Hsel; congruence].
  destruct (scan_fold_spec sc p before st0) as (newb & Hcb & Hfb & _ & _).
  fold sb in Hcb.
  pose proof (try_handlers_invoked pool e (datasets_of sb) p) as Hinv.
  assert (Hstep : exists found : bool,
            scan_entry sc p sb e
            = {| datasets_of :=
                   snd (fst (try_handlers pool e (datasets_of sb) p));
                 unrecognized :=
                   if found then unrecognized sb
                   else unrecognized sb ++ [entry_name e];
                 calls :=
                   calls sb
                   ++ [(e, snd (try_handlers pool e (datasets_of sb) p))] |}).
  { unfold scan_entry. rewrite Hsel.
    destruct (try_handlers pool e (datasets_of sb) p) as [[found ds'] att].
    exists found. reflexivity. }
  destruct Hstep as [found Hstep]. rewrite Hstep.
  exists (snd (try_handlers pool e (datasets_of sb) p)). split.
  - match goal with
    | |- context [fold_left _ after ?s1] =>
        destruct (scan_fold_spec sc p after s1) as (new & Hc & _)
    end.
    rewrite Hc. cbn [calls]. rewrite Hcb.
    rewrite <- Hfb, length_map, <- length_app, <- app_assoc.
    rewrite nth_error_app2 by lia. rewrite Nat.sub_diag. reflexivity.
  - cbn [datasets_of]. exact Hinv.
Qed.


End ScannerFacts.

(* ================================================================== *)
(** * Facts about dictionaries and sets *)
(* ================================================================== *)

Section DictFacts.
Import Py Calib.
Variables K V : Type.
Variable K_eq_dec : forall a b : K, {a = b} + {a <> b}.

Lemma dd_append_keys (d : defaultdict K V) (k : K) (v : V) :
  keys (dd_append K_eq_dec d k v)
  = if in_dec K_eq_dec k (keys d) then keys d else keys d ++ [k].
Proof.
  induction d as [|[k' vs] d IH]; simpl.
  - reflexivity.
  - destruct (K_eq_dec k k') as [Heq|Hne]; [subst k'|]; simpl.
    + destruct (K_eq_dec k k); [reflexivity | congruence].
    + destruct (K_eq_dec k' k) as [Heq|Hne']; [congruence|].
      unfold keys in *. rewrite IH.
      destruct (in_dec K_eq_dec k (map fst d)); reflexivity.
Qed.

Lemma dd_append_NoDup (d : defaultdict K V) (k : K) (v : V) :
  NoDup (keys d) -> NoDup (keys (dd_append K_eq_dec d k v)).
Proof.
  intro Hnd. rewrite dd_append_keys.
  destruct (in_dec K_eq_dec k (keys d)) as [Hin|Hnin]; [assumption|].
  apply NoDup_app; [assumption | repeat constructor; intros [] |].
  intros x Hx [<-|[]]. contradiction.
Qed.

Lemma dd_append_pairs (d : defaultdict K V) (k : K) (v : V) :
  Permutation (dd_pairs (dd_append K_eq_dec d k v)) (dd_pairs d ++ [(k, v)]).
Proof.
  induction d as [|[k' vs] d IH]; unfold dd_pairs in *; simpl.
  - apply Permutation_refl.
  - destruct (K_eq_dec k k') as [Heq|Hne]; [subst k'|]; simpl.
    + rewrite map_app. simpl. rewrite <- !app_assoc.
      apply Permutation_app_head. simpl.
      apply Permutation_cons_append.
    + rewrite <- app_assoc. apply Permutation_app_head, IH.
Qed.

Lemma dd_append_nonempty (d : defaultdict K V) (k : K) (v : V) :
  Forall (fun vs => vs <> []) (values d) ->
  Forall (fun vs => vs <> []) (values (dd_append K_eq_dec d k v)).
Proof.
  induction d as [|[k' vs] d IH]; simpl; intro H.
  - repeat constructor. discriminate.
  - inversion H; subst. destruct (K_eq_dec k k'); simpl.
    + constructor; [|assumption]. destruct vs; discriminate.
    + constructor; [assumption | now apply IH].
Qed.

(** With one binding per key, looking a key up gives its bucket. *)
Lemma dd_get_bucket (d : defaultdict K V) (k : K) (vs : list V) :
  NoDup (keys d) -> In (k, vs) d -> dd_get K_eq_dec d k = vs.
Proof.
  unfold dd_get. induction d as [|[k' vs'] d IH]; simpl; intros Hnd Hin.
  - contradiction.
  - inversion Hnd as [|? ? Hnin Hnd']; subst.
    destruct Hin as [Heq|Hin].
    + inversion Heq; subst. destruct (K_eq_dec k k); [reflexivity | congruence].
    + destruct (K_eq_dec k k') as [Heq|_]; [subst k'|now apply IH].
      exfalso. apply Hnin. apply (in_map fst) in Hin. exact Hin.
Qed.

Lemma dd_pairs_by_key (d : defaultdict K V) :
  NoDup (keys d) ->
  dd_pairs d = flat_map (fun k => map (pair k) (dd_get K_eq_dec d k)) (keys d).
Proof.
  intro Hnd. unfold dd_pairs, keys. rewrite flat_map_concat_map.
  rewrite (flat_map_concat_map _ (map fst d)), map_map. f_equal.
  apply map_ext_in. intros [k vs] Hin. simpl.
  now rewrite (@dd_get_bucket d k vs Hnd Hin).
Qed.

Lemma dd_pairs_values (d : defaultdict K V) :
  map snd (dd_pairs d) = List.concat (values d).
Proof.
  unfold dd_pairs, values. induction d as [|[k vs] d IH]; simpl.
  - reflexivity.
  - rewrite map_app, IH, map_map. simpl. now rewrite map_id.
Qed.

Lemma store_all_app (d : defaultdict K V) (l1 l2 : list (K * V)) :
  store_all K_eq_dec d (l1 ++ l2) = store_all K_eq_dec (store_all K_eq_dec d l1) l2.
Proof. unfold store_all. apply fold_left_app. Qed.

Lemma store_all_NoDup (pairs : list (K * V)) (d : defaultdict K V) :
  NoDup (keys d) -> NoDup (keys (store_all K_eq_dec d pairs)).
Proof.
  revert d. induction pairs as [|p pairs IH]; simpl; intros d Hnd.
  - assumption.
  - apply IH. now apply dd_append_NoDup.
Qed.

Lemma store_all_pairs (pairs : list (K * V)) (d : defaultdict K V) :
  Permutation (dd_pairs (store_all K_eq_dec d pairs)) (dd_pairs d ++ pairs).
Proof.
  revert d. induction pairs as [|[k v] pairs IH]; simpl; intro d.
  - rewrite app_nil_r. apply Permutation_refl.
  - eapply Permutation_trans; [apply IH|]. simpl.
    eapply Permutation_trans;
      [apply Permutation_app_tail, dd_append_pairs|].
    rewrite <- app_assoc. apply Permutation_refl.
Qed.

Lemma store_all_nonempty (pairs : list (K * V)) (d : defaultdict K V) :
  Forall (fun vs => vs <> []) (values d) ->
  Forall (fun vs => vs <> []) (values (store_all K_eq_dec d pairs)).
Proof.
  revert d. induction pairs as [|p pairs IH]; simpl; intros d H.
  - assumption.
  - apply IH. now apply dd_append_nonempty.
Qed.

End DictFacts.

Section SetFacts.
Import Py.

Lemma set_add_In (s : list string) (x y : string) :
  In y (set_add s x) <-> y = x \/ In y s.
Proof.
  induction s as [|z s IH]; simpl.
  - intuition.
  - destruct (string_dec x z) as [->|Hne]; simpl; intuition.
Qed.

Lemma set_add_NoDup (s : list string) (x : string) :
  NoDup s -> NoDup (set_add s x).
Proof.
  induction s as [|z s IH]; simpl; intro Hnd.
  - repeat constructor. intros [].
  - destruct (string_dec x z) as [->|Hne]; [assumption|].
    inversion Hnd; subst. constructor; [|now apply IH].
    rewrite set_add_In. intros [Heq|Hin]; [congruence | contradiction].
Qed.

Lemma set_add_all_In (msgs s : list string) (y : string) :
  In y (set_add_all s msgs) <-> In y s \/ In y msgs.
Proof.
  revert s. induction msgs as [|m msgs IH]; simpl; intro s.
  - intuition.
  - unfold set_add_all in *. simpl. rewrite IH, set_add_In. intuition.
Qed.

Lemma set_add_all_NoDup (msgs s : list string) :
  NoDup s -> NoDup (set_add_all s msgs).
Proof.
  revert s. induction msgs as [|m msgs IH]; simpl; intros s Hnd.
  - assumption.
  - apply IH. now apply set_add_NoDup.
Qed.

Lemma set_add_all_app (s l1 l2 : list string) :
  set_add_all s (l1 ++ l2) = set_add_all (set_add_all s l1) l2.
Proof. unfold set_add_all. apply fold_left_app. Qed.

End SetFacts.

(* ================================================================== *)
(** * The correction loop *)
(* ================================================================== *)

Section CorrectionFacts.
Import Py Calib.
Context {fmt : Formatting}.

Local Abbreviation Pair := (Timespan * DatasetRef)%type.

Lemma select_level_app (lvl : Level) (l1 l2 : list (Level * string)) :
  select_level lvl (l1 ++ l2) = select_level lvl l1 ++ select_level lvl l2.
Proof. unfold select_level. now rewrite filter_app, map_app. Qed.

Lemma select_level_In (lvl : Level) (msgs : list (Level * string)) (m : string) :
  In m (select_level lvl msgs) <-> In (lvl, m) msgs.
Proof.
  unfold select_level. rewrite in_map_iff. split.
  - intros ([l m'] & Heq & Hin). simpl in Heq. subst m'.
    apply filter_In in Hin. destruct Hin as [Hin Hl]. simpl in Hl.
    destruct l, lvl; try discriminate; exact Hin.
  - intro Hin. exists (lvl, m). split; [reflexivity|].
    apply filter_In. split; [assumption|]. destruct lvl; reflexivity.
Qed.

(** One iteration stores [timespan_prev], adjusted against the current
    timespan, with [ref_prev], records at most one message, and hands the
    current pair on as it is. *)
Lemma correct_iteration_eq (st : Correction) (prev cur : Pair) :
  correct_iteration st prev cur
  = ({| correctedRefsByTimespan :=
          dd_append Timespan_eq_dec (correctedRefsByTimespan st)
                    (adjust (fst prev) (fst cur)) (snd prev);
        info_messages :=
          set_add_all (info_messages st)
            (select_level INFO (messages_from (fst prev) [fst cur]));
        warn_messages :=
          set_add_all (warn_messages st)
            (select_level WARN (messages_from (fst prev) [fst cur])) |},
     cur).
Proof.
  destruct prev as [tp rp], cur as [t r].
  unfold correct_iteration, adjust. simpl.
  destruct (Z.abs (begin t - end_ tp) <? fuzzy_day); [|reflexivity].
  destruct (begin t - end_ tp >? 0); reflexivity.
Qed.

Lemma correct_loop_eq (rest : list Pair) (st : Correction) (prev : Pair) :
  dd_append Timespan_eq_dec
    (correctedRefsByTimespan (fst (correct_loop st prev rest)))
    (fst (snd (correct_loop st prev rest)))
    (snd (snd (correct_loop st prev rest)))
  = store_all Timespan_eq_dec (correctedRefsByTimespan st)
              (corrected_from prev rest)
  /\ info_messages (fst (correct_loop st prev rest))
     = set_add_all (info_messages st)
         (select_level INFO (messages_from (fst prev) (map fst rest)))
  /\ warn_messages (fst (correct_loop st prev rest))
     = set_add_all (warn_messages st)
         (select_level WARN (messages_from (fst prev) (map fst rest))).
Proof.
  revert st prev. induction rest as [|cur rest IH]; intros st prev.
  - simpl. repeat split.
  - cbn [correct_loop]. rewrite correct_iteration_eq.
    destruct (IH {| correctedRefsByTimespan :=
                      dd_append Timespan_eq_dec (correctedRefsByTimespan st)
                                (adjust (fst prev) (fst cur)) (snd prev);
                    info_messages :=
                      set_add_all (info_messages st)
                        (select_level INFO (messages_from (fst prev) [fst cur]));
                    warn_messages :=
                      set_add_all (warn_messages st)
                        (select_level WARN (messages_from (fst prev) [fst cur])) |}
                 cur) as (H1 & H2 & H3).
    cbn [correctedRefsByTimespan info_messages warn_messages] in H1, H2, H3.
    split; [|split].
    + rewrite H1. reflexivity.
    + rewrite H2, <- set_add_all_app, <- select_level_app. do 2 f_equal.
      cbn [messages_from map]. now rewrite app_nil_r.
    + rewrite H3, <- set_add_all_app, <- select_level_app. do 2 f_equal.
      cbn [messages_from map]. now rewrite app_nil_r.
Qed.

(** A group that holds a pair is corrected without an exception. *)
Lemma correct_group_eq (st : Correction) (timespans : list Pair) :
  timespans <> [] ->
  correct_group st timespans = Ok (after_group st timespans).
Proof.
  intro Hne. unfold correct_group, after_group, group_messages.
  destruct (sort_by_timespan timespans) as [|first rest] eqn:Hs.
  - exfalso. apply Hne. unfold sort_by_timespan in Hs.
    now apply sorted_nil_inv in Hs.
  - destruct (correct_loop_eq rest st first) as (H1 & H2 & H3).
    destruct (correct_loop st first rest) as [st' last]. simpl in *.
    now rewrite H1, H2, H3.
Qed.

Lemma correct_groups_eq (groups : list (list Pair)) (st : Correction) :
  Forall (fun g => g <> []) groups ->
  correct_groups st groups = Ok (after_groups st groups).
Proof.
  revert st. induction groups as [|g groups IH]; intros st Hne.
  - destruct st; reflexivity.
  - inversion Hne; subst. cbn [correct_groups].
    rewrite correct_group_eq by assumption. rewrite IH by assumption.
    unfold after_groups, after_group. simpl.
    now rewrite !store_all_app, !select_level_app, !set_add_all_app.
Qed.

(** ** The stored pairs, position by position *)

Lemma corrected_from_length (rest : list Pair) (prev : Pair) :
  List.length (corrected_from prev rest) = S (List.length rest).
Proof.
  revert prev. induction rest as [|cur rest IH]; intro prev; simpl.
  - reflexivity.
  - now rewrite IH.
Qed.

(** No pair is dropped or repeated, and no [begin] is ever changed. *)
Lemma corrected_from_begin (rest : list Pair) (prev : Pair) :
  map (fun p => (begin (fst p), snd p)) (corrected_from prev rest)
  = map (fun p => (begin (fst p), snd p)) (prev :: rest).
Proof.
  revert prev. induction rest as [|cur rest IH]; intro prev.
  - reflexivity.
  - cbn [corrected_from map]. rewrite IH. cbn [map]. f_equal.
    unfold adjust. cbn [fst snd].
    now destruct (Z.abs (begin (fst cur) - end_ (fst prev)) <? fuzzy_day).
Qed.

Lemma corrected_pairs_begin (l : list Pair) :
  map (fun p => (begin (fst p), snd p)) (corrected_pairs l)
  = map (fun p => (begin (fst p), snd p)) l.
Proof. destruct l as [|first rest]; [reflexivity | apply corrected_from_begin]. Qed.

Lemma corrected_from_nth (pre : list Pair) (prev a : Pair) (post : list Pair) :
  nth_error (corrected_from prev (pre ++ a :: post)) (S (List.length pre))
  = Some (stored_for a post).
Proof.
  revert prev. induction pre as [|x pre IH]; intro prev.
  - simpl. destruct post; reflexivity.
  - cbn [app corrected_from List.length nth_error]. apply IH.
Qed.

Lemma corrected_pairs_nth (pre : list Pair) (a : Pair) (post : list Pair) :
  nth_error (corrected_pairs (pre ++ a :: post)) (List.length pre)
  = Some (stored_for a post).
Proof.
  destruct pre as [|first pre].
  - simpl. destruct post; reflexivity.
  - simpl. apply corrected_from_nth.
Qed.

Lemma corrected_pairs_length (l : list Pair) :
  List.length (corrected_pairs l) = List.length l.
Proof. destruct l; [reflexivity | apply corrected_from_length]. Qed.

Lemma stored_for_begin (a : Pair) (post : list Pair) :
  begin (fst (stored_for a post)) = begin (fst a) /\
  snd (stored_for a post) = snd a.
Proof.
  destruct post as [|b post]; simpl; [split; reflexivity|].
  unfold adjust.
  destruct (Z.abs (begin (fst b) - end_ (fst a)) <? fuzzy_day); split; reflexivity.
Qed.

(** The pair stored for [b]: its record and begin are kept; its end is kept
    when nothing follows or what follows begins at least the threshold
    away from it, and becomes the begin of what follows otherwise. *)
Lemma stored_for_later (tb : Timespan) (rb : DatasetRef) (post : list Pair) :
  exists e,
    stored_for (tb, rb) post = ({| begin := begin tb; end_ := e |}, rb) /\
    (post = [] -> e = end_ tb) /\
    (forall c post', post = c :: post' ->
       fuzzy_day <= Z.abs (begin (fst c) - end_ tb) -> e = end_ tb) /\
    (forall c post', post = c :: post' ->
       Z.abs (begin (fst c) - end_ tb) < fuzzy_day -> e = begin (fst c)).
Proof.
  destruct post as [|c post]; cbn [stored_for fst snd].
  - exists (end_ tb). destruct tb. repeat split; try discriminate.
  - unfold adjust.
    destruct (Z.abs (begin (fst c) - end_ tb) <? fuzzy_day) eqn:Hc.
    + exists (begin (fst c)). apply Z.ltb_lt in Hc.
      repeat split; try discriminate;
        intros c' post' Heq Hcond; inversion Heq; subst; try reflexivity; lia.
    + exists (end_ tb). apply Z.ltb_ge in Hc. destruct tb.
      repeat split; try discriminate;
        intros c' post' Heq Hcond; inversion Heq; subst; try reflexivity;
        simpl in *; lia.
Qed.

Lemma corrected_pairs_nth_next (pre : list Pair) (a b : Pair) (post : list Pair) :
  nth_error (corrected_pairs (pre ++ a :: b :: post)) (S (List.length pre))
  = Some (stored_for b post).
Proof.
  replace (pre ++ a :: b :: post) with ((pre ++ [a]) ++ b :: post)
    by (rewrite <- app_assoc; reflexivity).
  replace (S (List.length pre)) with (List.length (pre ++ [a]))
    by (rewrite length_app; simpl; lia).
  apply corrected_pairs_nth.
Qed.

(** ** The order [sorted] arranges the pairs of a group in *)

Lemma timespan_leb_total (a b : Timespan) :
  timespan_leb a b = false -> timespan_leb b a = true.
Proof.
  unfold timespan_leb, timespan_lt. intro H.
  apply negb_false_iff in H. apply negb_true_iff.
  apply orb_true_iff in H. apply orb_false_iff.
  destruct H as [H|H].
  - apply Z.ltb_lt in H. split.
    + apply Z.ltb_ge. lia.
    + apply andb_false_iff. left. apply Z.eqb_neq. lia.
  - apply andb_true_iff in H. destruct H as [H1 H2].
    apply Z.eqb_eq in H1. apply Z.ltb_lt in H2. split.
    + apply Z.ltb_ge. lia.
    + apply andb_false_iff. right. apply Z.ltb_ge. lia.
Qed.

Lemma timespan_leb_le (a b : Timespan) :
  timespan_leb a b = true ->
  begin a < begin b \/ (begin a = begin b /\ end_ a <= end_ b).
Proof.
  unfold timespan_leb, timespan_lt. intro H.
  apply negb_true_iff, orb_false_iff in H. destruct H as [H1 H2].
  apply Z.ltb_ge in H1. apply andb_false_iff in H2.
  destruct H2 as [H2|H2].
  - apply Z.eqb_neq in H2. lia.
  - apply Z.ltb_ge in H2. lia.
Qed.

Lemma sort_by_timespan_Sorted (g : list Pair) :
  Sorted (fun a b => timespan_leb (fst a) (fst b) = true) (sort_by_timespan g).
Proof.
  unfold sort_by_timespan. apply sorted_Sorted.
  intros a b. apply timespan_leb_total.
Qed.

(** Neighbours in a sorted group: the earlier one does not begin later. *)
Lemma sort_by_timespan_neighbours (g pre post : list Pair) (a b : Pair) :
  sort_by_timespan g = pre ++ a :: b :: post ->
  begin (fst a) < begin (fst b)
  \/ (begin (fst a) = begin (fst b) /\ end_ (fst a) <= end_ (fst b)).
Proof.
  intro Hs. apply timespan_leb_le.
  pose proof (sort_by_timespan_Sorted g) as H. rewrite Hs in H.
  apply (@Sorted_middle _ _ pre post a b H).
Qed.

(** ** Messages of neighbouring pairs *)

Lemma messages_from_neighbours (pre : list Timespan) (prev a b : Timespan)
    (post : list Timespan) (m : Level * string) :
  In m (messages_from a [b]) ->
  In m (messages_from prev (pre ++ a :: b :: post)).
Proof.
  revert prev. induction pre as [|x pre IH]; intros prev Hin.
  - cbn [app messages_from] in *. rewrite app_nil_r in Hin.
    apply in_or_app. right. apply in_or_app. now left.
  - cbn [app messages_from]. apply in_or_app. right. now apply IH.
Qed.

Lemma group_messages_neighbours (g pre post : list Pair) (a b : Pair)
    (m : Level * string) :
  sort_by_timespan g = pre ++ a :: b :: post ->
  In m (messages_from (fst a) [fst b]) ->
  In m (group_messages g).
Proof.
  intros Hs Hin. unfold group_messages. rewrite Hs.
  rewrite map_app. cbn [map].
  destruct pre as [|x pre]; cbn [map app].
  - cbn [messages_from] in *. rewrite app_nil_r in Hin.
    apply in_or_app. now left.
  - now apply messages_from_neighbours.
Qed.

Lemma sorted_group_nonempty (g pre post : list Pair) (a : Pair) :
  sort_by_timespan g = pre ++ a :: post -> g <> [].
Proof.
  intros Hs ->. unfold sort_by_timespan in Hs. simpl in Hs.
  destruct pre; discriminate.
Qed.

(** ** Validity ranges with [begin <= end] *)

Lemma corrected_from_well_formed (rest : list Pair) (prev : Pair) :
  Sorted (fun a b => timespan_leb (fst a) (fst b) = true) (prev :: rest) ->
  Forall well_formed (map fst (prev :: rest)) ->
  Forall well_formed (map fst (corrected_from prev rest)).
Proof.
  revert prev. induction rest as [|cur rest IH]; intros prev Hs Hwf.
  - exact Hwf.
  - cbn [corrected_from map]. apply Sorted_inv in Hs. destruct Hs as [Hs Hd].
    inversion Hwf as [|? ? Hp Hrest]; subst. constructor.
    + cbn [fst]. unfold adjust.
      destruct (Z.abs (begin (fst cur) - end_ (fst prev)) <? fuzzy_day);
        [|exact Hp].
      unfold well_formed. simpl. inversion Hd as [|? ? Hle]; subst.
      apply timespan_leb_le in Hle. lia.
    + apply IH; assumption.
Qed.

Lemma corrected_pairs_well_formed (g : list Pair) :
  Forall well_formed (map fst g) ->
  Forall well_formed (map fst (corrected_pairs (sort_by_timespan g))).
Proof.
  intro Hwf.
  assert (Hwf' : Forall well_formed (map fst (sort_by_timespan g))).
  { rewrite Forall_forall in *. intros t Ht. apply Hwf.
    eapply Permutation_in; [|exact Ht].
    apply Permutation_map. unfold sort_by_timespan. apply sorted_perm. }
  pose proof (sort_by_timespan_Sorted g) as Hs.
  destruct (sort_by_timespan g) as [|first rest]; [constructor|].
  now apply corrected_from_well_formed.
Qed.

(** ** Gaps, overlaps and large discontinuities *)

(** C2 (amended).  A group whose sorted arrangement holds [t0, t1)
    immediately followed by [t1 + delta, t2), with 0 < delta < 1.001 days.
    The iteration for this pair stores [t0, t1 + delta) with the first
    record, adds the gap message to the informational set and hands
    [t1 + delta, t2) on unchanged.  In what the group stores, the earlier
    pair is [t0, t1 + delta), its end exactly the later begin; the later
    pair keeps its record and its begin, and it keeps its end t2 too when
    nothing follows it or what follows begins at least 1.001 days away
    from t2; otherwise its end becomes the begin of what follows.  A group
    made of just these two stores exactly [t0, t1 + delta) and
    [t1 + delta, t2). *)
Theorem gap_closure (st : Correction) (g pre post : list Pair)
    (ra rb : DatasetRef) (t0 t1 delta t2 : Z) :
  let A := {| begin := t0; end_ := t1 |} in
  let B := {| begin := t1 + delta; end_ := t2 |} in
  let A' := {| begin := t0; end_ := t1 + delta |} in
  sort_by_timespan g = pre ++ (A, ra) :: (B, rb) :: post ->
  0 < delta -> delta < fuzzy_day ->
  correct_iteration st (A, ra) (B, rb)
    = ({| correctedRefsByTimespan :=
            dd_append Timespan_eq_dec (correctedRefsByTimespan st) A' ra;
          info_messages := set_add (info_messages st) (gap_message A B);
          warn_messages := warn_messages st |},
       (B, rb)) /\
  correct_group st g = Ok (after_group st g) /\
  In (gap_message A B) (info_messages (after_group st g)) /\
  nth_error (corrected_pairs (sort_by_timespan g)) (List.length pre)
    = Some (A', ra) /\
  (exists e,
     nth_error (corrected_pairs (sort_by_timespan g)) (S (List.length pre))
       = Some ({| begin := t1 + delta; end_ := e |}, rb) /\
     (post = [] -> e = t2) /\
     (forall c post', post = c :: post' ->
        fuzzy_day <= Z.abs (begin (fst c) - t2) -> e = t2) /\
     (forall c post', post = c :: post' ->
        Z.abs (begin (fst c) - t2) < fuzzy_day -> e = begin (fst c))) /\
  (pre = [] -> post = [] ->
   corrected_pairs (sort_by_timespan g) = [(A', ra); (B, rb)]).
Proof.
  intros A B A' Hs Hpos Hfuzz.
  assert (Hdelta : begin B - end_ A = delta) by (simpl; lia).
  assert (Hnear : (Z.abs delta <? fuzzy_day) = true) by (apply Z.ltb_lt; lia).
  assert (Hgap : (delta >? 0) = true) by (apply Z.gtb_lt; lia).
  assert (Hadj : adjust A B = A') by (unfold adjust; rewrite Hdelta, Hnear; reflexivity).
  assert (Hmsg : messages_from A [B] = [(INFO, gap_message A B)]).
  { cbn [messages_from]. rewrite Hdelta, Hnear, Hgap. reflexivity. }
  split; [|split; [|split; [|split; [|split]]]].
  - rewrite correct_iteration_eq. cbn [fst snd]. rewrite Hadj, Hmsg. reflexivity.
  - apply correct_group_eq. eapply sorted_group_nonempty; exact Hs.
  - unfold after_group. cbn [info_messages].
    apply set_add_all_In. right. apply select_level_In.
    eapply group_messages_neighbours; [exact Hs|].
    cbn [fst]. rewrite Hmsg. now left.
  - rewrite Hs, corrected_pairs_nth. cbn [stored_for fst snd]. now rewrite Hadj.
  - rewrite Hs, corrected_pairs_nth_next.
    destruct (stored_for_later B rb post) as (e & Hst & Hcases).
    exists e. rewrite Hst. split; [reflexivity | exact Hcases].
  - intros -> ->. rewrite Hs. simpl. now rewrite Hadj.
Qed.

(** C3 (amended).  A group whose sorted arrangement holds [t0, t2)
    immediately followed by [t1, t3), with t1 < t2 and t2 - t1 < 1.001
    days.  The iteration for this pair stores [t0, t1) with the first
    record, adds the overlap message to the warning set and hands [t1, t3)
    on untouched.  In what the group stores, the earlier pair is [t0, t1),
    and t0 <= t1; the later pair keeps its record and its begin, and it
    keeps its end t3 too when nothing follows it or what follows begins at
    least 1.001 days away from t3; otherwise its end becomes the begin of
    what follows.  A group made of just these two stores exactly [t0, t1)
    and [t1, t3).  When every timespan of the group has [begin <= end], so
    has every timespan the group stores. *)
Theorem overlap_trimming (st : Correction) (g pre post : list Pair)
    (ra rb : DatasetRef) (t0 t1 t2 t3 : Z) :
  let A := {| begin := t0; end_ := t2 |} in
  let B := {| begin := t1; end_ := t3 |} in
  let A' := {| begin := t0; end_ := t1 |} in
  sort_by_timespan g = pre ++ (A, ra) :: (B, rb) :: post ->
  t1 < t2 -> t2 - t1 < fuzzy_day ->
  correct_iteration st (A, ra) (B, rb)
    = ({| correctedRefsByTimespan :=
            dd_append Timespan_eq_dec (correctedRefsByTimespan st) A' ra;
          info_messages := info_messages st;
          warn_messages :=
            set_add (warn_messages st) (overlap_message (t1 - t2) A B) |},
       (B, rb)) /\
  correct_group st g = Ok (after_group st g) /\
  In (overlap_message (t1 - t2) A B) (warn_messages (after_group st g)) /\
  nth_error (corrected_pairs (sort_by_timespan g)) (List.length pre)
    = Some (A', ra) /\
  t0 <= t1 /\
  (exists e,
     nth_error (corrected_pairs (sort_by_timespan g)) (S (List.length pre))
       = Some ({| begin := t1; end_ := e |}, rb) /\
     (post = [] -> e = t3) /\
     (forall c post', post = c :: post' ->
        fuzzy_day <= Z.abs (begin (fst c) - t3) -> e = t3) /\
     (forall c post', post = c :: post' ->
        Z.abs (begin (fst c) - t3) < fuzzy_day -> e = begin (fst c))) /\
  (pre = [] -> post = [] ->
   corrected_pairs (sort_by_timespan g) = [(A', ra); (B, rb)]) /\
  (Forall well_formed (map fst g) ->
   Forall well_formed (map fst (corrected_pairs (sort_by_timespan g)))).
Proof.
  intros A B A' Hs Hlt Hfuzz.
  assert (Hdelta : begin B - end_ A = t1 - t2) by reflexivity.
  assert (Hnear : (Z.abs (t1 - t2) <? fuzzy_day) = true) by (apply Z.ltb_lt; lia).
  assert (Hgap : (t1 - t2 >? 0) = false) by (rewrite Z.gtb_ltb; apply Z.ltb_ge; lia).
  assert (Hadj : adjust A B = A') by (unfold adjust; rewrite Hdelta, Hnear; reflexivity).
  assert (Hmsg : messages_from A [B] = [(WARN, overlap_message (t1 - t2) A B)]).
  { cbn [messages_from]. rewrite Hdelta, Hnear, Hgap. reflexivity. }
  split; [|split; [|split; [|split; [|split; [|split; [|split]]]]]].
  - rewrite correct_iteration_eq. cbn [fst snd]. rewrite Hadj, Hmsg. reflexivity.
  - apply correct_group_eq. eapply sorted_group_nonempty; exact Hs.
  - unfold after_group. cbn [warn_messages].
    apply set_add_all_In. right. apply select_level_In.
    eapply group_messages_neighbours; [exact Hs|].
    cbn [fst]. rewrite Hmsg. now left.
  - rewrite Hs, corrected_pairs_nth. cbn [stored_for fst snd]. now rewrite Hadj.
  - pose proof (@sort_by_timespan_neighbours g pre post _ _ Hs) as Hord.
    simpl in Hord. lia.
  - rewrite Hs, corrected_pairs_nth_next.
    destruct (stored_for_later B rb post) as (e & Hst & Hcases).
    exists e. rewrite Hst. split; [reflexivity | exact Hcases].
  - intros -> ->. rewrite Hs. simpl. now rewrite Hadj.
  - apply corrected_pairs_well_formed.
Qed.

(** C4 (amended).  A group whose sorted arrangement holds [a] immediately
    followed by [b], with |b.begin - a.end| at least 1.001 days.  The
    iteration for this pair stores [a] as it is, records no message and
    hands [b] on as it is.  In what the group stores, [a] appears exactly
    as it came in; [b] keeps its record and its begin, and it keeps its end
    too when nothing follows it or when what follows it is again at least
    1.001 days away from its end; otherwise its end becomes the begin of
    what follows.  A group made of just these two is stored unchanged. *)
Theorem large_discontinuity (st : Correction) (g pre post : list Pair)
    (a b : Pair) :
  sort_by_timespan g = pre ++ a :: b :: post ->
  fuzzy_day <= Z.abs (begin (fst b) - end_ (fst a)) ->
  correct_iteration st a b
    = ({| correctedRefsByTimespan :=
            dd_append Timespan_eq_dec (correctedRefsByTimespan st)
                      (fst a) (snd a);
          info_messages := info_messages st;
          warn_messages := warn_messages st |},
       b) /\
  correct_group st g = Ok (after_group st g) /\
  nth_error (corrected_pairs (sort_by_timespan g)) (List.length pre) = Some a /\
  (exists e,
     nth_error (corrected_pairs (sort_by_timespan g)) (S (List.length pre))
       = Some ({| begin := begin (fst b); end_ := e |}, snd b) /\
     (post = [] -> e = end_ (fst b)) /\
     (forall c post', post = c :: post' ->
        fuzzy_day <= Z.abs (begin (fst c) - end_ (fst b)) -> e = end_ (fst b)) /\
     (forall c post', post = c :: post' ->
        Z.abs (begin (fst c) - end_ (fst b)) < fuzzy_day -> e = begin (fst c))) /\
  (pre = [] -> post = [] -> corrected_pairs (sort_by_timespan g) = [a; b]).
Proof.
  intros Hs Hfar.
  assert (Hnear : (Z.abs (begin (fst b) - end_ (fst a)) <? fuzzy_day) = false)
    by (apply Z.ltb_ge; exact Hfar).
  assert (Hadj : adjust (fst a) (fst b) = fst a)
    by (unfold adjust; now rewrite Hnear).
  assert (Hmsg : messages_from (fst a) [fst b] = []).
  { cbn [messages_from]. now rewrite Hnear. }
  split; [|split; [|split; [|split]]].
  - rewrite correct_iteration_eq, Hadj, Hmsg. reflexivity.
  - apply correct_group_eq. eapply sorted_group_nonempty; exact Hs.
  - rewrite Hs, corrected_pairs_nth. cbn [stored_for]. rewrite Hadj.
    now destruct a.
  - rewrite Hs, corrected_pairs_nth_next. destruct b as [tb rb].
    destruct (stored_for_later tb rb post) as (e & Hst & Hcases).
    exists e. rewrite Hst. split; [reflexivity | exact Hcases].
  - intros -> ->. rewrite Hs. simpl. rewrite Hadj. now destruct a.
Qed.

(** ** Grouping by data ID *)

Lemma group_fold_refs (t : Timespan) (rs : list DatasetRef)
    (acc : defaultdict GroupKey Pair) :
  fold_left (fun acc r => dd_append GroupKey_eq_dec acc
                            (dataId r, name (datasetType r)) (t, r)) rs acc
  = store_all GroupKey_eq_dec acc
      (map (fun p => (group_key (snd p), p)) (map (pair t) rs)).
Proof.
  revert acc. induction rs as [|r rs IH]; intro acc; simpl.
  - reflexivity.
  - apply IH.
Qed.

Lemma group_timespans_eq (d : defaultdict Timespan DatasetRef) :
  group_timespans d
  = store_all GroupKey_eq_dec []
      (map (fun p => (group_key (snd p), p)) (pairs_in_order d)).
Proof.
  unfold group_timespans, pairs_in_order.
  generalize (@nil (GroupKey * list Pair)).
  induction (sorted timespan_leb (keys d)) as [|t ts IH]; intro acc; simpl.
  - reflexivity.
  - rewrite map_app, store_all_app, <- group_fold_refs. apply IH.
Qed.

Lemma group_timespans_nonempty (d : defaultdict Timespan DatasetRef) :
  Forall (fun g => g <> []) (values (group_timespans d)).
Proof. rewrite group_timespans_eq. apply store_all_nonempty. constructor. Qed.

Lemma pairs_in_order_perm (d : defaultdict Timespan DatasetRef) :
  NoDup (keys d) -> Permutation (pairs_in_order d) (dd_pairs d).
Proof.
  intro Hnd. rewrite (@dd_pairs_by_key _ _ Timespan_eq_dec d Hnd).
  unfold pairs_in_order. apply Permutation_flat_map, sorted_perm.
Qed.

(** Grouping loses no pair and repeats none. *)
Lemma group_timespans_perm (d : defaultdict Timespan DatasetRef) :
  NoDup (keys d) ->
  Permutation (List.concat (values (group_timespans d))) (dd_pairs d).
Proof.
  intro Hnd. rewrite <- dd_pairs_values, group_timespans_eq.
  eapply Permutation_trans;
    [apply Permutation_map, store_all_pairs|].
  simpl. rewrite map_map. simpl. rewrite map_id.
  now apply pairs_in_order_perm.
Qed.

(** ** Validity ranges that need no correction *)

Lemma adjust_fixed (a b : Timespan) :
  timespan_leb a b = true ->
  well_formed a -> well_formed b -> disjoint a b ->
  contiguous_if_adjacent a b ->
  adjust a b = a.
Proof.
  unfold well_formed, disjoint, contiguous_if_adjacent, adjust.
  intros Hle Ha Hb Hdis Hcont. apply timespan_leb_le in Hle.
  destruct (Z.abs (begin b - end_ a) <? fuzzy_day) eqn:Hnear; [|reflexivity].
  apply Z.ltb_lt in Hnear.
  assert (begin b = end_ a) by lia.
  destruct a as [ba ea]. simpl in *. now subst.
Qed.

Lemma corrected_from_fixed (rest : list Pair) (prev : Pair) :
  Sorted (fun a b => timespan_leb (fst a) (fst b) = true) (prev :: rest) ->
  Forall well_formed (map fst (prev :: rest)) ->
  ForallOrdPairs disjoint (map fst (prev :: rest)) ->
  Sorted contiguous_if_adjacent (map fst (prev :: rest)) ->
  corrected_from prev rest = prev :: rest.
Proof.
  revert prev. induction rest as [|cur rest IH]; intros prev Hs Hwf Hdis Hcont.
  - reflexivity.
  - cbn [corrected_from].
    apply Sorted_inv in Hs. destruct Hs as [Hs Hd].
    cbn [map] in Hwf, Hdis, Hcont.
    inversion Hwf as [|? ? Hp Hwf']; subst.
    inversion Hdis as [|? ? Hpd Hdis']; subst.
    apply Sorted_inv in Hcont. destruct Hcont as [Hcont Hc].
    rewrite IH by assumption. f_equal.
    rewrite adjust_fixed; [now destruct prev | | | | |].
    + now inversion Hd.
    + exact Hp.
    + now inversion Hwf'.
    + now inversion Hpd.
    + now inversion Hc.
Qed.

Lemma already_corrected_fixed (g : list Pair) :
  already_corrected g ->
  corrected_pairs (sort_by_timespan g) = sort_by_timespan g.
Proof.
  intros (Hwf & Hdis & Hcont).
  pose proof (sort_by_timespan_Sorted g) as Hs.
  destruct (sort_by_timespan g) as [|first rest]; [reflexivity|].
  now apply corrected_from_fixed.
Qed.

(** C5.  Validity ranges that are already corrected: in every group the
    timespans are pairwise disjoint and neighbours less than 1.001 days
    apart are exactly contiguous.  Then correcting a group stores its pairs
    as they are, in time order, and the corrected dictionary holds exactly
    the [(timespan, ref)] pairs of the dictionary that came in: the
    correction yields the identical interval set. *)
Theorem correction_idempotent (d : defaultdict Timespan DatasetRef) :
  NoDup (keys d) ->
  (forall g, In g (values (group_timespans d)) -> already_corrected g) ->
  (forall g, In g (values (group_timespans d)) ->
     corrected_pairs (sort_by_timespan g) = sort_by_timespan g /\
     Permutation (corrected_pairs (sort_by_timespan g)) g) /\
  exists st,
    correct_groups no_correction (values (group_timespans d)) = Ok st /\
    Permutation (dd_pairs (correctedRefsByTimespan st)) (dd_pairs d).
Proof.
  intros Hnd Hall. split.
  - intros g Hg. rewrite already_corrected_fixed by now apply Hall.
    split; [reflexivity|]. unfold sort_by_timespan. apply sorted_perm.
  - exists (after_groups no_correction (values (group_timespans d))).
    split; [apply correct_groups_eq, group_timespans_nonempty|].
    unfold after_groups. cbn [correctedRefsByTimespan no_correction].
    eapply Permutation_trans; [apply store_all_pairs|]. simpl.
    eapply Permutation_trans; [|apply group_timespans_perm; exact Hnd].
    revert Hall. generalize (values (group_timespans d)).
    intros groups Hall. induction groups as [|g groups IH]; simpl.
    + apply perm_nil.
    + apply Permutation_app.
      * rewrite already_corrected_fixed by (apply Hall; now left).
        unfold sort_by_timespan. apply sorted_perm.
      * apply IH. intros g' Hg'. apply Hall. now right.
Qed.

End CorrectionFacts.

(* ================================================================== *)
(** * [_finish]: trace, commit and report *)
(* ================================================================== *)

Section FinishFacts.
Import Py Calib.
Context {fmt : Formatting}.
Variable self : CalibRepoConverter.
Variable world : World.

Local Abbreviation Pair := (Timespan * DatasetRef)%type.

Lemma bind_Ok_inv (A B : Type) (c : M A) (k : A -> M B) (tr tr' : list Event)
    (b : B) :
  bind c k tr = (Ok b, tr') ->
  exists a tr1, c tr = (Ok a, tr1) /\ k a tr1 = (Ok b, tr').
Proof.
  unfold bind. destruct (c tr) as [[a|e] tr1]; intro H.
  - now exists a, tr1.
  - discriminate.
Qed.

Lemma for_each_emit (A : Type) (f : A -> Event) (xs : list A)
    (tr : list Event) :
  for_each (fun _ x => emit (f x)) xs tt tr = (Ok tt, tr ++ map f xs).
Proof.
  revert tr. induction xs as [|x xs IH]; intro tr; simpl.
  - unfold ret. now rewrite app_nil_r.
  - unfold bind, emit. rewrite IH, <- app_assoc. reflexivity.
Qed.

(** A property of the accumulator that every iteration keeps is kept by
    the loop. *)
Lemma for_each_invariant (A S : Type) (P : S -> Prop) (body : S -> A -> M S)
    (xs : list A) :
  (forall s x tr s' tr', P s -> body s x tr = (Ok s', tr') -> P s') ->
  forall s tr s' tr',
    P s -> for_each body xs s tr = (Ok s', tr') -> P s'.
Proof.
  intro Hbody. induction xs as [|x xs IH]; intros s tr s' tr' Hs Hrun.
  - simpl in Hrun. unfold ret in Hrun. inversion Hrun; subst. exact Hs.
  - simpl in Hrun. apply bind_Ok_inv in Hrun.
    destruct Hrun as (s1 & tr1 & H1 & H2).
    eapply IH; [|exact H2]. eapply Hbody; eassumption.
Qed.

(** Once the validity ranges are read, [_finish] cannot fail: it corrects
    every group, then logs, then certifies. *)
Lemma finish_timespans_eq (d : defaultdict Timespan DatasetRef)
    (tr : list Event) :
  finish_timespans self d tr
  = (Ok tt,
     tr
     ++ map (Log INFO)
            (sorted String.leb
               (info_messages
                  (after_groups no_correction (values (group_timespans d)))))
     ++ map (Log WARN)
            (sorted String.leb
               (warn_messages
                  (after_groups no_correction (values (group_timespans d)))))
     ++ map (certify_event self)
            (correctedRefsByTimespan
               (after_groups no_correction (values (group_timespans d))))).
Proof.
  unfold finish_timespans.
  rewrite correct_groups_eq by apply group_timespans_nonempty.
  unfold bind at 1, lift. unfold report, certify_all.
  unfold bind.
  rewrite (for_each_emit (Log INFO)), (for_each_emit (Log WARN)).
  change (fun (_ : unit) (item : Timespan * list DatasetRef) =>
            emit (Certify (collection self) (snd item) (fst item)))
    with (fun (_ : unit) (item : Timespan * list DatasetRef) =>
            emit (certify_event self item)).
  rewrite (for_each_emit (certify_event self)).
  now rewrite <- !app_assoc.
Qed.

(** The dictionary filled while reading the registry has one binding per
    timespan. *)
Lemma join_NoDup
    (datasets : list (DatasetType * list (option string * list FileDataset)))
    (tr tr' : list Event) (d : defaultdict Timespan DatasetRef) :
  for_each (join_datasetType self world) datasets [] tr = (Ok d, tr') ->
  NoDup (keys d).
Proof.
  intro Hrun.
  refine (@for_each_invariant _ _ (fun d => NoDup (keys d)) _ _ _ _ _ _ _ _ Hrun);
    [|constructor].
  clear. intros d [datasetType byDate] tr d' tr' Hd.
  unfold join_datasetType. cbn [fst snd].
  destruct (negb (isCalibration datasetType)).
  - unfold ret. intro H. inversion H; subst. exact Hd.
  - intro Hrun.
    refine (@for_each_invariant _ _ (fun d => NoDup (keys d)) _ _ _ _ _ _ _ Hd Hrun).
    clear. intros d [calibDate files] tr d' tr' Hd.
    unfold join_calibDate. cbn [fst snd].
    destruct calibDate as [calibDate|]; [|discriminate].
    intro H. apply bind_Ok_inv in H. destruct H as (rows & tr1 & _ & Hrun).
    refine (@for_each_invariant _ _ (fun d => NoDup (keys d)) _ _ _ _ _ _ _ Hd Hrun).
    clear. intros d row tr d' tr' Hd. unfold join_row.
    match goal with
    | |- context [get DataCoordinate_eq_dec ?m ?k] =>
        destruct (get DataCoordinate_eq_dec m k) as [ref|]
    end.
    + unfold ret. intro H. inversion H; subst. now apply dd_append_NoDup.
    + unfold bind, emit, ret. intro H. inversion H; subst. exact Hd.
Qed.

(** No pair is lost or repeated by the correction, and no [begin] moves. *)
Lemma corrected_groups_begin (groups : list (list Pair)) :
  Permutation
    (map (fun p => (begin (fst p), snd p))
         (flat_map (fun g => corrected_pairs (sort_by_timespan g)) groups))
    (map (fun p => (begin (fst p), snd p)) (List.concat groups)).
Proof.
  induction groups as [|g groups IH]; simpl.
  - apply perm_nil.
  - rewrite !map_app. apply Permutation_app; [|exact IH].
    rewrite corrected_pairs_begin. apply Permutation_map.
    unfold sort_by_timespan. apply sorted_perm.
Qed.

Lemma sorted_strings (s : list string) :
  Sorted (fun a b => String.leb a b = true) (sorted String.leb s).
Proof.
  apply sorted_Sorted. intros a b Hab.
  destruct (String.leb_total a b) as [H|H]; [congruence | exact H].
Qed.

(** C6 (amended).  When the registry file is there and reading it ends
    with the dictionary [d] of joined [(timespan, ref)] pairs, one for each
    registry row matched to a record, [_finish] returns normally; after the
    messages it makes one [certify] call per key of the corrected
    dictionary, the keys are pairwise distinct, and the pairs of the
    corrected dictionary are those of [d], one for one, each with its
    record and its begin: every joined pair is stored once and certified
    once.  A record is thus certified as many times as it was joined: once
    when it matched one row, several times when the registry gives it
    several validity ranges. *)
Theorem commit_complete
    (datasets : list (DatasetType * list (option string * list FileDataset)))
    (tr tr1 : list Event) (d : defaultdict Timespan DatasetRef) :
  path_exists world (path_join (root self) "calibRegistry.sqlite3") = true ->
  for_each (join_datasetType self world) datasets [] tr = (Ok d, tr1) ->
  exists corrected infos warns,
    correct_groups no_correction (values (group_timespans d))
      = Ok {| correctedRefsByTimespan := corrected;
              info_messages := infos; warn_messages := warns |} /\
    _finish self world datasets tr
      = (Ok tt,
         tr1 ++ map (Log INFO) (sorted String.leb infos)
             ++ map (Log WARN) (sorted String.leb warns)
             ++ map (certify_event self) corrected) /\
    NoDup (keys corrected) /\
    Permutation (map (fun p => (begin (fst p), snd p)) (dd_pairs corrected))
                (map (fun p => (begin (fst p), snd p)) (dd_pairs d)) /\
    Permutation (List.concat (values corrected)) (map snd (dd_pairs d)).
Proof.
  intros Hexists Hjoin.
  pose proof (join_NoDup _ _ Hjoin) as Hnd.
  set (st := after_groups no_correction (values (group_timespans d))).
  exists (correctedRefsByTimespan st), (info_messages st), (warn_messages st).
  assert (Hperm :
    Permutation (map (fun p => (begin (fst p), snd p))
                     (dd_pairs (correctedRefsByTimespan st)))
                (map (fun p => (begin (fst p), snd p)) (dd_pairs d))).
  { unfold st, after_groups. cbn [correctedRefsByTimespan no_correction].
    eapply Permutation_trans;
      [apply Permutation_map, store_all_pairs|]. simpl.
    eapply Permutation_trans; [apply corrected_groups_begin|].
    apply Permutation_map. now apply group_timespans_perm. }
  split; [|split; [|split; [|split]]].
  - rewrite correct_groups_eq by apply group_timespans_nonempty.
    reflexivity.
  - unfold _finish. rewrite Hexists. cbn [negb].
    unfold bind at 1. rewrite Hjoin. apply finish_timespans_eq.
  - unfold st, after_groups. cbn [correctedRefsByTimespan no_correction].
    apply store_all_NoDup. constructor.
  - exact Hperm.
  - rewrite <- dd_pairs_values.
    apply (Permutation_map snd) in Hperm. rewrite !map_map in Hperm.
    exact Hperm.
Qed.

(** C9.  Whatever validity ranges were read, the messages of the
    correction are logged after all groups are corrected and before the
    first [certify]: first the informational ones, then the warnings, each
    list in lexicographic order and without repetition.  A text is logged
    at a level exactly when some group gives rise to it at that level, and
    then it is logged once, however many groups give rise to it. *)
Theorem messages_deduplicated (d : defaultdict Timespan DatasetRef)
    (tr : list Event) :
  exists infos warns corrected,
    finish_timespans self d tr
      = (Ok tt,
         tr ++ map (Log INFO) infos ++ map (Log WARN) warns
            ++ map (certify_event self) corrected) /\
    Sorted (fun a b => String.leb a b = true) infos /\
    Sorted (fun a b => String.leb a b = true) warns /\
    NoDup infos /\ NoDup warns /\
    (forall m,
       (exists g, In g (values (group_timespans d)) /\
                  In (INFO, m) (group_messages g))
       <-> count_occ string_dec infos m = 1%nat) /\
    (forall m,
       (exists g, In g (values (group_timespans d)) /\
                  In (WARN, m) (group_messages g))
       <-> count_occ string_dec warns m = 1%nat).
Proof.
  set (st := after_groups no_correction (values (group_timespans d))).
  exists (sorted String.leb (info_messages st)),
         (sorted String.leb (warn_messages st)),
         (correctedRefsByTimespan st).
  assert (Hin : forall lvl m,
            In m (set_add_all [] (select_level lvl
                    (flat_map group_messages (values (group_timespans d)))))
            <-> exists g, In g (values (group_timespans d)) /\
                          In (lvl, m) (group_messages g)).
  { intros lvl m. rewrite set_add_all_In, select_level_In, in_flat_map.
    simpl. tauto. }
  assert (Hnd : forall lvl,
            NoDup (sorted String.leb (set_add_all [] (select_level lvl
                    (flat_map group_messages (values (group_timespans d))))))).
  { intro lvl. eapply Permutation_NoDup;
      [apply Permutation_sym, sorted_perm|].
    apply set_add_all_NoDup. constructor. }
  assert (Hcount : forall lvl m,
            (exists g, In g (values (group_timespans d)) /\
                       In (lvl, m) (group_messages g))
            <-> count_occ string_dec
                  (sorted String.leb (set_add_all [] (select_level lvl
                     (flat_map group_messages (values (group_timespans d))))))
                  m = 1%nat).
  { intros lvl m. rewrite <- Hin. split.
    - intro H. apply NoDup_count_occ'; [apply Hnd|].
      eapply Permutation_in; [apply Permutation_sym, sorted_perm | exact H].
    - intro H. eapply Permutation_in; [apply (sorted_perm String.leb)|].
      apply (count_occ_In string_dec). rewrite H. lia. }
  split; [apply finish_timespans_eq|].
  split; [apply sorted_strings|].
  split; [apply sorted_strings|].
  split; [apply (Hnd INFO)|].
  split; [apply (Hnd WARN)|].
  split; [apply (Hcount INFO) | apply (Hcount WARN)].
Qed.

(** C7.  Without [calibRegistry.sqlite3] under the repository root
    [_finish] raises [RuntimeError] at once: the trace is the one it was
    given, so no query was executed and nothing was certified. *)
Theorem missing_registry_aborts
    (datasets : list (DatasetType * list (option string * list FileDataset)))
    (tr : list Event) :
  path_exists world (path_join (root self) "calibRegistry.sqlite3") = false ->
  _finish self world datasets tr
    = (Raise (RuntimeError
                ("Attempting to convert calibrations but no registry database"
                 ++ " found in " ++ root self)%string),
       tr) /\
  (forall ev, In ev (snd (_finish self world datasets tr)) -> In ev tr).
Proof.
  intro Hmissing.
  assert (Hrun : _finish self world datasets tr
                 = (Raise (RuntimeError
                      ("Attempting to convert calibrations but no registry database"
                       ++ " found in " ++ root self)%string), tr)).
  { unfold _finish. rewrite Hmissing. reflexivity. }
  split; [exact Hrun|].
  intros ev Hev. rewrite Hrun in Hev. exact Hev.
Qed.

(** The building of the field list before the tables are looked at. *)
Lemma query_fields_ok (datasetType : DatasetType) :
  has_dimension "physical_filter" datasetType = true
  \/ has_dimension "band" datasetType = false ->
  exists fields,
    forall (k : list string -> M (list Row)) tr,
      bind (if has_dimension "physical_filter" datasetType
            then ret (([ "validStart"; "validEnd" ]%string
                       ++ [if has_dimension "detector" datasetType
                           then ccdKey self
                           else ("NULL AS " ++ ccdKey self)%string])
                      ++ ["filter"%string])
            else if has_dimension "band" datasetType
                 then raise AssertionError
                 else ret (([ "validStart"; "validEnd" ]%string
                            ++ [if has_dimension "detector" datasetType
                                then ccdKey self
                                else ("NULL AS " ++ ccdKey self)%string])
                           ++ ["NULL AS filter"%string])) k tr
      = k fields tr.
Proof.
  intros [Hpf|Hband].
  - rewrite Hpf. eexists. intros k tr. reflexivity.
  - destruct (has_dimension "physical_filter" datasetType).
    + eexists. intros k tr. reflexivity.
    + rewrite Hband. eexists. intros k tr. reflexivity.
Qed.

Lemma query_unfold (datasetType : DatasetType) (calibDate : string) :
  has_dimension "physical_filter" datasetType = true
  \/ has_dimension "band" datasetType = false ->
  exists fields, forall tr,
    _queryGen2CalibRegistry self world datasetType calibDate tr
    = (let tables := mapper_tables self (name datasetType) in
       if no_tables tables then
         _ <- lift (subscript tables 0) ;;
         emit (Log WARN ("Could not extract calibration ranges for "
                         ++ name datasetType ++ " in " ++ root self
                         ++ "; no tables in Gen2 mapper.")%string) ;;;
         ret []
       else
         table <- lift (subscript tables 0) ;;
         let query := ("SELECT DISTINCT " ++ join ", " fields ++ " FROM " ++ table
                       ++ " WHERE calibDate = ?;")%string in
         emit (Execute query calibDate) ;;;
         match db_execute world query calibDate with
         | inl e =>
             emit (Log WARN ("Could not extract calibration ranges for "
                             ++ name datasetType ++ " in " ++ root self
                             ++ " from table " ++ table ++ ": " ++ e)%string) ;;;
             ret []
         | inr results => ret results
         end) tr.
Proof.
  intro Hdims. destruct (query_fields_ok datasetType Hdims) as [fields Hf].
  exists fields. intro tr. unfold _queryGen2CalibRegistry.
  destruct (has_dimension "detector" datasetType); apply Hf.
Qed.

(** A query that sqlite rejects: one warning, no rows, no exception. *)
Lemma query_operational_error (datasetType : DatasetType) (calibDate : string)
    (tr : list Event) (table : string) (more : list string) (e : string) :
  mapper_tables self (name datasetType) = Some (table :: more) ->
  has_dimension "physical_filter" datasetType = true
  \/ has_dimension "band" datasetType = false ->
  (forall query, db_execute world query calibDate = inl e) ->
  exists query,
    _queryGen2CalibRegistry self world datasetType calibDate tr
    = (Ok [],
       tr ++ [Execute query calibDate;
              Log WARN ("Could not extract calibration ranges for "
                        ++ name datasetType ++ " in " ++ root self
                        ++ " from table " ++ table ++ ": " ++ e)%string]).
Proof.
  intros Htables Hdims Hfail.
  destruct (query_unfold datasetType calibDate Hdims) as [fields Hq].
  eexists. rewrite Hq, Htables. cbn [no_tables List.length Nat.eqb].
  unfold bind, lift, subscript, emit, ret. cbn [nth_error].
  rewrite Hfail. rewrite <- app_assoc. reflexivity.
Qed.

(** C1 (the code departs from the specification).  When the mapper has no table
    for the dataset type, the arguments of the warning are evaluated
    first and [tables[0]] raises: [TypeError] for [None], [IndexError] for
    an empty list.  Nothing is logged, no row list is returned, and the
    exception leaves [_finish] too, so the remaining dataset types are not
    reconciled and nothing is certified. *)
Theorem query_without_tables_raises (datasetType : DatasetType)
    (calibDate : string) (tr : list Event) :
  no_tables (mapper_tables self (name datasetType)) = true ->
  has_dimension "physical_filter" datasetType = true
  \/ has_dimension "band" datasetType = false ->
  exists e,
    (mapper_tables self (name datasetType) = None /\ e = TypeError
     \/ mapper_tables self (name datasetType) = Some [] /\ e = IndexError) /\
    _queryGen2CalibRegistry self world datasetType calibDate tr = (Raise e, tr) /\
    (forall files more rest,
       isCalibration datasetType = true ->
       path_exists world (path_join (root self) "calibRegistry.sqlite3") = true ->
       _finish self world
         ((datasetType, (Some calibDate, files) :: more) :: rest) tr
       = (Raise e, tr)).
Proof.
  intros Hnone Hdims.
  destruct (query_unfold datasetType calibDate Hdims) as [fields Hq].
  assert (Hraise : exists e,
    (mapper_tables self (name datasetType) = None /\ e = TypeError
     \/ mapper_tables self (name datasetType) = Some [] /\ e = IndexError) /\
    _queryGen2CalibRegistry self world datasetType calibDate tr = (Raise e, tr)).
  { rewrite Hq. cbv zeta. rewrite Hnone.
    destruct (mapper_tables self (name datasetType)) as [[|t ts]|] eqn:Ht.
    - exists IndexError. split; [right; split; reflexivity | reflexivity].
    - discriminate.
    - exists TypeError. split; [left; split; reflexivity | reflexivity]. }
  destruct Hraise as (e & Hcase & Hrun).
  exists e. split; [exact Hcase|]. split; [exact Hrun|].
  intros files more rest Hcalib Hexists.
  unfold _finish. rewrite Hexists. cbn [negb for_each].
  unfold join_datasetType at 1. cbn [fst snd]. rewrite Hcalib.
  cbn [negb for_each]. unfold join_calibDate at 1. cbn [fst snd].
  unfold bind. rewrite Hrun. reflexivity.
Qed.

End FinishFacts.

(* ================================================================== *)
(** * More about the scanner *)
(* ================================================================== *)

Section ScannerMore.
Import Scanner.
Variables Datasets Predicate : Type.

Local Abbreviation Handler := (PathElementHandler Datasets Predicate).

Lemma filter_none (A : Type) (f : A -> bool) (l : list A) :
  Forall (fun x => f x = false) l -> filter f l = [].
Proof.
  induction 1 as [|x l Hx Hl IH]; simpl; [reflexivity|]. now rewrite Hx.
Qed.

(** [insort] puts the new handler behind the handlers of its own rank and
    leaves the handlers of every rank in the order they had. *)
Lemma insort_has_rank (a : list Handler) (x : Handler) (r : Z) :
  StronglySorted rank_le a ->
  filter (has_rank r) (insort a x)
  = filter (has_rank r) a ++ (if has_rank r x then [x] else []).
Proof.
  intro Hs. destruct (@bisect_right_spec _ _ a x Hs) as [Hlow Hupp].
  unfold insort. pose proof (firstn_skipn (bisect_right a x) a) as Hsplit.
  remember (firstn (bisect_right a x) a) as front eqn:Hfront.
  remember (skipn (bisect_right a x) a) as back eqn:Hback.
  clear Hfront Hback. subst a.
  rewrite !filter_app. cbn [filter].
  destruct (has_rank r x) eqn:Hx.
  - assert (Hnone : filter (has_rank r) back = []).
    { apply filter_none. eapply Forall_impl; [|exact Hupp].
      intros u Hu. unfold has_rank in *. apply Z.eqb_eq in Hx.
      apply Z.eqb_neq. lia. }
    rewrite Hnone. cbn [app]. now rewrite app_nil_r.
  - now rewrite app_nil_r.
Qed.

Lemma add_all_has_rank (hs : list Handler)
    (sc : DirectoryScanner Datasets Predicate) (r : Z) :
  StronglySorted rank_le (_files sc) ->
  StronglySorted rank_le (_subdirectories sc) ->
  filter (has_rank r) (_files (add_all sc hs))
  = filter (has_rank r) (_files sc)
    ++ filter (has_rank r) (filter (fun h => isForFiles h) hs)
  /\ filter (has_rank r) (_subdirectories (add_all sc hs))
     = filter (has_rank r) (_subdirectories sc)
       ++ filter (has_rank r) (filter (fun h => negb (isForFiles h)) hs).
Proof.
  revert sc. induction hs as [|h hs IH]; intros sc Hf Hd.
  - simpl. now rewrite !app_nil_r.
  - unfold add_all in *. cbn [fold_left].
    destruct (isForFiles h) eqn:Hk.
    + assert (Hadd : add sc h = {| _files := insort (_files sc) h;
                                   _subdirectories := _subdirectories sc |})
        by (unfold add; now rewrite Hk).
      rewrite Hadd.
      destruct (IH {| _files := insort (_files sc) h;
                      _subdirectories := _subdirectories sc |})
        as [H1 H2]; cbn [_files _subdirectories];
        [now apply insort_sorted | exact Hd |].
      cbn [_files _subdirectories] in H1, H2.
      cbn [filter]. rewrite Hk. cbn [negb filter]. split; [|exact H2].
      rewrite H1, insort_has_rank by exact Hf.
      rewrite <- app_assoc. f_equal.
      destruct (has_rank r h); reflexivity.
    + assert (Hadd : add sc h = {| _files := _files sc;
                                   _subdirectories := insort (_subdirectories sc) h |})
        by (unfold add; now rewrite Hk).
      rewrite Hadd.
      destruct (IH {| _files := _files sc;
                      _subdirectories := insort (_subdirectories sc) h |})
        as [H1 H2]; cbn [_files _subdirectories];
        [exact Hf | now apply insort_sorted |].
      cbn [_files _subdirectories] in H1, H2.
      cbn [filter]. rewrite Hk. cbn [negb filter]. split; [exact H1|].
      rewrite H2, insort_has_rank by exact Hd.
      rewrite <- app_assoc. f_equal.
      destruct (has_rank r h); reflexivity.
Qed.

(** The two pools after a sequence of [add]: each is sorted by rank and
    holds the handlers of its kind. *)
Lemma pools_spec (hs : list Handler) :
  let sc := add_all (new_scanner Datasets Predicate) hs in
  StronglySorted rank_le (_files sc) /\
  StronglySorted rank_le (_subdirectories sc) /\
  Permutation (_files sc) (filter (fun h => isForFiles h) hs) /\
  Permutation (_subdirectories sc) (filter (fun h => negb (isForFiles h)) hs).
Proof.
  intro sc.
  assert (Hnil : StronglySorted rank_le (@nil Handler)) by constructor.
  destruct (@add_all_pools _ _ hs (new_scanner Datasets Predicate) Hnil Hnil)
    as (H1 & H2 & H3 & H4).
  fold sc in H1, H2, H3, H4. simpl in H3, H4.
  repeat split; assumption.
Qed.

(** X1.  Whatever handlers are added, and in whatever order, each pool
    holds the handlers of its kind, every one once, in non-decreasing rank
    order, and handlers of equal rank stand in the order they were added:
    [add] keeps the pools stably sorted by rank. *)
Theorem pools_stably_sorted (hs : list Handler) :
  let sc := add_all (new_scanner Datasets Predicate) hs in
  StronglySorted rank_le (_files sc) /\
  StronglySorted rank_le (_subdirectories sc) /\
  Permutation (_files sc) (filter (fun h => isForFiles h) hs) /\
  Permutation (_subdirectories sc) (filter (fun h => negb (isForFiles h)) hs) /\
  (forall r,
     filter (has_rank r) (_files sc)
     = filter (has_rank r) (filter (fun h => isForFiles h) hs)) /\
  (forall r,
     filter (has_rank r) (_subdirectories sc)
     = filter (has_rank r) (filter (fun h => negb (isForFiles h)) hs)).
Proof.
  intro sc.
  assert (Hnil : StronglySorted rank_le (@nil Handler)) by constructor.
  destruct (pools_spec hs) as (H1 & H2 & H3 & H4).
  fold sc in H1, H2, H3, H4.
  split; [exact H1|]. split; [exact H2|]. split; [exact H3|].
  split; [exact H4|].
  split; intro r;
    destruct (@add_all_has_rank hs (new_scanner Datasets Predicate) r Hnil Hnil)
      as [Hf Hd]; [exact Hf | exact Hd].
Qed.

Lemma filter_partition_perm (A : Type) (f : A -> bool) (l : list A) :
  Permutation (filter f l ++ filter (fun x => negb (f x)) l) l.
Proof.
  induction l as [|x l IH]; simpl; [apply perm_nil|].
  destruct (f x); simpl.
  - now apply perm_skip.
  - apply Permutation_sym, Permutation_cons_app, Permutation_sym, IH.
Qed.

Lemma pool_kinds (hs : list Handler) :
  let sc := add_all (new_scanner Datasets Predicate) hs in
  Forall (fun h => isForFiles h = true) (_files sc) /\
  Forall (fun h => isForFiles h = false) (_subdirectories sc).
Proof.
  intro sc. destruct (pools_spec hs) as (_ & _ & Hf & Hd).
  fold sc in Hf, Hd. split; apply Forall_forall; intros h Hh.
  - eapply Permutation_in in Hh; [|exact Hf]. apply filter_In in Hh. tauto.
  - eapply Permutation_in in Hh; [|exact Hd]. apply filter_In in Hh.
    destruct Hh as [_ Hh]. now apply negb_true_iff in Hh.
Qed.

(** X2.  During a scan a handler is only ever invoked on entries of its
    own kind: a handler for files on entries that are files, a handler for
    directories on entries that are directories and not files. *)
Theorem handlers_see_their_kind (hs : list Handler) (path : string)
    (entries : list DirEntry) (ds : Datasets) (p : Predicate) :
  let sc := add_all (new_scanner Datasets Predicate) hs in
  forall e att h b,
    In (e, att) (calls (fst (scan sc path entries ds p))) ->
    In (h, b) att ->
    In h hs /\
    isForFiles h = is_file e /\
    (isForFiles h = false -> is_dir e = true).
Proof.
  intros sc e att h b Hcall Hatt.
  destruct (scan_calls_spec sc path entries ds p e att Hcall)
    as (pool & ds' & Hsel & Heq).
  assert (Hin : In h pool).
  { destruct (try_handlers_spec pool e ds' p)
      as [(_ & pre & hm & rest & Hpool & Ha) | (_ & Ha)];
      rewrite <- Heq in Ha; rewrite Ha in Hatt.
    - rewrite Hpool. apply in_app_or in Hatt. apply in_or_app.
      destruct Hatt as [Hatt|[Hatt|[]]].
      + left. apply in_map_iff in Hatt. destruct Hatt as (h' & Hh' & Hin).
        inversion Hh'; subst. exact Hin.
      + right. inversion Hatt; subst. now left.
    - apply in_map_iff in Hatt. destruct Hatt as (h' & Hh' & Hin).
      inversion Hh'; subst. exact Hin. }
  destruct (pool_kinds hs) as [Hfiles Hdirs]. fold sc in Hfiles, Hdirs.
  destruct (pools_spec hs) as (_ & _ & Hpf & Hpd).
  fold sc in Hpf, Hpd.
  rewrite Forall_forall in Hfiles, Hdirs.
  unfold select_pool in Hsel.
  destruct (is_file e) eqn:Hfile.
  - inversion Hsel; subst pool. split; [|split].
    + eapply Permutation_in in Hin; [|exact Hpf]. apply filter_In in Hin. tauto.
    + now apply Hfiles.
    + intro Hfalse. rewrite (Hfiles h Hin) in Hfalse. discriminate.
  - destruct (is_dir e) eqn:Hdir; [|discriminate].
    inversion Hsel; subst pool. split; [|split].
    + eapply Permutation_in in Hin; [|exact Hpd]. apply filter_In in Hin. tauto.
    + now apply Hdirs.
    + reflexivity.
Qed.

(** X3.  Iterating over a scanner yields every handler that was added,
    each one once: first the handlers for files, then those for
    directories, each part in non-decreasing rank order. *)
Theorem iter_yields_all (hs : list Handler) :
  let sc := add_all (new_scanner Datasets Predicate) hs in
  Permutation (iter sc) hs /\
  List.length (iter sc) = List.length hs /\
  exists for_files for_dirs,
    iter sc = for_files ++ for_dirs /\
    Forall (fun h => isForFiles h = true) for_files /\
    Forall (fun h => isForFiles h = false) for_dirs /\
    StronglySorted rank_le for_files /\
    StronglySorted rank_le for_dirs.
Proof.
  intro sc.
  destruct (pools_spec hs) as (Hsf & Hsd & Hpf & Hpd).
  fold sc in Hsf, Hsd, Hpf, Hpd.
  destruct (pool_kinds hs) as [Hkf Hkd]. fold sc in Hkf, Hkd.
  assert (Hperm : Permutation (iter sc) hs).
  { unfold iter. eapply Permutation_trans;
      [apply Permutation_app; [exact Hpf | exact Hpd]|].
    apply filter_partition_perm. }
  split; [exact Hperm|]. split; [now apply Permutation_length|].
  exists (_files sc), (_subdirectories sc). repeat split; assumption.
Qed.

(** X4.  The handler loop on one entry, for handlers that keep the
    contract of leaving the accumulator alone when they do not match.  If
    no handler matches, the accumulator is unchanged and every handler of
    the pool declined the entry as first presented.  Otherwise the
    accumulator is exactly what the first handler that accepts the entry
    made of the accumulator the loop started with: no other handler has a
    part in it. *)
Theorem first_match_alone_updates (pool : list Handler) (e : DirEntry)
    (ds : Datasets) (p : Predicate) :
  Forall well_behaved pool ->
  (fst (fst (try_handlers pool e ds p)) = false /\
   snd (fst (try_handlers pool e ds p)) = ds /\
   forall h, In h pool ->
     fst (call h (entry_path e) (entry_name e) ds p) = false)
  \/
  (fst (fst (try_handlers pool e ds p)) = true /\
   exists pre hm rest,
     pool = pre ++ hm :: rest /\
     (forall h, In h pre ->
        fst (call h (entry_path e) (entry_name e) ds p) = false) /\
     call hm (entry_path e) (entry_name e) ds p
       = (true, snd (fst (try_handlers pool e ds p)))).
Proof.
  induction 1 as [|h pool Hh Hpool IH]; simpl.
  - left. repeat split. intros h [].
  - destruct (call h (entry_path e) (entry_name e) ds p) as [m ds'] eqn:Hc.
    destruct m.
    + right. simpl. split; [reflexivity|].
      exists [], h, pool. split; [reflexivity|]. split; [intros h' []|].
      exact Hc.
    + assert (Hsame : ds' = ds).
      { specialize (Hh (entry_path e) (entry_name e) ds p).
        rewrite Hc in Hh. simpl in Hh. now apply Hh. }
      subst ds'.
      destruct (try_handlers pool e ds p) as [[found ds''] att]. simpl in *.
      destruct IH as [(Hf & Hds & Hall) | (Hf & pre & hm & rest & Hp & Hpre & Hm)].
      * left. repeat split; try assumption.
        intros h' [<-|Hin]; [now rewrite Hc | now apply Hall].
      * right. split; [assumption|].
        exists (h :: pre), hm, rest. subst pool. repeat split; try assumption.
        intros h' [<-|Hin]; [now rewrite Hc | now apply Hpre].
Qed.

(** The state a scan continues from enters only through its accumulator;
    the names and the calls it has gathered so far are carried along. *)
Lemma scan_fold_shift (sc : DirectoryScanner Datasets Predicate) (p : Predicate)
    (entries : list DirEntry) (st : ScanState Datasets Predicate) :
  fold_left (scan_entry sc p) entries st
  = {| datasets_of :=
         datasets_of
           (fold_left (scan_entry sc p) entries
              {| datasets_of := datasets_of st; unrecognized := []; calls := [] |});
       unrecognized :=
         unrecognized st
         ++ unrecognized
              (fold_left (scan_entry sc p) entries
                 {| datasets_of := datasets_of st; unrecognized := [];
                    calls := [] |});
       calls :=
         calls st
         ++ calls
              (fold_left (scan_entry sc p) entries
                 {| datasets_of := datasets_of st; unrecognized := [];
                    calls := [] |}) |}.
Proof.
  revert st. induction entries as [|e entries IH]; intro st.
  - simpl. rewrite !app_nil_r. now destruct st.
  - cbn [fold_left]. unfold scan_entry at 2 4 6 8.
    destruct (select_pool sc e) as [pool|].
    + cbn [datasets_of unrecognized calls].
      destruct (try_handlers pool e (datasets_of st) p) as [[found ds'] att].
      rewrite IH. cbn [datasets_of unrecognized calls].
      rewrite (IH {| datasets_of := ds';
                     unrecognized := if found then [] else [] ++ [entry_name e];
                     calls := [] ++ [(e, att)] |}).
      cbn [datasets_of unrecognized calls].
      destruct found; cbn [app]; now rewrite <- ?app_assoc.
    + apply IH.
Qed.

(** X5.  Scanning a listing in two parts.  The entries of the second part
    are handled exactly as in a scan of their own started from the
    accumulator the first part left; names and calls are those of the two
    parts in sequence, and the one warning of the whole scan lists the
    names of both. *)
Theorem scan_app (sc : DirectoryScanner Datasets Predicate) (path : string)
    (entries1 entries2 : list DirEntry) (ds : Datasets) (p : Predicate) :
  let st1 := fst (scan sc path entries1 ds p) in
  let st2 := fst (scan sc path entries2 (datasets_of st1) p) in
  scan sc path (entries1 ++ entries2) ds p
  = ({| datasets_of := datasets_of st2;
        unrecognized := unrecognized st1 ++ unrecognized st2;
        calls := calls st1 ++ calls st2 |},
     match unrecognized st1 ++ unrecognized st2 with
     | [] => []
     | _ :: _ =>
         [SkippedUnrecognized path (unrecognized st1 ++ unrecognized st2)]
     end).
Proof.
  unfold scan. cbn [fst]. rewrite fold_left_app, scan_fold_shift.
  cbn [unrecognized]. reflexivity.
Qed.

Lemma empty_scanner_entry (p : Predicate) (st : ScanState Datasets Predicate)
    (e : DirEntry) :
  scan_entry (new_scanner Datasets Predicate) p st e
  = if file_or_dir e
    then {| datasets_of := datasets_of st;
            unrecognized := unrecognized st ++ [entry_name e];
            calls := calls st ++ [(e, [])] |}
    else st.
Proof.
  unfold scan_entry, select_pool, new_scanner, file_or_dir.
  cbn [_files _subdirectories].
  destruct (is_file e); [|destruct (is_dir e)]; reflexivity.
Qed.

(** X6.  A scanner to which no handler was added invokes nothing, leaves
    the accumulator as it is and reports every file and directory of the
    listing, in order, as unrecognized. *)
Theorem empty_scanner_recognizes_nothing (path : string)
    (entries : list DirEntry) (ds : Datasets) (p : Predicate) :
  fst (scan (new_scanner Datasets Predicate) path entries ds p)
  = {| datasets_of := ds;
       unrecognized := map entry_name (filter file_or_dir entries);
       calls := map (fun e => (e, [])) (filter file_or_dir entries) |}.
Proof.
  unfold scan. cbn [fst].
  induction entries as [|e entries IH].
  - reflexivity.
  - cbn [fold_left filter]. rewrite empty_scanner_entry.
    destruct (file_or_dir e); [|exact IH].
    rewrite scan_fold_shift. cbn [datasets_of unrecognized calls].
    rewrite IH. reflexivity.
Qed.

End ScannerMore.

(* ================================================================== *)
(** * More about the correction *)
(* ================================================================== *)

Section CorrectionMore.
Import Py Calib.
Context {fmt : Formatting}.

Local Abbreviation Pair := (Timespan * DatasetRef)%type.

Lemma corrected_from_head (rest : list Pair) (prev : Pair) :
  exists x tl,
    corrected_from prev rest = x :: tl /\ begin (fst x) = begin (fst prev).
Proof.
  destruct rest as [|cur rest]; simpl.
  - now exists prev, [].
  - eexists _, _. split; [reflexivity|]. simpl. unfold adjust.
    now destruct (Z.abs (begin (fst cur) - end_ (fst prev)) <? fuzzy_day).
Qed.

Lemma corrected_from_settled (rest : list Pair) (prev : Pair) :
  Sorted settled (map fst (corrected_from prev rest)).
Proof.
  revert prev. induction rest as [|cur rest IH]; intro prev.
  - simpl. repeat constructor.
  - cbn [corrected_from map]. constructor; [apply IH|].
    destruct (corrected_from_head rest cur) as (x & tl & Heq & Hb).
    rewrite Heq. cbn [map]. constructor. cbn [fst].
    unfold settled, adjust. rewrite Hb.
    destruct (Z.abs (begin (fst cur) - end_ (fst prev)) <? fuzzy_day) eqn:Hnear.
    + left. reflexivity.
    + right. now apply Z.ltb_ge in Hnear.
Qed.

Lemma corrected_pairs_settled (s : list Pair) :
  Sorted settled (map fst (corrected_pairs s)).
Proof.
  destruct s as [|first rest].
  - constructor.
  - apply corrected_from_settled.
Qed.

(** X7.  What the correction of a group stores has no small
    discontinuity left.  A group that holds a pair is corrected without an
    exception; one pair is stored for each pair of the group, after what
    the dictionary held before; and of two pairs stored one after the
    other, the later begins exactly where the earlier ends, or at least
    1.001 days away from it. *)
Theorem no_small_discontinuity_left (st : Correction) (g : list Pair) :
  g <> [] ->
  exists stored,
    correct_group st g
      = Ok {| correctedRefsByTimespan :=
                store_all Timespan_eq_dec (correctedRefsByTimespan st) stored;
              info_messages := info_messages (after_group st g);
              warn_messages := warn_messages (after_group st g) |} /\
    List.length stored = List.length g /\
    Sorted settled (map fst stored).
Proof.
  intro Hne. exists (corrected_pairs (sort_by_timespan g)).
  split; [now rewrite correct_group_eq|]. split.
  - rewrite corrected_pairs_length. unfold sort_by_timespan.
    apply sorted_length.
  - apply corrected_pairs_settled.
Qed.

Lemma adjust_settled (a b : Timespan) : settled a b -> adjust a b = a.
Proof.
  unfold settled, adjust. intros [Heq|Hfar].
  - rewrite Heq, Z.sub_diag. cbn [Z.abs].
    destruct a as [ba ea]. now destruct (0 <? fuzzy_day).
  - apply Z.ltb_ge in Hfar. now rewrite Hfar.
Qed.

Lemma corrected_from_settled_fixed (rest : list Pair) (prev : Pair) :
  Sorted settled (map fst (prev :: rest)) ->
  corrected_from prev rest = prev :: rest.
Proof.
  revert prev. induction rest as [|cur rest IH]; intros prev Hs.
  - reflexivity.
  - cbn [corrected_from]. cbn [map] in Hs.
    apply Sorted_inv in Hs. destruct Hs as [Hs Hd].
    rewrite IH by exact Hs. f_equal.
    inversion Hd as [|? ? Hab]; subst.
    rewrite adjust_settled by exact Hab. now destruct prev.
Qed.

Lemma Sorted_impl (A : Type) (R1 R2 : A -> A -> Prop) (l : list A) :
  (forall a b, R1 a b -> R2 a b) -> Sorted R1 l -> Sorted R2 l.
Proof.
  intros Himp. induction 1 as [|x l Hs IH Hd]; constructor; [exact IH|].
  destruct Hd; constructor. now apply Himp.
Qed.

Lemma Sorted_map (A B : Type) (f : A -> B) (R : B -> B -> Prop) (l : list A) :
  Sorted R (map f l) <-> Sorted (fun a b => R (f a) (f b)) l.
Proof.
  induction l as [|x l IH]; simpl.
  - split; constructor.
  - split; intro H; apply Sorted_inv in H; destruct H as [Hs Hd];
      (constructor; [now apply IH|]);
      destruct l; simpl in *; constructor; now inversion Hd.
Qed.

Lemma sorted_distinct_begins (s : list Pair) :
  Sorted (fun a b => timespan_leb (fst a) (fst b) = true) s ->
  NoDup (map (fun p => begin (fst p)) s) ->
  Sorted Z.lt (map (fun p => begin (fst p)) s).
Proof.
  induction 1 as [|a l Hs IH Hd]; intro Hnd; simpl.
  - constructor.
  - inversion Hnd as [|? ? Hnin Hnd']; subst.
    constructor; [now apply IH|].
    destruct Hd as [|b l Hab]; simpl; constructor.
    apply timespan_leb_le in Hab.
    assert (begin (fst a) <> begin (fst b))
      by (intro Heq; apply Hnin; left; now rewrite Heq).
    lia.
Qed.

(** X8.  A group whose validity ranges begin at pairwise different times.
    What the correction stores for it is in time order, and correcting
    that again stores the very same pairs: on such groups the correction
    is idempotent on its own output. *)
Theorem corrected_twice (g : list Pair) :
  NoDup (map (fun p => begin (fst p)) g) ->
  sort_by_timespan (corrected_pairs (sort_by_timespan g))
    = corrected_pairs (sort_by_timespan g) /\
  corrected_pairs (sort_by_timespan (corrected_pairs (sort_by_timespan g)))
    = corrected_pairs (sort_by_timespan g).
Proof.
  intro Hnd.
  assert (Hstrict : Sorted Z.lt
            (map (fun p : Pair => begin (fst p))
                 (corrected_pairs (sort_by_timespan g)))).
  { replace (map (fun p : Pair => begin (fst p))
                 (corrected_pairs (sort_by_timespan g)))
      with (map (fun p : Pair => begin (fst p)) (sort_by_timespan g)).
    - apply sorted_distinct_begins; [apply sort_by_timespan_Sorted|].
      eapply Permutation_NoDup; [|exact Hnd].
      apply Permutation_map, Permutation_sym.
      unfold sort_by_timespan. apply sorted_perm.
    - pose proof (corrected_pairs_begin (sort_by_timespan g)) as Hb.
      apply (f_equal (map fst)) in Hb. rewrite !map_map in Hb.
      symmetry. exact Hb. }
  assert (Hsame : sort_by_timespan (corrected_pairs (sort_by_timespan g))
                  = corrected_pairs (sort_by_timespan g)).
  { unfold sort_by_timespan at 1. apply sorted_of_Sorted.
    apply (proj1 (Sorted_map (fun p : Pair => begin (fst p)) Z.lt _)) in Hstrict.
    eapply Sorted_impl; [|exact Hstrict].
    intros a b Hlt. cbn beta in Hlt. unfold timespan_leb, timespan_lt.
    apply negb_true_iff, orb_false_iff. split.
    - apply Z.ltb_ge. lia.
    - apply andb_false_iff. left. apply Z.eqb_neq. lia. }
  split; [exact Hsame|]. rewrite Hsame.
  pose proof (corrected_pairs_settled (sort_by_timespan g)) as Hsettled.
  destruct (corrected_pairs (sort_by_timespan g)) as [|first rest];
    [reflexivity|].
  now apply corrected_from_settled_fixed.
Qed.

(** X9.  Two neighbours of a sorted group of which the later begins
    exactly where the earlier ends.  The iteration for this pair stores the
    earlier one as it is and hands the later one on as it is, and yet it
    records a warning: the overlap message, with a duration of zero.  What
    is stored for the later one is decided by what follows it: it keeps its
    record and its begin, and its end too when nothing follows or what
    follows begins at least 1.001 days away from that end; otherwise its
    end becomes the begin of what follows. *)
Theorem contiguous_pair_warns (st : Correction) (g pre post : list Pair)
    (a b : Pair) :
  sort_by_timespan g = pre ++ a :: b :: post ->
  begin (fst b) = end_ (fst a) ->
  correct_iteration st a b
    = ({| correctedRefsByTimespan :=
            dd_append Timespan_eq_dec (correctedRefsByTimespan st)
                      (fst a) (snd a);
          info_messages := info_messages st;
          warn_messages :=
            set_add (warn_messages st) (overlap_message 0 (fst a) (fst b)) |},
       b) /\
  nth_error (corrected_pairs (sort_by_timespan g)) (List.length pre) = Some a /\
  In (overlap_message 0 (fst a) (fst b)) (warn_messages (after_group st g)) /\
  (exists e,
     nth_error (corrected_pairs (sort_by_timespan g)) (S (List.length pre))
       = Some ({| begin := begin (fst b); end_ := e |}, snd b) /\
     (post = [] -> e = end_ (fst b)) /\
     (forall c post', post = c :: post' ->
        fuzzy_day <= Z.abs (begin (fst c) - end_ (fst b)) -> e = end_ (fst b)) /\
     (forall c post', post = c :: post' ->
        Z.abs (begin (fst c) - end_ (fst b)) < fuzzy_day -> e = begin (fst c))).
Proof.
  intros Hs Hcont.
  assert (Hadj : adjust (fst a) (fst b) = fst a)
    by (apply adjust_settled; now left).
  assert (Hmsg : messages_from (fst a) [fst b]
                 = [(WARN, overlap_message 0 (fst a) (fst b))]).
  { cbn [messages_from]. rewrite Hcont, Z.sub_diag. reflexivity. }
  split; [|split; [|split]].
  - rewrite correct_iteration_eq, Hadj, Hmsg. reflexivity.
  - rewrite Hs, corrected_pairs_nth. cbn [stored_for]. rewrite Hadj.
    now destruct a.
  - unfold after_group. cbn [warn_messages].
    apply set_add_all_In. right. apply select_level_In.
    eapply group_messages_neighbours; [exact Hs|].
    rewrite Hmsg. now left.
  - rewrite Hs, corrected_pairs_nth_next. destruct b as [tb rb].
    destruct (stored_for_later tb rb post) as (e & Hst & Hcases).
    exists e. rewrite Hst. split; [reflexivity | exact Hcases].
Qed.

End CorrectionMore.

(* ================================================================== *)
(** * More about grouping *)
(* ================================================================== *)

Section BucketFacts.
Import Py.
Variables K V : Type.
Variable K_eq_dec : forall a b : K, {a = b} + {a <> b}.

(** A bucket after [append]: an old bucket, or the bucket of the key with
    the new element at its end. *)
Lemma dd_append_In_inv (d : defaultdict K V) (k0 : K) (v0 : V) (k : K)
    (vs : list V) :
  In (k, vs) (dd_append K_eq_dec d k0 v0) ->
  In (k, vs) d
  \/ (k = k0 /\ exists vs0, vs = vs0 ++ [v0] /\ (In (k, vs0) d \/ vs0 = [])).
Proof.
  induction d as [|[k' vs'] d IH]; simpl.
  - intros [Heq|[]]. inversion Heq; subst. right. split; [reflexivity|].
    exists []. split; [reflexivity | now right].
  - destruct (K_eq_dec k0 k') as [Heq|Hne]; simpl.
    + subst k'. intros [Heq|Hin].
      * inversion Heq; subst. right. split; [reflexivity|].
        exists vs'. split; [reflexivity | left; now left].
      * left. now right.
    + intros [Heq|Hin].
      * left. now left.
      * destruct (IH Hin) as [Hold | (Hk & vs0 & Hvs & Hsrc)].
        -- left. now right.
        -- right. split; [exact Hk|]. exists vs0. split; [exact Hvs|].
           destruct Hsrc; [left; now right | now right].
Qed.

Lemma store_all_forall (P : K -> V -> Prop) (pairs : list (K * V))
    (d : defaultdict K V) :
  (forall k v, In (k, v) pairs -> P k v) ->
  (forall k vs v, In (k, vs) d -> In v vs -> P k v) ->
  forall k vs v, In (k, vs) (store_all K_eq_dec d pairs) -> In v vs -> P k v.
Proof.
  revert d. induction pairs as [|[k0 v0] pairs IH]; intros d Hnew Hold.
  - exact Hold.
  - cbn [store_all fold_left fst snd]. apply IH.
    + intros k v Hin. apply Hnew. now right.
    + intros k vs v Hin Hv.
      destruct (dd_append_In_inv _ _ _ _ _ Hin)
        as [Hd | (Hk & vs0 & Hvs & Hsrc)].
      * now apply (Hold k vs).
      * subst k vs. apply in_app_or in Hv. destruct Hv as [Hv|[<-|[]]].
        -- destruct Hsrc as [Hsrc| ->]; [now apply (Hold k0 vs0) | destruct Hv].
        -- apply Hnew. now left.
Qed.

Lemma StronglySorted_snoc (R : V -> V -> Prop) (l : list V) (x : V) :
  StronglySorted R l -> Forall (fun v => R v x) l -> StronglySorted R (l ++ [x]).
Proof.
  induction 1 as [|a l Hs IH Ha]; intro Hall; simpl.
  - repeat constructor.
  - inversion Hall; subst. constructor; [now apply IH|].
    apply Forall_app. split; [exact Ha | now constructor].
Qed.

(** Elements that arrive in order fill buckets that are in order. *)
Lemma store_all_sorted (R : V -> V -> Prop) (pairs : list (K * V))
    (d : defaultdict K V) :
  StronglySorted R (map snd pairs) ->
  (forall k vs, In (k, vs) d ->
     StronglySorted R vs /\
     forall v x, In v vs -> In x (map snd pairs) -> R v x) ->
  forall k vs, In (k, vs) (store_all K_eq_dec d pairs) -> StronglySorted R vs.
Proof.
  revert d. induction pairs as [|[k0 v0] pairs IH]; intros d Hs Hd.
  - intros k vs Hin. now apply (Hd k vs).
  - cbn [store_all fold_left fst snd]. cbn [map snd] in Hs.
    apply StronglySorted_inv in Hs. destruct Hs as [Hs Hv0].
    rewrite Forall_forall in Hv0.
    apply IH; [exact Hs|].
    intros k vs Hin.
    destruct (dd_append_In_inv _ _ _ _ _ Hin)
      as [Hold | (Hk & vs0 & Hvs & Hsrc)].
    + destruct (Hd k vs Hold) as [H1 H2]. split; [exact H1|].
      intros v x Hv Hx. apply H2; [exact Hv | now right].
    + subst k vs.
      assert (Hvs0 : StronglySorted R vs0 /\
                     forall v x, In v vs0 -> In x (map snd ((k0, v0) :: pairs)) ->
                                 R v x).
      { destruct Hsrc as [Hsrc| ->]; [now apply (Hd k0)|].
        split; [constructor | intros v x []]. }
      destruct Hvs0 as [H1 H2]. split.
      * apply StronglySorted_snoc; [exact H1|].
        apply Forall_forall. intros v Hv. apply H2; [exact Hv | now left].
      * intros v x Hv Hx. apply in_app_or in Hv.
        destruct Hv as [Hv|[<-|[]]].
        -- apply H2; [exact Hv | now right].
        -- now apply Hv0.
Qed.

End BucketFacts.

Section GroupingMore.
Import Py Calib.

Local Abbreviation Pair := (Timespan * DatasetRef)%type.

Lemma timespan_leb_refl (a : Timespan) : timespan_leb a a = true.
Proof.
  unfold timespan_leb, timespan_lt. apply negb_true_iff, orb_false_iff.
  split; [apply Z.ltb_irrefl|]. apply andb_false_iff. right. apply Z.ltb_irrefl.
Qed.

Lemma timespan_leb_trans (a b c : Timespan) :
  timespan_leb a b = true -> timespan_leb b c = true -> timespan_leb a c = true.
Proof.
  intros Hab Hbc. apply timespan_leb_le in Hab. apply timespan_leb_le in Hbc.
  unfold timespan_leb, timespan_lt. apply negb_true_iff, orb_false_iff. split.
  - apply Z.ltb_ge. lia.
  - apply andb_false_iff.
    destruct (Z.eq_dec (begin c) (begin a)) as [Heq|Hne].
    + right. apply Z.ltb_ge. lia.
    + left. now apply Z.eqb_neq.
Qed.

Lemma StronglySorted_app (A : Type) (R : A -> A -> Prop) (l1 l2 : list A) :
  StronglySorted R l1 -> StronglySorted R l2 ->
  (forall a b, In a l1 -> In b l2 -> R a b) ->
  StronglySorted R (l1 ++ l2).
Proof.
  induction 1 as [|x l1 Hs IH Hx]; intros H2 Hcross; simpl.
  - exact H2.
  - constructor.
    + apply IH; [exact H2|]. intros a b Ha Hb. apply Hcross; [now right | exact Hb].
    + apply Forall_app. split; [exact Hx|].
      apply Forall_forall. intros b Hb. apply Hcross; [now left | exact Hb].
Qed.

(** The grouping loop meets the pairs in time order. *)
Lemma pairs_in_order_sorted (d : defaultdict Timespan DatasetRef) :
  StronglySorted (fun a b : Pair => timespan_leb (fst a) (fst b) = true)
                 (pairs_in_order d).
Proof.
  unfold pairs_in_order.
  assert (Hkeys : StronglySorted (fun a b => timespan_leb a b = true)
                                 (sorted timespan_leb (keys d))).
  { apply Sorted_StronglySorted.
    - intros a b c. apply timespan_leb_trans.
    - apply sorted_Sorted. intros a b. apply timespan_leb_total. }
  induction Hkeys as [|t ts Hs IH Ht]; simpl; [constructor|].
  apply StronglySorted_app; [|exact IH|].
  - induction (dd_get Timespan_eq_dec d t) as [|r rs IHr]; simpl;
      constructor; [exact IHr|].
    apply Forall_forall. intros p Hp. apply in_map_iff in Hp.
    destruct Hp as (r' & <- & _). simpl. apply timespan_leb_refl.
  - intros a b Ha Hb. apply in_map_iff in Ha. destruct Ha as (r & <- & _).
    apply in_flat_map in Hb. destruct Hb as (t' & Ht' & Hb).
    apply in_map_iff in Hb. destruct Hb as (r' & <- & _). simpl.
    rewrite Forall_forall in Ht. now apply Ht.
Qed.

(** X10.  The groups the correction works on.  There is one group per
    [(dataId, datasetType name)] key; a group is never empty; every pair of
    a group has the key of the group; and the pairs of a group are already
    in time order when the correction loop sorts them, so that the sort
    leaves the group as it is. *)
Theorem groups_by_key_in_order (d : defaultdict Timespan DatasetRef) :
  NoDup (keys (group_timespans d)) /\
  forall key g, In (key, g) (group_timespans d) ->
    g <> [] /\
    (forall pair, In pair g -> group_key (snd pair) = key) /\
    sort_by_timespan g = g.
Proof.
  split.
  - rewrite group_timespans_eq. apply store_all_NoDup. constructor.
  - intros key g Hin. split; [|split].
    + pose proof (group_timespans_nonempty d) as Hne.
      rewrite Forall_forall in Hne. apply Hne.
      apply in_map_iff. exists (key, g). now split.
    + rewrite group_timespans_eq in Hin. intros pair Hpair.
      refine (@store_all_forall _ _ GroupKey_eq_dec
                (fun k (p : Pair) => group_key (snd p) = k) _ _ _ _ key g pair
                Hin Hpair).
      * intros k v Hkv. apply in_map_iff in Hkv.
        destruct Hkv as (p & Heq & _). now inversion Heq.
      * intros k vs v [].
    + rewrite group_timespans_eq in Hin.
      unfold sort_by_timespan. apply sorted_of_Sorted.
      apply StronglySorted_Sorted.
      refine (@store_all_sorted _ _ GroupKey_eq_dec
                (fun a b : Pair => timespan_leb (fst a) (fst b) = true)
                _ _ _ _ key g Hin).
      * rewrite map_map. cbn [snd]. rewrite map_id.
        apply pairs_in_order_sorted.
      * intros k vs [].
Qed.

End GroupingMore.

(* ================================================================== *)
(** * More about [_queryGen2CalibRegistry] and [_finish] *)
(* ================================================================== *)

Section FinishMore.
Import Py Calib.
Context {fmt : Formatting}.
Variable self : CalibRepoConverter.
Variable world : World.

Local Abbreviation Pair := (Timespan * DatasetRef)%type.

(** The query with its column list computed: what is left is the choice
    on [tables]. *)
Lemma query_unfold_fields (datasetType : DatasetType) (calibDate : string)
    (tr : list Event) :
  has_dimension "physical_filter" datasetType = true
  \/ has_dimension "band" datasetType = false ->
  _queryGen2CalibRegistry self world datasetType calibDate tr
  = (let tables := mapper_tables self (name datasetType) in
     if no_tables tables then
       _ <- lift (subscript tables 0) ;;
       emit (Log WARN ("Could not extract calibration ranges for "
                       ++ name datasetType ++ " in " ++ root self
                       ++ "; no tables in Gen2 mapper.")%string) ;;;
       ret []
     else
       table <- lift (subscript tables 0) ;;
       emit (Execute (query_text self datasetType table) calibDate) ;;;
       match db_execute world (query_text self datasetType table) calibDate with
       | inl e =>
           emit (Log WARN ("Could not extract calibration ranges for "
                           ++ name datasetType ++ " in " ++ root self
                           ++ " from table " ++ table ++ ": " ++ e)%string) ;;;
           ret []
       | inr results => ret results
       end) tr.
Proof.
  intro Hdims.
  unfold _queryGen2CalibRegistry, query_text, query_fields.
  assert (Hfields :
    forall k : list string -> M (list Row),
      bind (if has_dimension "physical_filter" datasetType
            then ret (([ "validStart"; "validEnd" ]%string
                       ++ [if has_dimension "detector" datasetType
                           then ccdKey self
                           else ("NULL AS " ++ ccdKey self)%string])
                      ++ ["filter"%string])
            else if has_dimension "band" datasetType
                 then raise AssertionError
                 else ret (([ "validStart"; "validEnd" ]%string
                            ++ [if has_dimension "detector" datasetType
                                then ccdKey self
                                else ("NULL AS " ++ ccdKey self)%string])
                           ++ ["NULL AS filter"%string])) k tr
      = k ["validStart"%string; "validEnd"%string;
           if has_dimension "detector" datasetType
           then ccdKey self else ("NULL AS " ++ ccdKey self)%string;
           if has_dimension "physical_filter" datasetType
           then "filter"%string else "NULL AS filter"%string] tr).
  { intro k. destruct Hdims as [Hpf|Hband].
    - rewrite Hpf. reflexivity.
    - destruct (has_dimension "physical_filter" datasetType); [reflexivity|].
      rewrite Hband. reflexivity. }
  destruct (has_dimension "detector" datasetType); rewrite Hfields; reflexivity.
Qed.

(** The query of a dataset type with a table: its result and its trace. *)
Lemma query_table_run (datasetType : DatasetType) (calibDate : string)
    (tr : list Event) (table : string) (more : list string) :
  mapper_tables self (name datasetType) = Some (table :: more) ->
  has_dimension "physical_filter" datasetType = true
  \/ has_dimension "band" datasetType = false ->
  exists evs,
    _queryGen2CalibRegistry self world datasetType calibDate tr
    = (Ok match db_execute world (query_text self datasetType table) calibDate with
          | inr rows => rows
          | inl _ => []
          end,
       tr ++ evs).
Proof.
  intros Htables Hdims. rewrite (query_unfold_fields _ _ _ Hdims). cbv zeta.
  rewrite Htables. cbn [no_tables List.length Nat.eqb].
  unfold bind, lift, subscript, emit, ret. cbn [nth_error].
  destruct (db_execute world _ calibDate); eexists;
    rewrite <- ?app_assoc; reflexivity.
Qed.

(** A query that returns has passed the assertion on [band]. *)
Lemma query_Ok_dims (datasetType : DatasetType) (calibDate : string)
    (tr tr' : list Event) (rows : list Row) :
  _queryGen2CalibRegistry self world datasetType calibDate tr = (Ok rows, tr') ->
  has_dimension "physical_filter" datasetType = true
  \/ has_dimension "band" datasetType = false.
Proof.
  intro Hrun.
  destruct (has_dimension "physical_filter" datasetType) eqn:Hpf;
    [now left|].
  destruct (has_dimension "band" datasetType) eqn:Hband; [|now right].
  exfalso. unfold _queryGen2CalibRegistry in Hrun.
  rewrite Hpf, Hband in Hrun.
  destruct (has_dimension "detector" datasetType); discriminate.
Qed.

(** What a result of the query tells about the registry. *)
Lemma query_Ok_inv (datasetType : DatasetType) (calibDate : string)
    (tr tr' : list Event) (rows : list Row) :
  _queryGen2CalibRegistry self world datasetType calibDate tr = (Ok rows, tr') ->
  exists table more,
    mapper_tables self (name datasetType) = Some (table :: more) /\
    rows = match db_execute world (query_text self datasetType table) calibDate with
           | inr rows => rows
           | inl _ => []
           end.
Proof.
  intro Hrun. pose proof (query_Ok_dims _ _ _ Hrun) as Hdims.
  destruct (mapper_tables self (name datasetType)) as [[|table more]|] eqn:Ht.
  - exfalso. rewrite (query_unfold_fields _ _ _ Hdims), Ht in Hrun.
    discriminate.
  - exists table, more. split; [reflexivity|].
    destruct (query_table_run datasetType calibDate tr Ht Hdims) as [evs Hq].
    rewrite Hq in Hrun. now inversion Hrun.
  - exfalso. rewrite (query_unfold_fields _ _ _ Hdims), Ht in Hrun.
    discriminate.
Qed.

(** X11.  A dataset type with a table in the mapper (and no [band]
    dimension without [physical_filter]).  One query is executed, for the
    first table, selecting the detector and filter columns the dataset type
    has dimensions for and [NULL] for the others.  If sqlite accepts it its
    rows are the result and nothing is logged; if sqlite rejects it there
    is one warning and the result is no rows.  No exception either way. *)
Theorem query_with_table (datasetType : DatasetType) (calibDate : string)
    (tr : list Event) (table : string) (more : list string) :
  mapper_tables self (name datasetType) = Some (table :: more) ->
  has_dimension "physical_filter" datasetType = true
  \/ has_dimension "band" datasetType = false ->
  _queryGen2CalibRegistry self world datasetType calibDate tr
  = match db_execute world (query_text self datasetType table) calibDate with
    | inr rows =>
        (Ok rows, tr ++ [Execute (query_text self datasetType table) calibDate])
    | inl e =>
        (Ok [],
         tr ++ [Execute (query_text self datasetType table) calibDate;
                Log WARN ("Could not extract calibration ranges for "
                          ++ name datasetType ++ " in " ++ root self
                          ++ " from table " ++ table ++ ": " ++ e)%string])
    end.
Proof.
  intros Htables Hdims. rewrite (query_unfold_fields _ _ _ Hdims). cbv zeta.
  rewrite Htables. cbn [no_tables List.length Nat.eqb].
  unfold bind, lift, subscript, emit, ret. cbn [nth_error].
  destruct (db_execute world _ calibDate);
    rewrite <- ?app_assoc; reflexivity.
Qed.

(** ** Nothing is certified while the registry is read *)

Lemma quiet_ret (A : Type) (a : A) : quiet (ret a).
Proof. intro tr. exists []. rewrite app_nil_r. split; [reflexivity | constructor]. Qed.

Lemma quiet_raise (A : Type) (e : Exn) : quiet (@raise A e).
Proof. intro tr. exists []. rewrite app_nil_r. split; [reflexivity | constructor]. Qed.

Lemma quiet_lift (A : Type) (r : Res A) : quiet (lift r).
Proof. intro tr. exists []. rewrite app_nil_r. split; [reflexivity | constructor]. Qed.

Lemma quiet_emit (ev : Event) : is_certify ev = false -> quiet (emit ev).
Proof. intros Hev tr. exists [ev]. split; [reflexivity | now repeat constructor]. Qed.

Lemma quiet_bind (A B : Type) (c : M A) (k : A -> M B) :
  quiet c -> (forall a, quiet (k a)) -> quiet (bind c k).
Proof.
  intros Hc Hk tr. destruct (Hc tr) as (evs & Htr & Hevs). unfold bind.
  destruct (c tr) as [[a|e] tr1]; simpl in Htr; subst tr1.
  - destruct (Hk a (tr ++ evs)) as (evs' & Htr' & Hevs').
    exists (evs ++ evs'). rewrite Htr', app_assoc.
    split; [reflexivity | now apply Forall_app].
  - exists evs. now split.
Qed.

Lemma quiet_for_each (A S : Type) (body : S -> A -> M S) (xs : list A) :
  (forall s x, quiet (body s x)) -> forall s, quiet (for_each body xs s).
Proof.
  intro Hbody. induction xs as [|x xs IH]; intro s; simpl.
  - apply quiet_ret.
  - apply quiet_bind; [apply Hbody | exact IH].
Qed.

Lemma quiet_query (datasetType : DatasetType) (calibDate : string) :
  quiet (_queryGen2CalibRegistry self world datasetType calibDate).
Proof.
  unfold _queryGen2CalibRegistry. apply quiet_bind.
  - destruct (has_dimension "physical_filter" datasetType);
      [apply quiet_ret|].
    destruct (has_dimension "band" datasetType);
      [apply quiet_raise | apply quiet_ret].
  - intro fields.
    destruct (no_tables (mapper_tables self (name datasetType))).
    + apply quiet_bind; [apply quiet_lift|]. intros _.
      apply quiet_bind; [now apply quiet_emit|]. intros _. apply quiet_ret.
    + apply quiet_bind; [apply quiet_lift|]. intro table.
      apply quiet_bind; [now apply quiet_emit|]. intros _.
      destruct (db_execute world _ calibDate).
      * apply quiet_bind; [now apply quiet_emit|]. intros _. apply quiet_ret.
      * apply quiet_ret.
Qed.

Lemma quiet_join
    (datasets : list (DatasetType * list (option string * list FileDataset)))
    (d : defaultdict Timespan DatasetRef) :
  quiet (for_each (join_datasetType self world) datasets d).
Proof.
  apply quiet_for_each. clear. intros d [datasetType byDate].
  unfold join_datasetType. cbn [fst snd].
  destruct (negb (isCalibration datasetType)); [apply quiet_ret|].
  apply quiet_for_each. clear. intros d [calibDate files].
  unfold join_calibDate. cbn [fst snd].
  destruct calibDate as [calibDate|]; [|apply quiet_raise].
  apply quiet_bind; [apply quiet_query|]. intro rows.
  apply quiet_for_each. clear. intros d row. unfold join_row.
  match goal with
  | |- context [get DataCoordinate_eq_dec ?m ?k] =>
      destruct (get DataCoordinate_eq_dec m k)
  end.
  - apply quiet_ret.
  - apply quiet_bind; [now apply quiet_emit|]. intros _. apply quiet_ret.
Qed.

(** X12.  The trace of [_finish], however it ends: what it adds to the
    trace is a stretch of events without any [certify], followed by the
    [certify] calls.  Every call is for the converter's collection and
    passes at least one ref.  Whatever [_finish] itself raises (the missing
    registry file, an assertion, [tables[0]]) is raised before the first
    call, so that there is none when it raises: with a registry whose
    [certify] returns, as [certify_all] takes it to, a conversion that
    fails has certified nothing. *)
Theorem certify_comes_last
    (datasets : list (DatasetType * list (option string * list FileDataset)))
    (tr : list Event) :
  exists evs certs,
    snd (_finish self world datasets tr) = tr ++ evs ++ certs /\
    Forall (fun ev => is_certify ev = false) evs /\
    Forall (fun ev => is_certify ev = true) certs /\
    (forall e, fst (_finish self world datasets tr) = Raise e -> certs = []) /\
    (forall coll refs t, In (Certify coll refs t) certs ->
       coll = collection self /\ refs <> []).
Proof.
  remember (_finish self world datasets tr) as r eqn:Hr.
  unfold _finish in Hr.
  destruct (path_exists world (path_join (root self) "calibRegistry.sqlite3")).
  - cbn [negb] in Hr. unfold bind at 1 in Hr.
    destruct (quiet_join datasets [] tr) as (evs & Htr & Hevs).
    destruct (for_each (join_datasetType self world) datasets [] tr)
      as [[d|e] tr1]; cbn [snd] in Htr; subst tr1.
    + rewrite finish_timespans_eq in Hr. subst r. cbn [fst snd].
      set (st := after_groups no_correction (values (group_timespans d))).
      exists (evs ++ map (Log INFO) (sorted String.leb (info_messages st))
                  ++ map (Log WARN) (sorted String.leb (warn_messages st))),
             (map (certify_event self) (correctedRefsByTimespan st)).
      split; [now rewrite <- !app_assoc|]. split; [|split; [|split]].
      * apply Forall_app. split; [exact Hevs|]. apply Forall_app.
        split; apply Forall_forall; intros ev Hev; apply in_map_iff in Hev;
          destruct Hev as (m & <- & _); reflexivity.
      * apply Forall_forall. intros ev Hev. apply in_map_iff in Hev.
        destruct Hev as (item & <- & _). reflexivity.
      * intros e He. discriminate He.
      * intros coll refs t Hin. apply in_map_iff in Hin.
        destruct Hin as ([t' refs'] & Heq & Hin). unfold certify_event in Heq.
        cbn [fst snd] in Heq. inversion Heq; subst. split; [reflexivity|].
        assert (Hne : Forall (fun vs : list DatasetRef => vs <> [])
                             (values (correctedRefsByTimespan st))).
        { unfold st, after_groups. cbn [correctedRefsByTimespan no_correction].
          apply store_all_nonempty. constructor. }
        rewrite Forall_forall in Hne. apply Hne.
        apply in_map_iff. exists (t, refs). now split.
    + subst r. exists evs, []. cbn [fst snd]. rewrite app_nil_r.
      split; [reflexivity|]. split; [exact Hevs|]. split; [constructor|].
      split; [reflexivity|]. intros coll refs t [].
  - cbn [negb] in Hr. subst r. exists [], []. cbn [fst snd raise].
    rewrite app_nil_r.
    split; [reflexivity|]. split; [constructor|]. split; [constructor|].
    split; [reflexivity|]. intros coll refs t [].
Qed.

(** ** The join of registry rows and found datasets *)

Lemma get_setitem (K V : Type) (K_eq_dec : forall a b : K, {a = b} + {a <> b})
    (d : dict K V) (k k' : K) (v : V) :
  get K_eq_dec (setitem K_eq_dec d k v) k'
  = if K_eq_dec k' k then Some v else get K_eq_dec d k'.
Proof.
  induction d as [|[k0 v0] d IH]; simpl.
  - reflexivity.
  - destruct (K_eq_dec k k0) as [Heq|Hne]; simpl.
    + subst k0. destruct (K_eq_dec k' k); reflexivity.
    + rewrite IH. destruct (K_eq_dec k' k0) as [Heq0|Hne0].
      * subst k0. destruct (K_eq_dec k' k); [congruence | reflexivity].
      * reflexivity.
Qed.

(** [refsByDataId] maps a data ID to a ref with that data ID, taken from
    one of the datasets. *)
Lemma index_refs_sound (files : list FileDataset) (k : DataCoordinate)
    (ref : DatasetRef) :
  get DataCoordinate_eq_dec (index_refs files) k = Some ref ->
  dataId ref = k /\ exists dataset, In dataset files /\ In ref (refs dataset).
Proof.
  set (Q := fun r : DatasetRef =>
              exists dataset, In dataset files /\ In r (refs dataset)).
  set (P := fun d : dict DataCoordinate DatasetRef =>
              forall k r, get DataCoordinate_eq_dec d k = Some r ->
                          dataId r = k /\ Q r).
  assert (Hinner : forall rs d, (forall r, In r rs -> Q r) -> P d ->
            P (fold_left (fun d ref =>
                            setitem DataCoordinate_eq_dec d (dataId ref) ref)
                         rs d)).
  { induction rs as [|r rs IH]; simpl; intros d Hrs Hd; [exact Hd|].
    apply IH; [intros; apply Hrs; now right|].
    intros k0 r0. rewrite get_setitem.
    destruct (DataCoordinate_eq_dec k0 (dataId r)) as [->|Hne].
    - intro H. inversion H; subst. split; [reflexivity|]. apply Hrs. now left.
    - apply Hd. }
  assert (Houter : forall fs d,
            (forall f, In f fs -> In f files) -> P d ->
            P (fold_left
                 (fun d dataset =>
                    fold_left (fun d ref =>
                                 setitem DataCoordinate_eq_dec d (dataId ref) ref)
                              (refs dataset) d)
                 fs d)).
  { induction fs as [|f fs IH]; simpl; intros d Hfs Hd; [exact Hd|].
    apply IH; [intros; apply Hfs; now right|].
    apply Hinner; [|exact Hd].
    intros r Hr. exists f. split; [apply Hfs; now left | exact Hr]. }
  intro Hget. unfold index_refs in Hget.
  refine (Houter files [] _ _ k ref Hget); [now intros|].
  intros k0 r0 H. discriminate H.
Qed.

Lemma for_each_invariant_In (A S : Type) (P : S -> Prop) (body : S -> A -> M S)
    (xs : list A) :
  (forall s x tr s' tr', In x xs -> P s -> body s x tr = (Ok s', tr') -> P s') ->
  forall s tr s' tr',
    P s -> for_each body xs s tr = (Ok s', tr') -> P s'.
Proof.
  induction xs as [|x xs IH]; intros Hbody s tr s' tr' Hs Hrun.
  - simpl in Hrun. unfold ret in Hrun. inversion Hrun; subst. exact Hs.
  - simpl in Hrun. apply bind_Ok_inv in Hrun.
    destruct Hrun as (s1 & tr1 & H1 & H2).
    refine (IH _ s1 tr1 s' tr' _ H2).
    + intros s0 x0 tr0 s0' tr0' Hx. apply Hbody. now right.
    + refine (Hbody s x tr s1 tr1 _ Hs H1). now left.
Qed.

(** X13.  Whatever the join leaves in [refsByTimespan] comes from the
    registry and from the datasets that were found: each [(timespan, ref)]
    pair has a dataset type of [datasets] that is a calibration, one of its
    calibDates, a dataset found for that calibDate that holds the ref, and
    a row that the registry returned for that type's first table and that
    calibDate, such that the timespan is the row's validity range with the
    end date made exclusive, and the ref's data ID is the translation of
    the row's Gen2 data ID.  Nothing is invented and no row is paired with
    a dataset of another type or calibDate. *)
Theorem joined_pairs_sound
    (datasets : list (DatasetType * list (option string * list FileDataset)))
    (tr tr' : list Event) (d : defaultdict Timespan DatasetRef)
    (pair : Timespan * DatasetRef) :
  for_each (join_datasetType self world) datasets [] tr = (Ok d, tr') ->
  In pair (dd_pairs d) ->
  joined_from self world datasets pair.
Proof.
  intro Hrun. revert pair.
  refine (@for_each_invariant_In _ _
            (fun d => forall pair, In pair (dd_pairs d) ->
                                   joined_from self world datasets pair)
            _ _ _ _ _ _ _ _ Hrun); [|intros pair []].
  clear d tr tr' Hrun. intros d [datasetType byDate] tr d' tr' Hin Hd.
  unfold join_datasetType. cbn [fst snd].
  destruct (isCalibration datasetType) eqn:Hcal; cbn [negb].
  2: { unfold ret. intro H. inversion H; subst. exact Hd. }
  intro Hrun.
  refine (@for_each_invariant_In _ _
            (fun d => forall pair, In pair (dd_pairs d) ->
                                   joined_from self world datasets pair)
            _ _ _ _ _ _ _ Hd Hrun).
  clear d tr d' tr' Hd Hrun. intros d [calibDate files] tr d' tr' Hin2 Hd.
  unfold join_calibDate. cbn [fst snd].
  destruct calibDate as [calibDate|]; [|discriminate].
  intro H. apply bind_Ok_inv in H. destruct H as (rows & tr1 & Hq & Hrun).
  apply query_Ok_inv in Hq. destruct Hq as (table & more & Ht & Hrows).
  refine (@for_each_invariant_In _ _
            (fun d => forall pair, In pair (dd_pairs d) ->
                                   joined_from self world datasets pair)
            _ _ _ _ _ _ _ Hd Hrun).
  clear d tr tr1 d' tr' Hd Hrun. intros d row tr d' tr' Hrow Hd.
  unfold join_row.
  match goal with
  | |- context [get DataCoordinate_eq_dec ?m ?k] =>
      destruct (get DataCoordinate_eq_dec m k) as [ref|] eqn:Hget
  end.
  - unfold ret. intro H. inversion H; subst d' tr'. clear H. intros pair Hp.
    apply (Permutation_in _ (dd_append_pairs Timespan_eq_dec d _ ref)) in Hp.
    apply in_app_or in Hp. destruct Hp as [Hp | [<- | []]]; [now apply Hd|].
    apply index_refs_sound in Hget. destruct Hget as (Hid & dataset & Hds & Href).
    destruct (db_execute world (query_text self datasetType table) calibDate)
      as [e|rows'] eqn:Hdb; [subst rows; destruct Hrow|]. subst rows'.
    exists datasetType, byDate, calibDate, files, dataset, table, more, rows, row.
    cbn [fst snd]. repeat split; assumption.
  - unfold bind, emit, ret. intro H. inversion H; subst. exact Hd.
Qed.

(** A pair in [refsByTimespan] stays there. *)
Lemma join_row_keeps (datasetType : DatasetType) (calibDate : string)
    (index : dict DataCoordinate DatasetRef) (p : Pair)
    (d : defaultdict Timespan DatasetRef) (row : Row) (tr : list Event)
    (d' : defaultdict Timespan DatasetRef) (tr' : list Event) :
  In p (dd_pairs d) ->
  join_row self datasetType calibDate index d row tr = (Ok d', tr') ->
  In p (dd_pairs d').
Proof.
  intro Hp. unfold join_row.
  match goal with
  | |- context [get DataCoordinate_eq_dec ?m ?k] =>
      destruct (get DataCoordinate_eq_dec m k) as [ref|]
  end.
  - unfold ret. intro H. inversion H; subst.
    apply (Permutation_in _
             (Permutation_sym (dd_append_pairs Timespan_eq_dec d _ ref))).
    apply in_or_app. now left.
  - unfold bind, emit, ret. intro H. inversion H; subst. exact Hp.
Qed.

Lemma join_calibDate_keeps (datasetType : DatasetType) (p : Pair)
    (d : defaultdict Timespan DatasetRef)
    (item : option string * list FileDataset) (tr : list Event)
    (d' : defaultdict Timespan DatasetRef) (tr' : list Event) :
  In p (dd_pairs d) ->
  join_calibDate self world datasetType d item tr = (Ok d', tr') ->
  In p (dd_pairs d').
Proof.
  intro Hp. unfold join_calibDate. destruct (fst item) as [calibDate|];
    [|discriminate].
  intro H. apply bind_Ok_inv in H. destruct H as (rows & tr1 & _ & Hrun).
  refine (@for_each_invariant _ _ (fun d => In p (dd_pairs d))
            _ _ _ _ _ _ _ Hp Hrun).
  intros s x tr0 s' tr0' Hs. now apply join_row_keeps.
Qed.

Lemma join_datasetType_keeps (p : Pair) (d : defaultdict Timespan DatasetRef)
    (item : DatasetType * list (option string * list FileDataset))
    (tr : list Event) (d' : defaultdict Timespan DatasetRef)
    (tr' : list Event) :
  In p (dd_pairs d) ->
  join_datasetType self world d item tr = (Ok d', tr') ->
  In p (dd_pairs d').
Proof.
  intro Hp. unfold join_datasetType.
  destruct (negb (isCalibration (fst item))).
  - unfold ret. intro H. inversion H; subst. exact Hp.
  - intro Hrun.
    refine (@for_each_invariant _ _ (fun d => In p (dd_pairs d))
              _ _ _ _ _ _ _ Hp Hrun).
    intros s x tr0 s' tr0' Hs. now apply join_calibDate_keeps.
Qed.

(** What one iteration establishes and the others keep holds after the
    loop. *)
Lemma for_each_establish (A S : Type) (Q : S -> Prop) (body : S -> A -> M S)
    (x0 : A) (xs : list A) :
  (forall s x tr s' tr', Q s -> body s x tr = (Ok s', tr') -> Q s') ->
  (forall s tr s' tr', body s x0 tr = (Ok s', tr') -> Q s') ->
  In x0 xs ->
  forall s tr s' tr', for_each body xs s tr = (Ok s', tr') -> Q s'.
Proof.
  intros Hkeep Hest. induction xs as [|x xs IH]; intros Hin s tr s' tr' Hrun.
  - destruct Hin.
  - simpl in Hrun. apply bind_Ok_inv in Hrun.
    destruct Hrun as (s1 & tr1 & H1 & H2). destruct Hin as [->|Hin].
    + refine (@for_each_invariant _ _ Q body xs Hkeep s1 tr1 s' tr' _ H2).
      eapply Hest; eassumption.
    + eapply IH; eassumption.
Qed.

(** X14.  No match is missed.  When the join runs to its end, every row
    that the registry returned for a calibration dataset type of
    [datasets] and one of its calibDates, and whose translated data ID is
    found in [refsByDataId] for that calibDate, has its validity range and
    the ref that was found in [refsByTimespan]. *)
Theorem matching_rows_joined
    (datasets : list (DatasetType * list (option string * list FileDataset)))
    (tr tr' : list Event) (d : defaultdict Timespan DatasetRef)
    (datasetType : DatasetType)
    (byCalibDate : list (option string * list FileDataset))
    (calibDate : string) (files : list FileDataset)
    (table : string) (more : list string) (rows : list Row) (row : Row)
    (ref : DatasetRef) :
  for_each (join_datasetType self world) datasets [] tr = (Ok d, tr') ->
  In (datasetType, byCalibDate) datasets ->
  isCalibration datasetType = true ->
  In (Some calibDate, files) byCalibDate ->
  mapper_tables self (name datasetType) = Some (table :: more) ->
  db_execute world (query_text self datasetType table) calibDate = inr rows ->
  In row rows ->
  get DataCoordinate_eq_dec (index_refs files)
      (translate self datasetType (gen2id_of datasetType row)) = Some ref ->
  In (timespan_of row, ref) (dd_pairs d).
Proof.
  intros Hrun Hdt Hcal Hdate Ht Hdb Hrow Hget.
  refine (@for_each_establish _ _
            (fun d => In (timespan_of row, ref) (dd_pairs d))
            _ (datasetType, byCalibDate) datasets _ _ Hdt _ _ _ _ Hrun).
  { intros s x tr0 s' tr0' Hs. now apply join_datasetType_keeps. }
  clear d tr tr' Hrun. intros d tr d' tr'.
  unfold join_datasetType. cbn [fst snd]. rewrite Hcal. cbn [negb].
  intro Hrun.
  refine (@for_each_establish _ _
            (fun d => In (timespan_of row, ref) (dd_pairs d))
            _ (Some calibDate, files) byCalibDate _ _ Hdate _ _ _ _ Hrun).
  { intros s x tr0 s' tr0' Hs. now apply join_calibDate_keeps. }
  clear d tr d' tr' Hrun. intros d tr d' tr'.
  unfold join_calibDate. cbn [fst snd].
  intro H. apply bind_Ok_inv in H. destruct H as (rows' & tr1 & Hq & Hrun).
  apply query_Ok_inv in Hq. destruct Hq as (table' & more' & Ht' & Hrows').
  rewrite Ht in Ht'. inversion Ht'; subst table' more'.
  rewrite Hdb in Hrows'. subst rows'.
  refine (@for_each_establish _ _
            (fun d => In (timespan_of row, ref) (dd_pairs d))
            _ row rows _ _ Hrow _ _ _ _ Hrun).
  { intros s x tr0 s' tr0' Hs. now apply join_row_keeps. }
  clear d tr tr1 d' tr' Hrun. intros d tr d' tr'.
  unfold join_row. fold (gen2id_of datasetType row).
  change {| begin := validStart row; end_ := validEnd row + day |}
    with (timespan_of row).
  rewrite Hget. unfold ret. intro H. inversion H; subst.
  apply (Permutation_in _
           (Permutation_sym (dd_append_pairs Timespan_eq_dec d _ ref))).
  apply in_or_app. right. now left.
Qed.

(** ** When [_finish] returns *)

Lemma for_each_Ok (A S : Type) (body : S -> A -> M S) (xs : list A) :
  (forall s x tr, In x xs -> exists s' tr', body s x tr = (Ok s', tr')) ->
  forall s tr, exists s' tr', for_each body xs s tr = (Ok s', tr').
Proof.
  induction xs as [|x xs IH]; intros Hbody s tr.
  - exists s, tr. reflexivity.
  - destruct (Hbody s x tr) as (s1 & tr1 & H1); [now left|].
    destruct (IH (fun s0 x0 tr0 Hx => Hbody s0 x0 tr0 (or_intror Hx)) s1 tr1)
      as (s' & tr' & H2).
    exists s', tr'. simpl. unfold bind. rewrite H1. exact H2.
Qed.

Lemma for_each_Ok_inv (A S : Type) (body : S -> A -> M S) (xs : list A)
    (s : S) (tr : list Event) (s' : S) (tr' : list Event) (x : A) :
  for_each body xs s tr = (Ok s', tr') -> In x xs ->
  exists s0 tr0 s1 tr1, body s0 x tr0 = (Ok s1, tr1).
Proof.
  revert s tr. induction xs as [|x0 xs IH]; intros s tr Hrun Hin.
  - destruct Hin.
  - simpl in Hrun. apply bind_Ok_inv in Hrun.
    destruct Hrun as (s1 & tr1 & H1 & H2). destruct Hin as [->|Hin].
    + now exists s, tr, s1, tr1.
    + eapply IH; eassumption.
Qed.

(** X15.  When [_finish] returns normally, exactly: the registry file is
    there, and every calibration dataset type of [datasets] has, for each
    of its entries, a calibDate, a table in the mapper and no [band]
    dimension without [physical_filter].  Neither a query that sqlite
    rejects, nor a row without a dataset, nor any set of validity ranges
    makes it raise; a calibration dataset type without entries is not
    looked up in the mapper.  This is for the environment [World] and
    [CalibRepoConverter] describe: [sqlite3.connect] succeeds on the file,
    [db.execute] raises nothing but [OperationalError], the mapper has a
    mapping for every dataset type, and the translator, the parsing of
    times, the logger and [certify] return. *)
Theorem finish_returns_exactly
    (datasets : list (DatasetType * list (option string * list FileDataset)))
    (tr : list Event) :
  fst (_finish self world datasets tr) = Ok tt
  <-> path_exists world (path_join (root self) "calibRegistry.sqlite3") = true
      /\ Forall (convertible self) datasets.
Proof.
  split.
  - intro Hok. unfold _finish in Hok.
    destruct (path_exists world (path_join (root self) "calibRegistry.sqlite3"));
      cbn [negb] in Hok; [|discriminate Hok].
    split; [reflexivity|]. unfold bind at 1 in Hok.
    destruct (for_each (join_datasetType self world) datasets [] tr)
      as [[d|e] tr1] eqn:Hjoin; [clear Hok|discriminate Hok].
    apply Forall_forall. intros [datasetType byDate] Hin Hcal entry Hentry.
    cbn [fst snd] in *.
    destruct (@for_each_Ok_inv _ _ _ _ _ _ _ _ _ Hjoin Hin) as (d0 & tr0 & d1 & tr2 & Hbody).
    unfold join_datasetType in Hbody. cbn [fst snd] in Hbody.
    rewrite Hcal in Hbody. cbn [negb] in Hbody.
    destruct (@for_each_Ok_inv _ _ _ _ _ _ _ _ _ Hbody Hentry)
      as (d2 & tr3 & d3 & tr4 & Hdate).
    unfold join_calibDate in Hdate.
    destruct (fst entry) as [calibDate|]; [|discriminate Hdate].
    apply bind_Ok_inv in Hdate. destruct Hdate as (rows & tr5 & Hq & _).
    split; [discriminate|]. split.
    + apply query_Ok_inv in Hq. destruct Hq as (table & more & Ht & _).
      rewrite Ht. reflexivity.
    + exact (query_Ok_dims _ _ _ Hq).
  - intros [Hexists Hall]. rewrite Forall_forall in Hall.
    assert (Hjoin : exists d tr1,
              for_each (join_datasetType self world) datasets [] tr = (Ok d, tr1)).
    { apply for_each_Ok. intros d [datasetType byDate] tr0 Hin.
      specialize (Hall _ Hin). unfold convertible in Hall. cbn [fst snd] in Hall.
      unfold join_datasetType. cbn [fst snd].
      destruct (isCalibration datasetType); cbn [negb];
        [|eexists; eexists; reflexivity].
      apply for_each_Ok. intros d1 [calibDate files] tr1 Hin1.
      destruct (Hall eq_refl _ Hin1) as (Hdate & Hnt & Hdims).
      cbn [fst] in Hdate.
      unfold join_calibDate. cbn [fst snd].
      destruct calibDate as [calibDate|]; [|congruence].
      destruct (mapper_tables self (name datasetType)) as [[|table more]|] eqn:Ht;
        try discriminate Hnt.
      destruct (query_table_run datasetType calibDate tr1 Ht Hdims) as [evs Hq].
      unfold bind at 1. rewrite Hq.
      apply for_each_Ok. intros d2 row tr2 _. unfold join_row.
      match goal with
      | |- context [get DataCoordinate_eq_dec ?m ?k] =>
          destruct (get DataCoordinate_eq_dec m k)
      end; eexists; eexists; reflexivity. }
    destruct Hjoin as (d & tr1 & Hjoin).
    unfold _finish. rewrite Hexists. cbn [negb]. unfold bind at 1.
    rewrite Hjoin, finish_timespans_eq. reflexivity.
Qed.

Lemma join_filter
    (datasets : list (DatasetType * list (option string * list FileDataset)))
    (d : defaultdict Timespan DatasetRef) (tr : list Event) :
  for_each (join_datasetType self world) datasets d tr
  = for_each (join_datasetType self world)
             (filter (fun item => isCalibration (fst item)) datasets) d tr.
Proof.
  revert d tr. induction datasets as [|[datasetType byDate] ds IH];
    intros d tr; [reflexivity|].
  cbn [filter fst]. destruct (isCalibration datasetType) eqn:Hcal.
  - cbn [for_each]. unfold bind.
    destruct (join_datasetType self world d (datasetType, byDate) tr)
      as [[d1|e] tr1]; [apply IH | reflexivity].
  - cbn [for_each]. unfold bind. unfold join_datasetType at 1.
    cbn [fst snd]. rewrite Hcal. cbn [negb]. unfold ret. apply IH.
Qed.

(** X16.  Dataset types that are not calibrations play no part in
    [_finish]: its result and its trace are those of the calibration
    dataset types alone.  In particular such a type is never queried for,
    and its entries without a calibDate do not trip the assertion. *)
Theorem noncalibration_skipped
    (datasets : list (DatasetType * list (option string * list FileDataset)))
    (tr : list Event) :
  _finish self world datasets tr
  = _finish self world
      (filter (fun item => isCalibration (fst item)) datasets) tr.
Proof.
  unfold _finish.
  destruct (path_exists world (path_join (root self) "calibRegistry.sqlite3"));
    cbn [negb]; [|reflexivity].
  unfold bind. now rewrite join_filter.
Qed.

End FinishMore.

(* ================================================================== *)
(** * The theorems at work on the small repository *)
(* ================================================================== *)

Section Examples.
Import Py Scanner Calib Sample.


(** The mapper names no table for [flat]. *)
Lemma query_without_tables_raises_witness :
  let self := converter_without_tables in
  let datasetType := flat in
  let calibDate := "2020-01-01"%string in
  let tr := @nil Event in
  (no_tables (mapper_tables self (name datasetType)) = true /\
   (has_dimension "physical_filter" datasetType = true
    \/ has_dimension "band" datasetType = false)) /\
  exists e,
    (mapper_tables self (name datasetType) = None /\ e = TypeError
     \/ mapper_tables self (name datasetType) = Some [] /\ e = IndexError) /\
    _queryGen2CalibRegistry self world datasetType calibDate tr = (Raise e, tr) /\
    (forall files more rest,
       isCalibration datasetType = true ->
       path_exists world (path_join (root self) "calibRegistry.sqlite3") = true ->
       _finish self world
         ((datasetType, (Some calibDate, files) :: more) :: rest) tr
       = (Raise e, tr)).
Proof.
  cbv zeta. split.
  - split; [reflexivity | left; reflexivity].
  - apply (@query_without_tables_raises formatting converter_without_tables world
             flat "2020-01-01" []); [reflexivity | left; reflexivity].
Defined.

(** C2 as the specification states it fails on three ranges: [jan02_1am]
    begins an hour after [jan01] ends, so the gap is closed, and yet
    [jan02_1am] is not left unchanged, because [jan04_1am] begins an hour
    after it ends. *)
Lemma gap_closure_counterexample :
  let g := [(jan01, flat_jan01); (jan02_1am, flat_jan03);
            (jan04_1am, flat_jan20)] in
  sort_by_timespan g
    = [] ++ (jan01, flat_jan01) :: (jan02_1am, flat_jan03)
         :: [(jan04_1am, flat_jan20)] /\
  0 < begin jan02_1am - end_ jan01 /\
  begin jan02_1am - end_ jan01 < fuzzy_day /\
  nth_error (corrected_pairs (sort_by_timespan g)) 0
    = Some ({| begin := days 0; end_ := days 1 + 3600000 |}, flat_jan01) /\
  nth_error (corrected_pairs (sort_by_timespan g)) 1
    = Some ({| begin := days 1 + 3600000; end_ := days 3 + 3600000 |},
            flat_jan03) /\
  nth_error (corrected_pairs (sort_by_timespan g)) 1
    <> Some (jan02_1am, flat_jan03).
Proof.
  cbv zeta. split; [reflexivity|]. split; [reflexivity|].
  split; [reflexivity|]. split; [reflexivity|]. split; [reflexivity|].
  vm_compute. discriminate.
Qed.

(** The same three ranges, for the amended statement. *)
Lemma gap_closure_witness :
  let st := no_correction in
  let g := [(jan01, flat_jan01); (jan02_1am, flat_jan03);
            (jan04_1am, flat_jan20)] in
  let pre := @nil (Timespan * DatasetRef) in
  let post := [(jan04_1am, flat_jan20)] in
  let ra := flat_jan01 in
  let rb := flat_jan03 in
  let t0 := days 0 in
  let t1 := days 1 in
  let delta := 3600000 in
  let t2 := days 3 in
  let A := {| begin := t0; end_ := t1 |} in
  let B := {| begin := t1 + delta; end_ := t2 |} in
  let A' := {| begin := t0; end_ := t1 + delta |} in
  (sort_by_timespan g = pre ++ (A, ra) :: (B, rb) :: post /\
   0 < delta /\ delta < fuzzy_day) /\
  correct_iteration st (A, ra) (B, rb)
    = ({| correctedRefsByTimespan :=
            dd_append Timespan_eq_dec (correctedRefsByTimespan st) A' ra;
          info_messages := set_add (info_messages st) (gap_message A B);
          warn_messages := warn_messages st |},
       (B, rb)) /\
  correct_group st g = Ok (after_group st g) /\
  In (gap_message A B) (info_messages (after_group st g)) /\
  nth_error (corrected_pairs (sort_by_timespan g)) (List.length pre)
    = Some (A', ra) /\
  (exists e,
     nth_error (corrected_pairs (sort_by_timespan g)) (S (List.length pre))
       = Some ({| begin := t1 + delta; end_ := e |}, rb) /\
     (post = [] -> e = t2) /\
     (forall c post', post = c :: post' ->
        fuzzy_day <= Z.abs (begin (fst c) - t2) -> e = t2) /\
     (forall c post', post = c :: post' ->
        Z.abs (begin (fst c) - t2) < fuzzy_day -> e = begin (fst c))) /\
  (pre = [] -> post = [] ->
   corrected_pairs (sort_by_timespan g) = [(A', ra); (B, rb)]).
Proof.
  cbv zeta. split.
  - split; [reflexivity | split; [reflexivity | reflexivity]].
  - apply (@gap_closure formatting no_correction
             [(jan01, flat_jan01); (jan02_1am, flat_jan03);
              (jan04_1am, flat_jan20)]
             [] [(jan04_1am, flat_jan20)]
             flat_jan01 flat_jan03 (days 0) (days 1) 3600000 (days 3));
      reflexivity.
Defined.

(** C3 as the specification states it fails on three ranges: [jan03_noon]
    begins half a day before [jan01_03] ends, so the overlap is trimmed,
    and yet [jan03_noon] is not left untouched, because [jan07_1am] begins
    an hour after it ends. *)
Lemma overlap_trimming_counterexample :
  let g := [(jan01_03, flat_jan01); (jan03_noon, flat_jan03);
            (jan07_1am, flat_jan20)] in
  sort_by_timespan g
    = [] ++ (jan01_03, flat_jan01) :: (jan03_noon, flat_jan03)
         :: [(jan07_1am, flat_jan20)] /\
  begin jan03_noon < end_ jan01_03 /\
  end_ jan01_03 - begin jan03_noon < fuzzy_day /\
  nth_error (corrected_pairs (sort_by_timespan g)) 0
    = Some ({| begin := days 0; end_ := days 2 + 43200000 |}, flat_jan01) /\
  nth_error (corrected_pairs (sort_by_timespan g)) 1
    = Some ({| begin := days 2 + 43200000; end_ := days 6 + 3600000 |},
            flat_jan03) /\
  nth_error (corrected_pairs (sort_by_timespan g)) 1
    <> Some (jan03_noon, flat_jan03).
Proof.
  cbv zeta. split; [reflexivity|]. split; [reflexivity|].
  split; [reflexivity|]. split; [reflexivity|]. split; [reflexivity|].
  vm_compute. discriminate.
Qed.

(** The same three ranges, for the amended statement. *)
Lemma overlap_trimming_witness :
  let st := no_correction in
  let g := [(jan01_03, flat_jan01); (jan03_noon, flat_jan03);
            (jan07_1am, flat_jan20)] in
  let pre := @nil (Timespan * DatasetRef) in
  let post := [(jan07_1am, flat_jan20)] in
  let ra := flat_jan01 in
  let rb := flat_jan03 in
  let t0 := days 0 in
  let t1 := days 2 + 43200000 in
  let t2 := days 3 in
  let t3 := days 6 in
  let A := {| begin := t0; end_ := t2 |} in
  let B := {| begin := t1; end_ := t3 |} in
  let A' := {| begin := t0; end_ := t1 |} in
  (sort_by_timespan g = pre ++ (A, ra) :: (B, rb) :: post /\
   t1 < t2 /\ t2 - t1 < fuzzy_day) /\
  correct_iteration st (A, ra) (B, rb)
    = ({| correctedRefsByTimespan :=
            dd_append Timespan_eq_dec (correctedRefsByTimespan st) A' ra;
          info_messages := info_messages st;
          warn_messages :=
            set_add (warn_messages st) (overlap_message (t1 - t2) A B) |},
       (B, rb)) /\
  correct_group st g = Ok (after_group st g) /\
  In (overlap_message (t1 - t2) A B) (warn_messages (after_group st g)) /\
  nth_error (corrected_pairs (sort_by_timespan g)) (List.length pre)
    = Some (A', ra) /\
  t0 <= t1 /\
  (exists e,
     nth_error (corrected_pairs (sort_by_timespan g)) (S (List.length pre))
       = Some ({| begin := t1; end_ := e |}, rb) /\
     (post = [] -> e = t3) /\
     (forall c post', post = c :: post' ->
        fuzzy_day <= Z.abs (begin (fst c) - t3) -> e = t3) /\
     (forall c post', post = c :: post' ->
        Z.abs (begin (fst c) - t3) < fuzzy_day -> e = begin (fst c))) /\
  (pre = [] -> post = [] ->
   corrected_pairs (sort_by_timespan g) = [(A', ra); (B, rb)]) /\
  (Forall well_formed (map fst g) ->
   Forall well_formed (map fst (corrected_pairs (sort_by_timespan g)))).
Proof.
  cbv zeta. split.
  - split; [reflexivity | split; [reflexivity | reflexivity]].
  - apply (@overlap_trimming formatting no_correction
             [(jan01_03, flat_jan01); (jan03_noon, flat_jan03);
              (jan07_1am, flat_jan20)]
             [] [(jan07_1am, flat_jan20)]
             flat_jan01 flat_jan03 (days 0) (days 2 + 43200000) (days 3) (days 6));
      reflexivity.
Defined.

(** C4 as the specification states it fails on three ranges: [jan20_25] begins
    weeks after [jan01] ends, so the pair is a large discontinuity, and yet
    [jan20_25] is stored with its end moved, because the next range begins
    an hour after it ends. *)
Lemma large_discontinuity_counterexample :
  let g := [(jan01, flat_jan01); (jan20_25, flat_jan20);
            (jan26_1am, flat_jan03)] in
  sort_by_timespan g
    = [] ++ (jan01, flat_jan01) :: (jan20_25, flat_jan20)
         :: [(jan26_1am, flat_jan03)] /\
  fuzzy_day <= Z.abs (begin jan20_25 - end_ jan01) /\
  nth_error (corrected_pairs (sort_by_timespan g)) 0
    = Some (jan01, flat_jan01) /\
  nth_error (corrected_pairs (sort_by_timespan g)) 1
    = Some ({| begin := days 19; end_ := days 25 + 3600000 |}, flat_jan20) /\
  nth_error (corrected_pairs (sort_by_timespan g)) 1
    <> Some (jan20_25, flat_jan20).
Proof.
  cbv zeta. split; [reflexivity|]. split; [vm_compute; discriminate|].
  split; [reflexivity|]. split; [reflexivity|].
  vm_compute. discriminate.
Qed.

(** The same three ranges, for the amended statement. *)
Lemma large_discontinuity_witness :
  let st := no_correction in
  let g := [(jan01, flat_jan01); (jan20_25, flat_jan20);
            (jan26_1am, flat_jan03)] in
  let pre := @nil (Timespan * DatasetRef) in
  let post := [(jan26_1am, flat_jan03)] in
  let a := (jan01, flat_jan01) in
  let b := (jan20_25, flat_jan20) in
  (sort_by_timespan g = pre ++ a :: b :: post /\
   fuzzy_day <= Z.abs (begin (fst b) - end_ (fst a))) /\
  correct_iteration st a b
    = ({| correctedRefsByTimespan :=
            dd_append Timespan_eq_dec (correctedRefsByTimespan st)
                      (fst a) (snd a);
          info_messages := info_messages st;
          warn_messages := warn_messages st |},
       b) /\
  correct_group st g = Ok (after_group st g) /\
  nth_error (corrected_pairs (sort_by_timespan g)) (List.length pre) = Some a /\
  (exists e,
     nth_error (corrected_pairs (sort_by_timespan g)) (S (List.length pre))
       = Some ({| begin := begin (fst b); end_ := e |}, snd b) /\
     (post = [] -> e = end_ (fst b)) /\
     (forall c post', post = c :: post' ->
        fuzzy_day <= Z.abs (begin (fst c) - end_ (fst b)) -> e = end_ (fst b)) /\
     (forall c post', post = c :: post' ->
        Z.abs (begin (fst c) - end_ (fst b)) < fuzzy_day -> e = begin (fst c))) /\
  (pre = [] -> post = [] -> corrected_pairs (sort_by_timespan g) = [a; b]).
Proof.
  cbv zeta.
  assert (Hfar : fuzzy_day <= Z.abs (begin jan20_25 - end_ jan01))
    by (vm_compute; discriminate).
  split.
  - split; [reflexivity | exact Hfar].
  - apply (@large_discontinuity formatting no_correction
             [(jan01, flat_jan01); (jan20_25, flat_jan20);
              (jan26_1am, flat_jan03)]
             [] [(jan26_1am, flat_jan03)]
             (jan01, flat_jan01) (jan20_25, flat_jan20));
      [reflexivity | exact Hfar].
Defined.

(** Ranges that are already contiguous, and one far away. *)
Lemma correction_idempotent_witness :
  let d := corrected_ranges in
  (NoDup (keys d) /\
   (forall g, In g (values (group_timespans d)) -> already_corrected g)) /\
  (forall g, In g (values (group_timespans d)) ->
     corrected_pairs (sort_by_timespan g) = sort_by_timespan g /\
     Permutation (corrected_pairs (sort_by_timespan g)) g) /\
  exists st,
    correct_groups no_correction (values (group_timespans d)) = Ok st /\
    Permutation (dd_pairs (correctedRefsByTimespan st)) (dd_pairs d).
Proof.
  cbv zeta.
  assert (Hnd : NoDup (keys corrected_ranges)).
  { repeat constructor; simpl; intuition discriminate. }
  assert (Hall : forall g, In g (values (group_timespans corrected_ranges)) ->
                           already_corrected g).
  { intros g Hg.
    assert (Hgroups : values (group_timespans corrected_ranges)
                      = [[({| begin := days 0; end_ := days 2 |}, flat_jan01);
                          (jan03_05, flat_jan03); (jan20_25, flat_jan20)]])
      by reflexivity.
    rewrite Hgroups in Hg. destruct Hg as [Hg|[]]. subst g.
    unfold already_corrected.
    assert (Hts : map fst (sort_by_timespan
                    [({| begin := days 0; end_ := days 2 |}, flat_jan01);
                     (jan03_05, flat_jan03); (jan20_25, flat_jan20)])
                  = [{| begin := days 0; end_ := days 2 |}; jan03_05; jan20_25])
      by reflexivity.
    rewrite Hts.
    unfold well_formed, disjoint, contiguous_if_adjacent, jan03_05, jan20_25,
      days, day, fuzzy_day.
    split; [|split].
    - repeat constructor; simpl; lia.
    - repeat constructor; simpl; lia.
    - repeat constructor; simpl; lia. }
  split.
  - split; [exact Hnd | exact Hall].
  - apply (@correction_idempotent formatting corrected_ranges Hnd Hall).
Defined.

(** The whole of [_finish] on a repository with one flat to which the
    registry gives two validity ranges. *)
Lemma commit_complete_witness :
  let self := converter in
  let tr := @nil Event in
  let tr1 :=
    [Execute
       "SELECT DISTINCT validStart, validEnd, ccd, filter FROM flat WHERE calibDate = ?;"
       "2020-01-01"] in
  let d := [(jan01, [flat_jan01]); (jan31_feb10, [flat_jan01])] in
  (path_exists world_two_rows (path_join (root self) "calibRegistry.sqlite3")
     = true /\
   for_each (join_datasetType self world_two_rows) flat_of_jan01 [] tr
     = (Ok d, tr1)) /\
  exists corrected infos warns,
    correct_groups no_correction (values (group_timespans d))
      = Ok {| correctedRefsByTimespan := corrected;
              info_messages := infos; warn_messages := warns |} /\
    _finish self world_two_rows flat_of_jan01 tr
      = (Ok tt,
         tr1 ++ map (Log INFO) (sorted String.leb infos)
             ++ map (Log WARN) (sorted String.leb warns)
             ++ map (certify_event self) corrected) /\
    NoDup (keys corrected) /\
    Permutation (map (fun p => (begin (fst p), snd p)) (dd_pairs corrected))
                (map (fun p => (begin (fst p), snd p)) (dd_pairs d)) /\
    Permutation (List.concat (values corrected)) (map snd (dd_pairs d)).
Proof.
  cbv zeta. split.
  - split; reflexivity.
  - apply (@commit_complete formatting converter world_two_rows flat_of_jan01 []
             [Execute
                "SELECT DISTINCT validStart, validEnd, ccd, filter FROM flat WHERE calibDate = ?;"
                "2020-01-01"]
             [(jan01, [flat_jan01]); (jan31_feb10, [flat_jan01])]);
      reflexivity.
Defined.

(** C6 as the specification states it fails when the registry has two
    validity ranges for one dataset: the one flat that was found is joined
    to both rows and certified in two intervals. *)
Lemma commit_complete_counterexample :
  let query :=
    "SELECT DISTINCT validStart, validEnd, ccd, filter FROM flat WHERE calibDate = ?;"%string in
  path_exists world_two_rows (path_join (root converter) "calibRegistry.sqlite3")
    = true /\
  for_each (join_datasetType converter world_two_rows) flat_of_jan01 [] []
    = (Ok [(jan01, [flat_jan01]); (jan31_feb10, [flat_jan01])],
       [Execute query "2020-01-01"]) /\
  _finish converter world_two_rows flat_of_jan01 []
    = (Ok tt,
       [Execute query "2020-01-01";
        Certify "Cam/calib" [flat_jan01] jan01;
        Certify "Cam/calib" [flat_jan01] jan31_feb10]) /\
  jan01 <> jan31_feb10.
Proof.
  cbv zeta. split; [reflexivity|]. split; [reflexivity|].
  split; [reflexivity|]. vm_compute. discriminate.
Qed.

(** The small repository without its registry file. *)
Lemma missing_registry_aborts_witness :
  let self := converter in
  let tr := @nil Event in
  path_exists empty_root (path_join (root self) "calibRegistry.sqlite3") = false /\
  _finish self empty_root datasets tr
    = (Raise (RuntimeError
                ("Attempting to convert calibrations but no registry database"
                 ++ " found in " ++ root self)%string),
       tr) /\
  (forall ev, In ev (snd (_finish self empty_root datasets tr)) -> In ev tr).
Proof.
  cbv zeta. split.
  - reflexivity.
  - apply (@missing_registry_aborts formatting converter empty_root datasets []).
    reflexivity.
Defined.

(** A listing with the registry file and a directory, scanned with the
    three handlers: the literal handler is asked about the file. *)
Lemma handlers_see_their_kind_witness :
  let hs := handlers in
  let path := "repo"%string in
  let entries :=
    [{| entry_name := "registry.sqlite3"; entry_path := "repo/registry.sqlite3";
        is_file := true; is_dir := false |};
     {| entry_name := "FLAT"; entry_path := "repo/FLAT";
        is_file := false; is_dir := true |}] in
  let sc := add_all (new_scanner (list string) unit) hs in
  let e := {| entry_name := "registry.sqlite3";
              entry_path := "repo/registry.sqlite3";
              is_file := true; is_dir := false |} in
  let h := literal true "registry.sqlite3" in
  let att := [(h, true)] in
  (In (e, att) (calls (fst (scan sc path entries (@nil string) tt))) /\
   In (h, true) att) /\
  In h hs /\
  isForFiles h = is_file e /\
  (isForFiles h = false -> is_dir e = true).
Proof.
  cbv zeta.
  assert (Hcalls :
    In ({| entry_name := "registry.sqlite3";
           entry_path := "repo/registry.sqlite3";
           is_file := true; is_dir := false |},
        [(literal true "registry.sqlite3", true)])
       (calls (fst (scan (add_all (new_scanner (list string) unit) handlers)
                         "repo"
                         [{| entry_name := "registry.sqlite3";
                             entry_path := "repo/registry.sqlite3";
                             is_file := true; is_dir := false |};
                          {| entry_name := "FLAT"; entry_path := "repo/FLAT";
                             is_file := false; is_dir := true |}]
                         (@nil string) tt)))).
  { left. reflexivity. }
  assert (Hatt : In (literal true "registry.sqlite3", true)
                    [(literal true "registry.sqlite3", true)]).
  { left. reflexivity. }
  split.
  - split; [exact Hcalls | exact Hatt].
  - exact (@handlers_see_their_kind (list string) unit handlers "repo" _ [] tt
             _ _ _ _ Hcalls Hatt).
Defined.

(** The two file handlers on a file only the wildcard takes. *)
Lemma first_match_alone_updates_witness :
  let pool := [literal true "registry.sqlite3"; wildcard true 2] in
  let e := {| entry_name := "FLAT-01.fits"; entry_path := "repo/FLAT-01.fits";
              is_file := true; is_dir := false |} in
  let ds := @nil string in
  let p := tt in
  Forall well_behaved pool /\
  ((fst (fst (try_handlers pool e ds p)) = false /\
    snd (fst (try_handlers pool e ds p)) = ds /\
    forall h, In h pool ->
      fst (call h (entry_path e) (entry_name e) ds p) = false)
   \/
   (fst (fst (try_handlers pool e ds p)) = true /\
    exists pre hm rest,
      pool = pre ++ hm :: rest /\
      (forall h, In h pre ->
         fst (call h (entry_path e) (entry_name e) ds p) = false) /\
      call hm (entry_path e) (entry_name e) ds p
        = (true, snd (fst (try_handlers pool e ds p))))).
Proof.
  cbv zeta.
  assert (Hwb : Forall well_behaved
                       [literal true "registry.sqlite3"; wildcard true 2]).
  { constructor; [|constructor; [|constructor]].
    - intros path name ds p. unfold literal. cbn [call].
      destruct (String.eqb name "registry.sqlite3"); cbn [fst snd];
        [discriminate | reflexivity].
    - intros path name ds p. unfold wildcard. cbn [call fst]. discriminate. }
  split; [exact Hwb|].
  exact (@first_match_alone_updates (list string) unit _
           {| entry_name := "FLAT-01.fits"; entry_path := "repo/FLAT-01.fits";
              is_file := true; is_dir := false |} [] tt Hwb).
Defined.

(** The two flats of the small repository, a day apart. *)
Lemma no_small_discontinuity_left_witness :
  let st := no_correction in
  let g := [(jan03_05, flat_jan03); (jan01, flat_jan01)] in
  g <> [] /\
  exists stored,
    correct_group st g
      = Ok {| correctedRefsByTimespan :=
                store_all Timespan_eq_dec (correctedRefsByTimespan st) stored;
              info_messages := info_messages (after_group st g);
              warn_messages := warn_messages (after_group st g) |} /\
    List.length stored = List.length g /\
    Sorted settled (map fst stored).
Proof.
  cbv zeta.
  assert (Hne : [(jan03_05, flat_jan03); (jan01, flat_jan01)] <> [])
    by discriminate.
  split; [exact Hne|].
  exact (@no_small_discontinuity_left formatting no_correction
           [(jan03_05, flat_jan03); (jan01, flat_jan01)] Hne).
Defined.

(** The two flats of the small repository, latest first. *)
Lemma corrected_twice_witness :
  let g := [(jan03_05, flat_jan03); (jan01, flat_jan01)] in
  NoDup (map (fun p : Timespan * DatasetRef => begin (fst p)) g) /\
  sort_by_timespan (corrected_pairs (sort_by_timespan g))
    = corrected_pairs (sort_by_timespan g) /\
  corrected_pairs (sort_by_timespan (corrected_pairs (sort_by_timespan g)))
    = corrected_pairs (sort_by_timespan g).
Proof.
  cbv zeta.
  assert (Hnd : NoDup (map (fun p : Timespan * DatasetRef => begin (fst p))
                           [(jan03_05, flat_jan03); (jan01, flat_jan01)])).
  { cbn [map fst begin jan03_05 jan01]. unfold days, day.
    constructor; [intros [H|[]]; discriminate H|].
    constructor; [intros []|constructor]. }
  split; [exact Hnd|].
  exact (@corrected_twice [(jan03_05, flat_jan03); (jan01, flat_jan01)] Hnd).
Defined.

(** A range that ends on the instant the next begins, and a third that
    begins an hour after the second ends. *)
Lemma contiguous_pair_warns_witness :
  let st := no_correction in
  let a := ({| begin := days 0; end_ := days 2 |}, flat_jan01) in
  let b := (jan03_05, flat_jan03) in
  let g := [b; (jan06_1am, flat_jan20); a] in
  let pre := @nil (Timespan * DatasetRef) in
  let post := [(jan06_1am, flat_jan20)] in
  (sort_by_timespan g = pre ++ a :: b :: post /\
   begin (fst b) = end_ (fst a)) /\
  correct_iteration st a b
    = ({| correctedRefsByTimespan :=
            dd_append Timespan_eq_dec (correctedRefsByTimespan st)
                      (fst a) (snd a);
          info_messages := info_messages st;
          warn_messages :=
            set_add (warn_messages st) (overlap_message 0 (fst a) (fst b)) |},
       b) /\
  nth_error (corrected_pairs (sort_by_timespan g)) (List.length pre) = Some a /\
  In (overlap_message 0 (fst a) (fst b)) (warn_messages (after_group st g)) /\
  (exists e,
     nth_error (corrected_pairs (sort_by_timespan g)) (S (List.length pre))
       = Some ({| begin := begin (fst b); end_ := e |}, snd b) /\
     (post = [] -> e = end_ (fst b)) /\
     (forall c post', post = c :: post' ->
        fuzzy_day <= Z.abs (begin (fst c) - end_ (fst b)) -> e = end_ (fst b)) /\
     (forall c post', post = c :: post' ->
        Z.abs (begin (fst c) - end_ (fst b)) < fuzzy_day -> e = begin (fst c))).
Proof.
  cbv zeta. split.
  - split; reflexivity.
  - apply (@contiguous_pair_warns formatting no_correction
             [(jan03_05, flat_jan03); (jan06_1am, flat_jan20);
              ({| begin := days 0; end_ := days 2 |}, flat_jan01)]
             [] [(jan06_1am, flat_jan20)]
             ({| begin := days 0; end_ := days 2 |}, flat_jan01)
             (jan03_05, flat_jan03));
      reflexivity.
Defined.

(** The query for the flats of 2020-01-01. *)
Lemma query_with_table_witness :
  let self := converter in
  let datasetType := flat in
  let calibDate := "2020-01-01"%string in
  let tr := @nil Event in
  let table := "flat"%string in
  let more := @nil string in
  (mapper_tables self (name datasetType) = Some (table :: more) /\
   (has_dimension "physical_filter" datasetType = true
    \/ has_dimension "band" datasetType = false)) /\
  _queryGen2CalibRegistry self world datasetType calibDate tr
  = match db_execute world (query_text self datasetType table) calibDate with
    | inr rows =>
        (Ok rows, tr ++ [Execute (query_text self datasetType table) calibDate])
    | inl e =>
        (Ok [],
         tr ++ [Execute (query_text self datasetType table) calibDate;
                Log WARN ("Could not extract calibration ranges for "
                          ++ name datasetType ++ " in " ++ root self
                          ++ " from table " ++ table ++ ": " ++ e)%string])
    end.
Proof.
  cbv zeta. split.
  - split; [reflexivity | left; reflexivity].
  - apply (@query_with_table converter world flat "2020-01-01" [] "flat" []);
      [reflexivity | left; reflexivity].
Defined.

(** The first pair the join of the small repository leaves. *)
Lemma joined_pairs_sound_witness :
  let self := converter in
  let tr := @nil Event in
  let pair := (jan01, flat_jan01) in
  (for_each (join_datasetType self world) datasets [] tr = (Ok joined, join_trace) /\
   In pair (dd_pairs joined)) /\
  joined_from self world datasets pair.
Proof.
  cbv zeta.
  assert (Hrun : for_each (join_datasetType converter world) datasets [] []
                 = (Ok joined, join_trace)) by reflexivity.
  assert (Hin : In (jan01, flat_jan01) (dd_pairs joined)) by (left; reflexivity).
  split; [split; [exact Hrun | exact Hin]|].
  exact (@joined_pairs_sound formatting converter world datasets [] join_trace
           joined (jan01, flat_jan01) Hrun Hin).
Defined.

(** The registry's row for the flat of 2020-01-01 and the dataset found
    for it. *)
Lemma matching_rows_joined_witness :
  let self := converter in
  let tr := @nil Event in
  let files_jan01 :=
    [{| refs := [flat_jan01]; path := "FLAT/2020-01-01/r/FLAT-01.fits" |}] in
  let byCalibDate :=
    [(Some "2020-01-01"%string, files_jan01);
     (Some "2020-01-03"%string,
      [{| refs := [flat_jan03]; path := "FLAT/2020-01-03/r/FLAT-01.fits" |}])] in
  let row := {| validStart := days 0; validEnd := days 0;
                row_ccd := Some 1; row_filter := Some "r"%string |} in
  (for_each (join_datasetType self world) datasets [] tr = (Ok joined, join_trace) /\
   In (flat, byCalibDate) datasets /\
   isCalibration flat = true /\
   In (Some "2020-01-01"%string, files_jan01) byCalibDate /\
   mapper_tables self (name flat) = Some ["flat"%string] /\
   db_execute world (query_text self flat "flat") "2020-01-01" = inr [row] /\
   In row [row] /\
   get DataCoordinate_eq_dec (index_refs files_jan01)
       (translate self flat (gen2id_of flat row)) = Some flat_jan01) /\
  In (timespan_of row, flat_jan01) (dd_pairs joined).
Proof.
  cbv zeta.
  assert (Hrun : for_each (join_datasetType converter world) datasets [] []
                 = (Ok joined, join_trace)) by reflexivity.
  split.
  - split; [exact Hrun|]. split; [left; reflexivity|]. split; [reflexivity|].
    split; [left; reflexivity|]. split; [reflexivity|]. split; [reflexivity|].
    split; [left; reflexivity | reflexivity].
  - apply (@matching_rows_joined formatting converter world datasets [] join_trace
             joined flat
             [(Some "2020-01-01"%string,
               [{| refs := [flat_jan01];
                   path := "FLAT/2020-01-01/r/FLAT-01.fits" |}]);
              (Some "2020-01-03"%string,
               [{| refs := [flat_jan03];
                   path := "FLAT/2020-01-03/r/FLAT-01.fits" |}])]
             "2020-01-01"
             [{| refs := [flat_jan01]; path := "FLAT/2020-01-01/r/FLAT-01.fits" |}]
             "flat" []
             [{| validStart := days 0; validEnd := days 0;
                 row_ccd := Some 1; row_filter := Some "r"%string |}]
             {| validStart := days 0; validEnd := days 0;
                row_ccd := Some 1; row_filter := Some "r"%string |}
             flat_jan01 Hrun);
      [left; reflexivity | reflexivity | left; reflexivity | reflexivity
      | reflexivity | left; reflexivity | reflexivity].
Defined.

End Examples.
